(** * HubNavigationApplicationCustomizer: a shallow embedding

    The SharePoint application customizer of
    [src/HubNavigationApplicationCustomizer.ts] highlights, inside the hub
    navigation, the links that point at the current site.  This file embeds
    its methods as functions over an explicit model of the instance fields
    and of the host page, and proves the properties of the specification
    about them.

    - Strings, the values of parsed JSON and the class lists of elements
      are data; the document is a store of elements linked by parent
      pointers, queried by the parsed form of [NAV_SELECTORS].
    - A method is a function from the state to a completion, normal or
      abrupt, so that [try], [catch] and [finally] are modelled as written.
    - The framework and the browser (log, HTTP client, navigated event,
      mutation observers, timers) appear through their observable effect
      on the state; the host delivers events to the callbacks the
      customizer registered.

    The repository holds a second copy of the class
    ([src/unnamed/part_000]), with other delays and an added watcher of
    mega-menu labels that [onInit] starts.  [_extractSiteName],
    [_loadConfig], [_applyHighlighting] and [_observeDOM] are the same in
    both, and [_injectStyles] up to the text of the style sheet; of the
    watcher, [processCallout] and the observer callback are modelled, in
    [MegaMenu]. *)

From Stdlib Require Import ZArith Ascii String List Bool Lia.
From Stdlib Require Import Floats.SpecFloat.
From stdpp Require Import base list strings.

Local Open Scope Z_scope.

(* stdpp turns off [simpl] for string append; the proofs below want it. *)
#[local] Arguments String.append !_ _ / : simpl nomatch.

#[local] Set Warnings "-register-all".

(** ** JavaScript strings

    A string is modelled by [string], as a sequence of code units below 256
    (the Latin-1 range).  The methods below follow ECMAScript for the calls
    the customizer makes: [split] with a string separator, [indexOf],
    [toLowerCase] and [replace(/\/$/, '')]. *)
Module JsString.

Definition slash : ascii := "/"%char.

(** [s.startsWith(p)] *)
Fixpoint startsWith (p s : string) : bool :=
  match p, s with
  | EmptyString, _ => true
  | String _ _, EmptyString => false
  | String a p', String b s' => if Ascii.eqb a b then startsWith p' s' else false
  end.

(** [s.indexOf(p)]: the index of the first occurrence, [-1] when absent. *)
Fixpoint indexOf (p s : string) : Z :=
  if startsWith p s then 0
  else match s with
       | EmptyString => -1
       | String _ s' => let r := indexOf p s' in if r <? 0 then -1 else r + 1
       end.

(** [s.split(sep)] for a non-empty separator: the pieces between the
    successive leftmost, non-overlapping occurrences of [sep].  [skip]
    counts the code units of a matched separator still to be consumed. *)
Fixpoint split_from (sep : string) (skip : nat) (s : string) : list string :=
  match s with
  | EmptyString => [EmptyString]
  | String c s' =>
      match skip with
      | S k => split_from sep k s'
      | O =>
          if startsWith sep s
          then EmptyString :: split_from sep (Nat.pred (String.length sep)) s'
          else match split_from sep O s' with
               | piece :: rest => String c piece :: rest
               | [] => [String c EmptyString]
               end
      end
  end.

(** With the empty separator [split] yields the code units one by one. *)
Fixpoint units (s : string) : list string :=
  match s with
  | EmptyString => []
  | String c s' => String c EmptyString :: units s'
  end.

Definition split (sep s : string) : list string :=
  match sep with
  | EmptyString => units s
  | String _ _ => split_from sep O s
  end.

(** The lower-case mapping of the code units below 256: [A]-[Z] and the
    upper-case letters of U+00C0-U+00DE (all but the multiplication sign
    U+00D7) move up by 32; every other code unit stays. *)
Definition lower (c : ascii) : ascii :=
  let n := nat_of_ascii c in
  if (Nat.leb 65 n && Nat.leb n 90)
     || (Nat.leb 192 n && Nat.leb n 222 && negb (Nat.eqb n 215))
  then ascii_of_nat (n + 32)
  else c.

(** [s.toLowerCase()] *)
Fixpoint toLowerCase (s : string) : string :=
  match s with
  | EmptyString => EmptyString
  | String c s' => String (lower c) (toLowerCase s')
  end.

(** [s.replace(/\/$/, '')]: drops one trailing slash. *)
Fixpoint stripTrailingSlash (s : string) : string :=
  match s with
  | EmptyString => EmptyString
  | String c EmptyString => if Ascii.eqb c slash then EmptyString else s
  | String c s' => String c (stripTrailingSlash s')
  end.

(** Truthiness of a string: every string but the empty one. *)
Definition truthy (s : string) : bool :=
  match s with EmptyString => false | String _ _ => true end.

(** The code units of [s] before its first slash. *)
Fixpoint untilSlash (s : string) : string :=
  match s with
  | EmptyString => EmptyString
  | String c s' => if Ascii.eqb c slash then EmptyString else String c (untilSlash s')
  end.

(** [occursAt p s i]: [p] occurs in [s] at index [i]. *)
Definition occursAt (p s : string) (i : nat) : Prop :=
  exists pre post, s = pre +:+ p +:+ post /\ String.length pre = i.

Definition occurs (p s : string) : Prop := exists i, occursAt p s i.

End JsString.

Import JsString.

(** ** UrlSiteNameExtractor *)

(** [_extractSiteName(url)], lines 178-186.  Nothing in the body can throw
    on a string argument, so the [catch] branch is not reachable.  The last
    [None] case stands for [undefined]; [split] never returns an empty
    array for a non-empty separator. *)
Definition _extractSiteName (url : string) : string :=
  match split "/sites/" url !! 1%nat with
  | Some m =>
      if truthy m
      then match split "/" m !! 0%nat with
           | Some site => site
           | None => ""
           end
      else ""
  | None => ""
  end.

(** [s.substring(n)] *)
Fixpoint dropUnits (n : nat) (s : string) : string :=
  match n, s with
  | O, _ => s
  | S _, EmptyString => EmptyString
  | S n', String _ s' => dropUnits n' s'
  end.

(** The extractor as the specification words it, for comparison with
    [_extractSiteName]: the marker is looked for without regard to case,
    and the result is what follows its first occurrence, up to the next
    slash. *)
Definition siteNameIgnoringCase (url : string) : string :=
  let i := indexOf "/sites/" (toLowerCase url) in
  if i <? 0 then "" else untilSlash (dropUnits (Z.to_nat i + 7) url).

(** ** JavaScript values

    What [response.json()] can produce, and what the erased field types of
    [INavConfig] can therefore hold at run time.  Numbers are IEEE 754
    doubles, as data ([spec_float]). *)
Inductive JsValue : Type :=
| JUndefined
| JNull
| JBool (b : bool)
| JNumber (x : spec_float)
| JString (s : string)
| JArray (items : list JsValue)
| JObject (props : list (string * JsValue)).

(** [ToBoolean]: the falsy values are [undefined], [null], [false], [+0],
    [-0], [NaN] and the empty string. *)
Definition toBoolean (v : JsValue) : bool :=
  match v with
  | JUndefined | JNull => false
  | JBool b => b
  | JNumber (S754_zero _) | JNumber S754_nan => false
  | JNumber _ => true
  | JString s => truthy s
  | JArray _ | JObject _ => true
  end.

(** [a || b] *)
Definition orElse (a b : JsValue) : JsValue := if toBoolean a then a else b.

(** The own property [name] of an object literal; the keys of an object are
    distinct, the first binding of a key is the one that counts. *)
Fixpoint ownProperty (props : list (string * JsValue)) (name : string) : JsValue :=
  match props with
  | [] => JUndefined
  | (k, v) :: rest => if String.eqb k name then v else ownProperty rest name
  end.

Inductive JsError : Type :=
| TypeError (message : string)
| SyntaxError (message : string)
| NetworkError (message : string).

(** [v.name] for one of the four configuration names: a [TypeError] on
    [null] and [undefined], the own property of an object, and [undefined]
    on primitives and arrays, none of which has such a property. *)
Definition getProperty (v : JsValue) (name : string) : JsError + JsValue :=
  match v with
  | JUndefined | JNull => inl (TypeError "Cannot read properties of null or undefined")
  | JObject props => inr (ownProperty props name)
  | JBool _ | JNumber _ | JString _ | JArray _ => inr JUndefined
  end.

(** ** NavigationConfig ([INavConfig]) *)
Record INavConfig : Type := {
  currentSiteColor : JsValue;
  currentSiteFontWeight : JsValue;
  otherSiteColor : JsValue;
  otherSiteFontWeight : JsValue
}.

(** ** The document

    Elements live in a store indexed by node identity; [parentNode] links
    them into trees.  [classList] holds the tokens of the [class]
    attribute, [attributes] every other attribute.  For the [style] element
    the customizer creates, [styleRules] holds the four values interpolated
    into its [innerHTML]. *)
Record Element : Type := {
  tagName : string;
  attributes : list (string * string);
  classList : list string;
  styleRules : option INavConfig;
  parentNode : option nat
}.

Record Document : Type := {
  nodes : list Element;
  documentElement : nat;
  head : option nat;
  body : option nat
}.

Definition CURRENT_SITE : string := "hub-nav-current-site".
Definition OTHER_SITE : string := "hub-nav-other-site".

(** [e.getAttribute(name)], for a name other than [class]. *)
Fixpoint lookupAttribute (attrs : list (string * string)) (name : string) : option string :=
  match attrs with
  | [] => None
  | (k, v) :: rest => if String.eqb k name then Some v else lookupAttribute rest name
  end.

Definition getAttribute (e : Element) (name : string) : option string :=
  lookupAttribute (attributes e) name.

(** [e.setAttribute(name, value)] *)
Fixpoint storeAttribute (attrs : list (string * string)) (name value : string)
  : list (string * string) :=
  match attrs with
  | [] => [(name, value)]
  | (k, v) :: rest =>
      if String.eqb k name then (k, value) :: rest
      else (k, v) :: storeAttribute rest name value
  end.

Definition withClassList (cl : list string) (e : Element) : Element :=
  {| tagName := tagName e; attributes := attributes e; classList := cl;
     styleRules := styleRules e; parentNode := parentNode e |}.

Definition withParent (p : option nat) (e : Element) : Element :=
  {| tagName := tagName e; attributes := attributes e; classList := classList e;
     styleRules := styleRules e; parentNode := p |}.

Definition isToken (tokens : list string) (t : string) : bool :=
  existsb (String.eqb t) tokens.

(** [e.classList.contains(t)] *)
Definition classList_contains (t : string) (e : Element) : bool :=
  isToken (classList e) t.

(** [e.classList.remove(t1, t2, ...)] *)
Definition classList_remove (tokens : list string) (e : Element) : Element :=
  withClassList (filter (fun t => negb (isToken tokens t)) (classList e)) e.

(** [e.classList.add(t)]: the token set is ordered and has no duplicates. *)
Definition classList_add (t : string) (e : Element) : Element :=
  if classList_contains t e then e else withClassList (classList e ++ [t]) e.

(** [s.indexOf(p) > -1] *)
Definition includes (p s : string) : bool := -1 <? indexOf p s.

(** ** Selectors

    The parsed form of the selectors the customizer uses: a compound
    selector is an optional type selector with attribute tests, and a
    complex selector is [ancestor subject] (descendant combinator). *)
Inductive AttrTest : Type :=
| AttrEquals (name value : string)      (* [name="value"] *)
| AttrIncludes (name value : string).   (* [name*="value"] *)

Record Compound : Type := {
  typeSelector : option string;
  attrTests : list AttrTest
}.

Record Selector : Type := {
  ancestorPart : Compound;
  subjectPart : Compound
}.

Definition anyWith (t : AttrTest) : Compound :=
  {| typeSelector := None; attrTests := [t] |}.
Definition anchor : Compound := {| typeSelector := Some "a"; attrTests := [] |}.
Definition siteAnchor : Compound :=
  {| typeSelector := Some "a"; attrTests := [AttrIncludes "href" "/sites/"] |}.

(** [NAV_SELECTORS], lines 12-23. *)
Definition NAV_SELECTORS : list Selector :=
  [ {| ancestorPart := anyWith (AttrEquals "data-automationid" "HubNav"); subjectPart := anchor |};
    {| ancestorPart := anyWith (AttrIncludes "class" "hubNav"); subjectPart := anchor |};
    {| ancestorPart := anyWith (AttrIncludes "class" "HubNav"); subjectPart := anchor |};
    {| ancestorPart := anyWith (AttrIncludes "class" "megaMenu"); subjectPart := anchor |};
    {| ancestorPart := anyWith (AttrIncludes "class" "MegaMenu"); subjectPart := anchor |};
    {| ancestorPart := anyWith (AttrIncludes "class" "topNav"); subjectPart := anchor |};
    {| ancestorPart := anyWith (AttrIncludes "class" "TopNav"); subjectPart := anchor |};
    {| ancestorPart := anyWith (AttrIncludes "class" "CompositeHeader"); subjectPart := anchor |};
    {| ancestorPart := {| typeSelector := Some "nav"; attrTests := [] |};
       subjectPart := siteAnchor |};
    {| ancestorPart := anyWith (AttrEquals "role" "navigation"); subjectPart := siteAnchor |} ].

(** An attribute test on an element.  The value of [class] is its tokens
    joined by white space, so a value without white space is included in
    it exactly when it is included in one of the tokens; the selectors of
    the customizer test [class] with [*=] only. *)
Definition testAttribute (e : Element) (t : AttrTest) : bool :=
  match t with
  | AttrEquals name value =>
      match getAttribute e name with
      | Some v => String.eqb v value
      | None => false
      end
  | AttrIncludes name value =>
      if String.eqb name "class"
      then existsb (includes value) (classList e)
      else match getAttribute e name with
           | Some v => includes value v
           | None => false
           end
  end.

Definition matchesCompound (c : Compound) (e : Element) : bool :=
  match typeSelector c with
  | Some tag => String.eqb (tagName e) tag
  | None => true
  end && forallb (testAttribute e) (attrTests c).

(** The chain of ancestors of node [i], nearest first.  The fuel bounds the
    walk by the size of the store. *)
Fixpoint ancestorsFrom (ns : list Element) (fuel i : nat) : list nat :=
  match fuel with
  | O => []
  | S fuel' =>
      match ns !! i ≫= parentNode with
      | Some p => p :: ancestorsFrom ns fuel' p
      | None => []
      end
  end.

Definition ancestors (ns : list Element) (i : nat) : list nat :=
  ancestorsFrom ns (length ns) i.

(** A node is in the document when its chain of ancestors reaches the
    document element. *)
Definition isConnected (d : Document) (i : nat) : bool :=
  existsb (Nat.eqb (documentElement d)) (i :: ancestors (nodes d) i).

Definition matchesAt (ns : list Element) (c : Compound) (i : nat) : bool :=
  match ns !! i with
  | Some e => matchesCompound c e
  | None => false
  end.

Definition matchesSelector (ns : list Element) (i : nat) (s : Selector) : bool :=
  matchesAt ns (subjectPart s) i
  && existsb (matchesAt ns (ancestorPart s)) (ancestors ns i).

(** [document.querySelectorAll(selectors.join(', '))]: the nodes of the
    document that match one of the selectors, each once. *)
Definition querySelectorAll (d : Document) (selectors : list Selector) : list nat :=
  filter (fun i => isConnected d i && existsb (matchesSelector (nodes d) i) selectors)
         (seq 0 (length (nodes d))).

(** ** HighlightingPass, one link

    The body of the [forEach] callback of [_applyHighlighting], lines
    154-165, as the change it makes to the link. *)
Definition highlightLink (currentSiteName : string) (link : Element) : Element :=
  let href := match getAttribute link "href" with
              | Some h => if truthy h then h else ""
              | None => ""
              end in
  let linkSiteName := _extractSiteName (toLowerCase href) in
  let link := classList_remove [CURRENT_SITE; OTHER_SITE] link in
  if truthy linkSiteName && String.eqb linkSiteName currentSiteName
  then classList_add CURRENT_SITE link
  else if -1 <? indexOf "/sites/" href
       then classList_add OTHER_SITE link
       else link.

(** ** The instance and its host

    [Instance] holds the four private fields of the customizer (lines
    34-37); the handles are node, observer and timer identities. *)
Record Instance : Type := {
  _styleElement : option nat;
  _config : INavConfig;
  _observer : option nat;
  _throttleTimer : option nat
}.

(** What [spHttpClient.get] settles to: a rejection, or a response with its
    [ok] flag and what its [json()] settles to. *)
Inductive HttpOutcome : Type :=
| HttpRejected (e : JsError)
| HttpResponse (ok : bool) (json : JsError + JsValue).

(** What the customizer reads from [this.context] and [this.properties].
    [absoluteUrl] is [None] when the page context yields [undefined]. *)
Record Context : Type := {
  absoluteUrl : option string;
  configPath : option string;
  spHttpClient_get : string -> HttpOutcome;
  navigatedEvent_present : bool
}.

(** The two callbacks handed to [setTimeout]. *)
Inductive TimerTask : Type :=
| HighlightAfterNavigation   (* line 55 *)
| HighlightAfterMutation.    (* lines 200-208 *)

Record Timer : Type := { handle : nat; task : TimerTask; delay : Z }.

(** A [MutationObserver]; every observer of this model is created by
    [_observeDOM] and carries its callback (lines 195-212). *)
Record Observer : Type := {
  observed : option nat;
  childList : bool;
  subtree : bool
}.

Inductive LogLevel : Type := Info | Warn | Error.

Record LogEntry : Type := {
  level : LogLevel;
  message : string;
  cause : option JsError
}.

(** The state the methods run in.  [passes] is a history counter, absent
    from the source: the number of times [_applyHighlighting] was entered.
    [uncaught] collects the exceptions that escaped a callback into the
    host page. *)
Record World : Type := {
  this : Instance;
  context : Context;
  document : Document;
  navigatedHandlers : nat;
  observers : list Observer;
  timers : list Timer;
  timerCount : nat;
  log : list LogEntry;
  passes : nat;
  uncaught : list JsError
}.

(** Field updates. *)
Definition with_styleElement (x : option nat) (r : Instance) : Instance :=
  {| _styleElement := x; _config := _config r; _observer := _observer r;
     _throttleTimer := _throttleTimer r |}.

Definition with_config (x : INavConfig) (r : Instance) : Instance :=
  {| _styleElement := _styleElement r; _config := x;
     _observer := _observer r; _throttleTimer := _throttleTimer r |}.

Definition with_observer (x : option nat) (r : Instance) : Instance :=
  {| _styleElement := _styleElement r; _config := _config r;
     _observer := x; _throttleTimer := _throttleTimer r |}.

Definition with_throttleTimer (x : option nat) (r : Instance) : Instance :=
  {| _styleElement := _styleElement r; _config := _config r;
     _observer := _observer r; _throttleTimer := x |}.

Definition with_nodes (x : list Element) (r : Document) : Document :=
  {| nodes := x; documentElement := documentElement r; head := head r;
     body := body r |}.

Definition with_this (x : Instance) (r : World) : World :=
  {| this := x; context := context r; document := document r;
     navigatedHandlers := navigatedHandlers r; observers := observers r;
     timers := timers r; timerCount := timerCount r; log := log r;
     passes := passes r; uncaught := uncaught r |}.

Definition with_document (x : Document) (r : World) : World :=
  {| this := this r; context := context r; document := x;
     navigatedHandlers := navigatedHandlers r; observers := observers r;
     timers := timers r; timerCount := timerCount r; log := log r;
     passes := passes r; uncaught := uncaught r |}.

Definition with_navigatedHandlers (x : nat) (r : World) : World :=
  {| this := this r; context := context r; document := document r;
     navigatedHandlers := x; observers := observers r; timers := timers r;
     timerCount := timerCount r; log := log r; passes := passes r;
     uncaught := uncaught r |}.

Definition with_observers (x : list Observer) (r : World) : World :=
  {| this := this r; context := context r; document := document r;
     navigatedHandlers := navigatedHandlers r; observers := x;
     timers := timers r; timerCount := timerCount r; log := log r;
     passes := passes r; uncaught := uncaught r |}.

Definition with_timers (x : list Timer) (r : World) : World :=
  {| this := this r; context := context r; document := document r;
     navigatedHandlers := navigatedHandlers r; observers := observers r;
     timers := x; timerCount := timerCount r; log := log r;
     passes := passes r; uncaught := uncaught r |}.

Definition with_timerCount (x : nat) (r : World) : World :=
  {| this := this r; context := context r; document := document r;
     navigatedHandlers := navigatedHandlers r; observers := observers r;
     timers := timers r; timerCount := x; log := log r; passes := passes r;
     uncaught := uncaught r |}.

Definition with_log (x : list LogEntry) (r : World) : World :=
  {| this := this r; context := context r; document := document r;
     navigatedHandlers := navigatedHandlers r; observers := observers r;
     timers := timers r; timerCount := timerCount r; log := x;
     passes := passes r; uncaught := uncaught r |}.

Definition with_passes (x : nat) (r : World) : World :=
  {| this := this r; context := context r; document := document r;
     navigatedHandlers := navigatedHandlers r; observers := observers r;
     timers := timers r; timerCount := timerCount r; log := log r;
     passes := x; uncaught := uncaught r |}.

Definition with_uncaught (x : list JsError) (r : World) : World :=
  {| this := this r; context := context r; document := document r;
     navigatedHandlers := navigatedHandlers r; observers := observers r;
     timers := timers r; timerCount := timerCount r; log := log r;
     passes := passes r; uncaught := x |}.

(** ** Completions

    A method body either completes normally or throws; in both cases the
    mutations made so far stay. *)
Inductive Completion (A : Type) : Type :=
| Normal (a : A) (w : World)
| Throw (e : JsError) (w : World).
Arguments Normal {A} a w.
Arguments Throw {A} e w.

Definition Js (A : Type) : Type := World -> Completion A.

#[export] Instance Js_ret : MRet Js := fun A a w => Normal a w.

#[export] Instance Js_bind : MBind Js := fun A B f m w =>
  match m w with
  | Normal a w' => f a w'
  | Throw e w' => Throw e w'
  end.

Definition throw {A : Type} (e : JsError) : Js A := fun w => Throw e w.

Definition gets {A : Type} (f : World -> A) : Js A := fun w => Normal (f w) w.

Definition modify (f : World -> World) : Js unit := fun w => Normal tt (f w).

(** [await] of a settled promise, or the value of a fallible expression. *)
Definition settle {A : Type} (r : JsError + A) : Js A :=
  match r with
  | inl e => throw e
  | inr a => mret a
  end.

(** [try { body } catch (e) { handler }] *)
Definition tryCatch (body : Js unit) (handler : JsError -> Js unit) : Js unit :=
  fun w =>
    match body w with
    | Normal a w' => Normal a w'
    | Throw e w' => handler e w'
    end.

(** [try { body } finally { cleanup }] *)
Definition tryFinally (body cleanup : Js unit) : Js unit :=
  fun w =>
    match body w with
    | Normal a w' => cleanup w'
    | Throw e w' =>
        match cleanup w' with
        | Normal _ w'' => Throw e w''
        | Throw e' w'' => Throw e' w''
        end
    end.

(** [list.forEach(f)] *)
Fixpoint forEach {A : Type} (l : list A) (f : A -> Js unit) : Js unit :=
  match l with
  | [] => mret tt
  | x :: rest => f x ;; forEach rest f
  end.

(** The state a completion leaves. *)
Definition final {A : Type} (c : Completion A) : World :=
  match c with
  | Normal _ w => w
  | Throw _ w => w
  end.

Definition run (m : Js unit) (w : World) : World := final (m w).

(** ** Host primitives *)

Definition OBSERVER_THROTTLE_MS : Z := 300.

Definition writeLog (l : LogLevel) (msg : string) (c : option JsError) : Js unit :=
  modify (fun w => with_log (log w ++ [{| level := l; message := msg; cause := c |}]) w).

Definition Log_info (msg : string) : Js unit := writeLog Info msg None.
Definition Log_warn (msg : string) (c : option JsError) : Js unit := writeLog Warn msg c.
Definition Log_error (msg : string) (e : JsError) : Js unit := writeLog Error msg (Some e).

Definition modifyNodes (f : list Element -> list Element) : Js unit :=
  modify (fun w => with_document (with_nodes (f (nodes (document w))) (document w)) w).

(** A change to the element behind a reference. *)
Definition modifyElement (i : nat) (f : Element -> Element) : Js unit :=
  modifyNodes (alter f i).

(** [document.createElement(tag)]: a fresh element, outside the tree. *)
Definition createElement (tag : string) : Js nat :=
  i ← gets (fun w => length (nodes (document w)));
  modifyNodes (fun ns => ns ++ [{| tagName := tag; attributes := []; classList := [];
                                   styleRules := None; parentNode := None |}]) ;;
  mret i.

(** [node.remove()] *)
Definition removeNode (i : nat) : Js unit := modifyElement i (withParent None).

(** [parent.appendChild(child)] *)
Definition appendChild (parent child : nat) : Js unit :=
  modifyElement child (withParent (Some parent)).

Definition setAttribute (i : nat) (name value : string) : Js unit :=
  modifyElement i (fun e =>
    {| tagName := tagName e; attributes := storeAttribute (attributes e) name value;
       classList := classList e; styleRules := styleRules e; parentNode := parentNode e |}).

(** The assignment to [innerHTML] of lines 117-133, which interpolates the
    four values of the configuration into the two rule groups. *)
Definition setStyleRules (i : nat) (c : INavConfig) : Js unit :=
  modifyElement i (fun e =>
    {| tagName := tagName e; attributes := attributes e; classList := classList e;
       styleRules := Some c; parentNode := parentNode e |}).

(** [window.setTimeout(task, delay)]: the handle is a positive integer. *)
Definition setTimeout (t : TimerTask) (ms : Z) : Js nat :=
  n ← gets timerCount;
  let h := S n in
  modify (fun w => with_timerCount h
            (with_timers (timers w ++ [{| handle := h; task := t; delay := ms |}]) w)) ;;
  mret h.

Definition hasHandle (h : nat) (t : Timer) : bool := Nat.eqb (handle t) h.

(** [clearTimeout(h)]: the timer, if it is pending, is dropped. *)
Definition clearTimeout (h : option nat) : Js unit :=
  match h with
  | Some n =>
      modify (fun w => with_timers (filter (fun t => negb (hasHandle n t)) (timers w)) w)
  | None => mret tt
  end.

(** Truthiness of a field that holds [null] or a number. *)
Definition handleTruthy (h : option nat) : bool :=
  match h with
  | Some n => negb (Nat.eqb n 0)
  | None => false
  end.

(** ** HighlightingPass *)

(** [_applyHighlighting()], lines 143-173.  The first line counts the
    entry in the history counter. *)
Definition _applyHighlighting : Js unit :=
  modify (fun w => with_passes (S (passes w)) w) ;;
  tryCatch
    (url ← gets (fun w => absoluteUrl (context w));
     match url with
     | None => throw (TypeError "Cannot read properties of undefined (reading 'replace')")
     | Some u =>
         let currentSiteUrl := toLowerCase (stripTrailingSlash u) in
         let currentSiteName := _extractSiteName currentSiteUrl in
         if negb (truthy currentSiteName) then mret tt
         else
           allLinks ← gets (fun w => querySelectorAll (document w) NAV_SELECTORS);
           forEach allLinks (fun link =>
             tryCatch
               (modifyElement link (highlightLink currentSiteName))
               (fun linkError => Log_warn "Failed to process link" (Some linkError)))
     end)
    (fun error => Log_error "Failed to apply highlighting" error).

(** ** StyleInjector *)

(** [_injectStyles()], lines 109-138. *)
Definition _injectStyles : Js unit :=
  tryCatch
    (old ← gets (fun w => _styleElement (this w));
     match old with
     | Some el => removeNode el
     | None => mret tt
     end ;;
     el ← createElement "style";
     modify (fun w => with_this (with_styleElement (Some el) (this w)) w) ;;
     setAttribute el "data-hub-nav-customizer" "true" ;;
     c ← gets (fun w => _config (this w));
     setStyleRules el c ;;
     h ← gets (fun w => head (document w));
     match h with
     | Some hd => appendChild hd el
     | None => throw (TypeError "Cannot read properties of null (reading 'appendChild')")
     end)
    (fun error => Log_error "Failed to inject styles" error).

(** ** MutationWatcher *)

(** The timer callback of lines 200-208, over the pass it runs. *)
Definition throttleTimeout (pass : Js unit) : Js unit :=
  tryFinally
    (tryCatch pass (fun error => Log_error "Observer callback failed" error))
    (modify (fun w => with_this (with_throttleTimer None (this w)) w)).

(** The observer callback of lines 195-212. *)
Definition observerCallback : Js unit :=
  tryCatch
    (t ← gets (fun w => _throttleTimer (this w));
     if handleTruthy t then mret tt
     else
       h ← setTimeout HighlightAfterMutation OBSERVER_THROTTLE_MS;
       modify (fun w => with_this (with_throttleTimer (Some h) (this w)) w))
    (fun error => Log_error "Observer throttle failed" error).

(** [new MutationObserver(callback)] *)
Definition newMutationObserver : Js nat :=
  i ← gets (fun w => length (observers w));
  modify (fun w => with_observers
            (observers w ++ [{| observed := None; childList := false; subtree := false |}]) w) ;;
  mret i.

(** [observer.observe(target, { childList: true, subtree: true })] *)
Definition observe (o : nat) (target : option nat) : Js unit :=
  match target with
  | None => throw (TypeError "parameter 1 is not of type 'Node'")
  | Some t =>
      modify (fun w => with_observers
                (<[o := {| observed := Some t; childList := true; subtree := true |}]>
                   (observers w)) w)
  end.

(** [_observeDOM()], lines 191-221. *)
Definition _observeDOM : Js unit :=
  tryCatch
    (o ← gets (fun w => _observer (this w));
     match o with
     | Some _ => mret tt
     | None =>
         ob ← newMutationObserver;
         modify (fun w => with_this (with_observer (Some ob) (this w)) w) ;;
         b ← gets (fun w => body (document w));
         observe ob b
     end)
    (fun error => Log_error "Failed to setup DOM observer" error).

(** ** Teardown *)

(** [observer.disconnect()] *)
Definition disconnect (o : nat) : Js unit :=
  modify (fun w => with_observers
            (alter (fun ob => {| observed := None; childList := childList ob;
                                 subtree := subtree ob |}) o (observers w)) w).

(** [onDispose()], lines 223-250: three blocks, each with its own guard. *)
Definition onDispose : Js unit :=
  tryCatch
    (o ← gets (fun w => _observer (this w));
     match o with
     | Some ob =>
         disconnect ob ;;
         modify (fun w => with_this (with_observer None (this w)) w)
     | None => mret tt
     end)
    (fun error => Log_warn "Failed to disconnect observer" (Some error)) ;;
  tryCatch
    (s ← gets (fun w => _styleElement (this w));
     match s with
     | Some el =>
         removeNode el ;;
         modify (fun w => with_this (with_styleElement None (this w)) w)
     | None => mret tt
     end)
    (fun error => Log_warn "Failed to remove style element" (Some error)) ;;
  tryCatch
    (t ← gets (fun w => _throttleTimer (this w));
     if handleTruthy t
     then clearTimeout t ;;
          modify (fun w => with_this (with_throttleTimer None (this w)) w)
     else mret tt)
    (fun error => Log_warn "Failed to clear throttle timer" (Some error)).

(** ** NavigationConfig loader and LifecycleController

    [DEFAULT_NAV_CONFIG] is imported from [./INavConfig], which is not among
    the sources: it is a parameter of what follows. *)
Section Customizer.

Variable DEFAULT_NAV_CONFIG : INavConfig.

(** The field initialisers of lines 34-37. *)
Definition newInstance : Instance :=
  {| _styleElement := None; _config := DEFAULT_NAV_CONFIG;
     _observer := None; _throttleTimer := None |}.

(** [`${siteUrl}`] *)
Definition interpolate (s : option string) : string :=
  match s with
  | Some u => u
  | None => "undefined"
  end.

(** The object literal of lines 88-93: [json.f || DEFAULT_NAV_CONFIG.f]
    for each field, read in order. *)
Definition mergeConfig (json : JsValue) : Js INavConfig :=
  a ← settle (getProperty json "currentSiteColor");
  b ← settle (getProperty json "currentSiteFontWeight");
  c ← settle (getProperty json "otherSiteColor");
  d ← settle (getProperty json "otherSiteFontWeight");
  mret {| currentSiteColor := orElse a (currentSiteColor DEFAULT_NAV_CONFIG);
          currentSiteFontWeight := orElse b (currentSiteFontWeight DEFAULT_NAV_CONFIG);
          otherSiteColor := orElse c (otherSiteColor DEFAULT_NAV_CONFIG);
          otherSiteFontWeight := orElse d (otherSiteFontWeight DEFAULT_NAV_CONFIG) |}.

(** [_loadConfig()], lines 74-104.  The one [await] of a pending promise
    is the request; the model runs on when it settles. *)
Definition _loadConfig : Js unit :=
  tryCatch
    (siteUrl ← gets (fun w => absoluteUrl (context w));
     path ← gets (fun w => match configPath (context w) with
                           | Some p => if truthy p then p else "SiteAssets/hub-nav-config.json"
                           | None => "SiteAssets/hub-nav-config.json"
                           end);
     let configUrl := interpolate siteUrl +:+ "/" +:+ path in
     outcome ← gets (fun w => spHttpClient_get (context w) configUrl);
     match outcome with
     | HttpRejected e => throw e
     | HttpResponse ok json =>
         if ok then
           tryCatch
             (j ← settle json;
              c ← mergeConfig j;
              modify (fun w => with_this (with_config c (this w)) w) ;;
              Log_info "Config loaded from Site Assets")
             (fun parseError => Log_error "Failed to parse config JSON" parseError)
         else Log_warn "Config file not found, using defaults" None
     end)
    (fun error => Log_error "Failed to load config" error).

(** The handler of the navigated event, lines 53-59. *)
Definition navigatedHandler : Js unit :=
  tryCatch
    (setTimeout HighlightAfterNavigation 500 ;; mret tt)
    (fun error => Log_error "Navigation event handler failed" error).

(** [this.context.application.navigatedEvent.add(this, handler)] *)
Definition navigatedEvent_add : Js unit :=
  present ← gets (fun w => navigatedEvent_present (context w));
  if (present : bool)
  then modify (fun w => with_navigatedHandlers (S (navigatedHandlers w)) w)
  else throw (TypeError "Cannot read properties of undefined (reading 'add')").

(** [onInit()], lines 39-69. *)
Definition onInit : Js unit :=
  tryCatch
    (Log_info "Initialized" ;;
     _loadConfig ;;
     _injectStyles ;;
     _applyHighlighting ;;
     navigatedEvent_add ;;
     _observeDOM)
    (fun error => Log_error "Initialization failed" error) ;;
  mret tt.

End Customizer.

(** ** The event loop

    What the host page delivers to the customizer after [onInit]: a batch
    of mutation records to the attached observers, the expiry of a pending
    timer, and the navigated event to the subscribed handlers. *)
Inductive Event : Type :=
| MutationBatch
| TimerFires (h : nat)
| Navigated.

Definition runTask (t : TimerTask) : Js unit :=
  match t with
  | HighlightAfterNavigation => _applyHighlighting
  | HighlightAfterMutation => throttleTimeout _applyHighlighting
  end.

Definition isAttached (o : Observer) : bool :=
  match observed o with Some _ => true | None => false end.

(** A callback invoked by the host: an exception that escapes it is
    reported to the page instead of being propagated. *)
Definition invoke (callback : Js unit) (w : World) : World :=
  match callback w with
  | Normal _ w' => w'
  | Throw e w' => with_uncaught (uncaught w' ++ [e]) w'
  end.

Definition dispatch (ev : Event) (w : World) : World :=
  match ev with
  | MutationBatch =>
      fold_left (fun (w' : World) (_ : Observer) => invoke observerCallback w')
                (filter (fun o => isAttached o) (observers w)) w
  | TimerFires h =>
      match find (hasHandle h) (timers w) with
      | Some t =>
          invoke (runTask (task t))
                 (with_timers (filter (fun t' => negb (hasHandle h t')) (timers w)) w)
      | None => w
      end
  | Navigated =>
      Nat.iter (navigatedHandlers w) (invoke navigatedHandler) w
  end.

Definition dispatchAll (evs : list Event) (w : World) : World :=
  fold_left (fun (w' : World) (ev : Event) => dispatch ev w') evs w.

(** ** Auxiliary definitions of the proofs *)

Definition isMarker (t : string) : bool := isToken [CURRENT_SITE; OTHER_SITE] t.

(** The [href] the callback reads: [link.getAttribute('href') || '']. *)
Definition hrefOf (link : Element) : string :=
  match getAttribute link "href" with
  | Some h => if truthy h then h else ""
  | None => ""
  end.

(** The site identifier the callback extracts from a link. *)
Definition linkSiteName (link : Element) : string :=
  _extractSiteName (toLowerCase (hrefOf link)).

(** The marker a pass for site [s] gives a link, as a list of tokens. *)
Definition markerFor (s : string) (link : Element) : list string :=
  if truthy (linkSiteName link) && String.eqb (linkSiteName link) s then [CURRENT_SITE]
  else if includes "/sites/" (hrefOf link) then [OTHER_SITE]
  else [].

(** The current site a pass computes from the page URL. *)
Definition currentSiteOf (u : string) : string :=
  _extractSiteName (toLowerCase (stripTrailingSlash u)).

(** The [forEach] of a pass, as a change to the store. *)
Definition highlightAll (s : string) (links : list nat) (ns : list Element) : list Element :=
  fold_left (fun (acc : list Element) (i : nat) => alter (highlightLink s) i acc) links ns.

(** An attribute test that cannot tell whether a marker class is set. *)
Definition markerBlind (t : AttrTest) : bool :=
  match t with
  | AttrEquals _ _ => true
  | AttrIncludes name value =>
      if String.eqb name "class"
      then negb (includes value CURRENT_SITE) && negb (includes value OTHER_SITE)
      else true
  end.

Definition compoundBlind (c : Compound) : bool := forallb markerBlind (attrTests c).

Definition selectorBlind (s : Selector) : bool :=
  compoundBlind (ancestorPart s) && compoundBlind (subjectPart s).

Definition setNodes (ns : list Element) (w : World) : World :=
  with_document (with_nodes ns (document w)) w.

(** What a pass makes of the document, given the page URL. *)
Definition highlightDocument (url : option string) (d : Document) : Document :=
  match url with
  | Some u =>
      if truthy (currentSiteOf u)
      then with_nodes (highlightAll (currentSiteOf u) (querySelectorAll d NAV_SELECTORS)
                                    (nodes d)) d
      else d
  | None => d
  end.

(** The state a pass leaves. *)
Definition afterPass (w : World) : World :=
  let w1 := with_passes (S (passes w)) w in
  match absoluteUrl (context w) with
  | Some u =>
      if truthy (currentSiteOf u)
      then setNodes (highlightAll (currentSiteOf u)
                                  (querySelectorAll (document w) NAV_SELECTORS)
                                  (nodes (document w))) w1
      else w1
  | None =>
      with_log (log w ++ [{| level := Error; message := "Failed to apply highlighting";
                             cause := Some (TypeError
                               "Cannot read properties of undefined (reading 'replace')") |}])
               w1
  end.

Definition logged (l : LogLevel) (msg : string) (c : option JsError) (w : World) : World :=
  with_log (log w ++ [{| level := l; message := msg; cause := c |}]) w.

(** The URL [_loadConfig] requests. *)
Definition configUrlOf (c : Context) : string :=
  interpolate (absoluteUrl c) +:+ "/" +:+
  match configPath c with
  | Some p => if truthy p then p else "SiteAssets/hub-nav-config.json"
  | None => "SiteAssets/hub-nav-config.json"
  end.

Definition isNullish (v : JsValue) : bool :=
  match v with
  | JUndefined | JNull => true
  | _ => false
  end.

(** The field [name] of a parsed JSON document; [undefined] when the
    document is not an object or has no such field. *)
Definition jsonField (json : JsValue) (name : string) : JsValue :=
  match json with
  | JObject props => ownProperty props name
  | _ => JUndefined
  end.

(** The per-field merge as the specification words it: the field of the
    JSON when it is truthy, the built-in default otherwise. *)
Definition mergedField (json : JsValue) (name : string) (fallback : JsValue) : JsValue :=
  if toBoolean (jsonField json name) then jsonField json name else fallback.

Definition mergedConfig (defaults : INavConfig) (json : JsValue) : INavConfig :=
  {| currentSiteColor :=
       mergedField json "currentSiteColor" (currentSiteColor defaults);
     currentSiteFontWeight :=
       mergedField json "currentSiteFontWeight" (currentSiteFontWeight defaults);
     otherSiteColor :=
       mergedField json "otherSiteColor" (otherSiteColor defaults);
     otherSiteFontWeight :=
       mergedField json "otherSiteFontWeight" (otherSiteFontWeight defaults) |}.

(** The state [_loadConfig] leaves, by what the request settles to. *)
Definition afterLoad (defaults : INavConfig) (w : World) : World :=
  match spHttpClient_get (context w) (configUrlOf (context w)) with
  | HttpRejected e => logged Error "Failed to load config" (Some e) w
  | HttpResponse false _ => logged Warn "Config file not found, using defaults" None w
  | HttpResponse true (inl e) => logged Error "Failed to parse config JSON" (Some e) w
  | HttpResponse true (inr json) =>
      if isNullish json
      then logged Error "Failed to parse config JSON"
                  (Some (TypeError "Cannot read properties of null or undefined")) w
      else logged Info "Config loaded from Site Assets" None
                  (with_this (with_config (mergedConfig defaults json) (this w)) w)
  end.

(** The [style] element [_injectStyles] builds, with its parent. *)
Definition styleNode (c : INavConfig) (parent : option nat) : Element :=
  {| tagName := "style"; attributes := [("data-hub-nav-customizer", "true")];
     classList := []; styleRules := Some c; parentNode := parent |}.

(** The state [_injectStyles] leaves. *)
Definition afterInject (w : World) : World :=
  let ns := match _styleElement (this w) with
            | Some old => alter (withParent None) old (nodes (document w))
            | None => nodes (document w)
            end in
  let el := length ns in
  let w1 := with_this (with_styleElement (Some el) (this w)) w in
  match head (document w) with
  | Some hd => setNodes (ns ++ [styleNode (_config (this w)) (Some hd)]) w1
  | None =>
      logged Error "Failed to inject styles"
             (Some (TypeError "Cannot read properties of null (reading 'appendChild')"))
             (setNodes (ns ++ [styleNode (_config (this w)) None]) w1)
  end.

(** An element that carries the attribute of the injected style. *)
Definition isInjectedStyle (e : Element) : bool :=
  String.eqb (tagName e) "style"
  && match getAttribute e "data-hub-nav-customizer" with
     | Some v => String.eqb v "true"
     | None => false
     end.

Definition isChildOf (parent : option nat) (e : Element) : bool :=
  match parent, parentNode e with
  | Some p, Some q => Nat.eqb p q
  | _, _ => false
  end.

Definition isInjectedAt (d : Document) (i : nat) : bool :=
  match nodes d !! i with
  | Some e => isInjectedStyle e && isChildOf (head d) e
  | None => false
  end.

(** The injected style nodes that exist in the document: the children of
    [document.head] that carry the attribute. *)
Definition injectedStyles (d : Document) : list nat :=
  filter (fun i => isInjectedAt d i) (seq 0 (length (nodes d))).

(** The state the observer callback leaves. *)
Definition afterMutation (w : World) : World :=
  if handleTruthy (_throttleTimer (this w)) then w
  else
    let h := S (timerCount w) in
    let w1 := with_timerCount h
                (with_timers (timers w ++ [{| handle := h; task := HighlightAfterMutation;
                                              delay := OBSERVER_THROTTLE_MS |}]) w) in
    with_this (with_throttleTimer (Some h) (this w1)) w1.

Definition clearThrottle (w : World) : World :=
  with_this (with_throttleTimer None (this w)) w.

(** The state [_observeDOM] leaves. *)
Definition afterObserve (w : World) : World :=
  match _observer (this w) with
  | Some _ => w
  | None =>
      let ob := length (observers w) in
      let held := with_this (with_observer (Some ob) (this w)) w in
      match body (document w) with
      | Some target =>
          with_observers
            (observers w ++ [{| observed := Some target; childList := true;
                                subtree := true |}]) held
      | None =>
          logged Error "Failed to setup DOM observer"
                 (Some (TypeError "parameter 1 is not of type 'Node'"))
                 (with_observers
                    (observers w ++ [{| observed := None; childList := false;
                                        subtree := false |}]) held)
      end
  end.

Definition isThrottleTimer (t : Timer) : bool :=
  match task t with
  | HighlightAfterMutation => true
  | HighlightAfterNavigation => false
  end.

(** The timer the observer callback schedules. *)
Definition throttleTimer (h : nat) : Timer :=
  {| handle := h; task := HighlightAfterMutation; delay := OBSERVER_THROTTLE_MS |}.

(** The invariant of the throttle: the pending timers have distinct,
    positive handles that were handed out, and the pending throttle timers
    are exactly the one [_throttleTimer] names, if it names one. *)
Definition throttleInvariant (w : World) : Prop :=
  (forall t, t ∈ timers w -> (1 <= handle t <= timerCount w)%nat) /\
  NoDup (handle <$> timers w) /\
  filter (fun t => isThrottleTimer t) (timers w)
  = match _throttleTimer (this w) with
    | Some h => [throttleTimer h]
    | None => []
    end.

(** The state the handler of the navigated event leaves. *)
Definition afterNavigated (w : World) : World :=
  let h := S (timerCount w) in
  with_timerCount h
    (with_timers (timers w ++ [{| handle := h; task := HighlightAfterNavigation;
                                  delay := 500 |}]) w).

Definition detached (o : Observer) : Observer :=
  {| observed := None; childList := childList o; subtree := subtree o |}.

(** The three blocks of [onDispose], as changes of the state. *)
Definition disposeObserver (w : World) : World :=
  match _observer (this w) with
  | Some ob =>
      with_this (with_observer None (this w))
                (with_observers (alter detached ob (observers w)) w)
  | None => w
  end.

Definition disposeStyle (w : World) : World :=
  match _styleElement (this w) with
  | Some el =>
      with_this (with_styleElement None (this w))
                (setNodes (alter (withParent None) el (nodes (document w))) w)
  | None => w
  end.

Definition disposeTimer (w : World) : World :=
  match _throttleTimer (this w) with
  | Some h =>
      if handleTruthy (Some h)
      then with_this (with_throttleTimer None (this w))
                     (with_timers (filter (fun t => negb (hasHandle h t)) (timers w)) w)
      else w
  | None => w
  end.

Definition afterDispose (w : World) : World :=
  disposeTimer (disposeStyle (disposeObserver w)).

(** ** The life of an instance

    The host starts the customizer, disposes of it and delivers events, in
    any order.  (That the framework drops the event handlers of a disposed
    component is not modelled; no property below depends on them.) *)
Inductive Action : Type :=
| Start
| Stop
| Host (ev : Event).

Definition perform (defaults : INavConfig) (a : Action) (w : World) : World :=
  match a with
  | Start => run (onInit defaults) w
  | Stop => run onDispose w
  | Host ev => dispatch ev w
  end.

Definition performAll (defaults : INavConfig) (l : list Action) (w : World) : World :=
  fold_left (fun (w' : World) (a : Action) => perform defaults a w') l w.

Definition attachedAt (w : World) (i : nat) : bool :=
  match observers w !! i with
  | Some o => isAttached o
  | None => false
  end.

(** The observers that are attached to a target. *)
Definition attachedObservers (w : World) : list nat :=
  filter (fun i => attachedAt w i) (seq 0 (length (observers w))).

Definition observerInvariant (w : World) : Prop :=
  forall i, i ∈ attachedObservers w -> _observer (this w) = Some i.

Definition styleInvariant (w : World) : Prop :=
  forall i, i ∈ injectedStyles (document w) -> _styleElement (this w) = Some i.

(** The resources of the instance are the ones its fields name: the
    pending throttle timer, the attached observer, the injected style. *)
Definition resourceInvariant (w : World) : Prop :=
  throttleInvariant w /\ observerInvariant w /\ styleInvariant w.

(** The first four steps of [onInit], in order. *)
Definition startupSteps (defaults : INavConfig) (w : World) : World :=
  run _applyHighlighting
    (run _injectStyles
       (run (_loadConfig defaults)
            (run (Log_info "Initialized") w))).

(** ** Further definitions of the proofs *)

(** A configuration none of whose four values is falsy. *)
Definition configComplete (c : INavConfig) : bool :=
  toBoolean (currentSiteColor c) && toBoolean (currentSiteFontWeight c)
  && toBoolean (otherSiteColor c) && toBoolean (otherSiteFontWeight c).

(** The host page gets a [body], or loses it. *)
Definition with_body (b : option nat) (w : World) : World :=
  with_document {| nodes := nodes (document w);
                   documentElement := documentElement (document w);
                   head := head (document w); body := b |} w.

(** The page context reports another URL: the page has navigated. *)
Definition with_absoluteUrl (u : option string) (w : World) : World :=
  {| this := this w;
     context := {| absoluteUrl := u; configPath := configPath (context w);
                   spHttpClient_get := spHttpClient_get (context w);
                   navigatedEvent_present := navigatedEvent_present (context w) |};
     document := document w; navigatedHandlers := navigatedHandlers w;
     observers := observers w; timers := timers w; timerCount := timerCount w;
     log := log w; passes := passes w; uncaught := uncaught w |}.

Definition isTimerFires (ev : Event) : bool :=
  match ev with
  | TimerFires _ => true
  | MutationBatch | Navigated => false
  end.


(** The timer the handler of the navigated event schedules. *)
Definition navigationTimer (h : nat) : Timer :=
  {| handle := h; task := HighlightAfterNavigation; delay := 500 |}.

(** The fields of a disposed instance: the three handles are [null]. *)
Definition released (r : Instance) : Instance :=
  {| _styleElement := None; _config := _config r; _observer := None;
     _throttleTimer := None |}.

(** ** A sample page

    Used to evaluate the model and to instantiate the theorems below. *)
Module Sample.

Definition element (tag : string) (attrs : list (string * string))
           (classes : list string) (parent : option nat) : Element :=
  {| tagName := tag; attributes := attrs; classList := classes;
     styleRules := None; parentNode := parent |}.

(** html > (head, body > div.ms-HubNav > four links). *)
Definition page : Document :=
  {| nodes :=
       [ element "html" [] [] None;
         element "head" [] [] (Some 0%nat);
         element "body" [] [] (Some 0%nat);
         element "div" [] ["ms-HubNav"] (Some 2%nat);
         element "a" [("href", "https://contoso.com/sites/int/home")]
                 ["link"; OTHER_SITE] (Some 3%nat);
         element "a" [("href", "https://contoso.com/sites/other/home")] [] (Some 3%nat);
         element "a" [("href", "https://contoso.com/teams")] [CURRENT_SITE] (Some 3%nat);
         element "a" [("href", "https://contoso.com/Sites/Other")] [] (Some 3%nat) ];
     documentElement := 0;
     head := Some 1%nat;
     body := Some 2%nat |}.

Definition defaults : INavConfig :=
  {| currentSiteColor := JString "#0078d4";
     currentSiteFontWeight := JString "600";
     otherSiteColor := JString "#333333";
     otherSiteFontWeight := JNumber (S754_finite false 400 0) |}.

Definition override : JsValue :=
  JObject [("currentSiteColor", JString "green"); ("otherSiteColor", JString "")].

Definition siteContext (url : string) (reply : HttpOutcome) (events : bool) : Context :=
  {| absoluteUrl := Some url; configPath := None;
     spHttpClient_get := fun _ => reply; navigatedEvent_present := events |}.

Definition start (c : Context) : World :=
  {| this := newInstance defaults; context := c; document := page;
     navigatedHandlers := 0; observers := []; timers := []; timerCount := 0;
     log := []; passes := 0; uncaught := [] |}.

Definition onSite : World :=
  start (siteContext "https://contoso.com/sites/INT/"
                     (HttpResponse true (inr override)) true).

Definition offSite : World :=
  start (siteContext "https://contoso.com/" (HttpResponse false (inl (SyntaxError ""))) true).


(** The state after startup: the observer is attached. *)
Definition watching : World := run (onInit defaults) onSite.

End Sample.

(** Pages that lack a part. *)
Module Faulty.

(** A document without [head]. *)
Definition headless : World :=
  with_document {| nodes := nodes Sample.page; documentElement := 0;
                   head := None; body := Some 2%nat |} Sample.onSite.

(** A document whose [body] does not exist yet. *)
Definition bodiless : World :=
  with_document {| nodes := nodes Sample.page; documentElement := 0;
                   head := Some 1%nat; body := None |} Sample.onSite.

End Faulty.

(** ** The mega-menu labels of the second copy

    [src/unnamed/part_000] adds [_watchMegaMenu], lines 200-265: an observer
    of its own, whose callback hands every added [ms-Callout] element to
    [processCallout].  The callback and [processCallout] are modelled here,
    over a store of elements that carry their inline style: the list of
    the properties assigned through [e.style], with the values assigned.
    A node list holds each node once, here in the order of the store; each
    callback changes the node it is called on and no other. *)
Module MegaMenu.

Definition LABEL_HIGHLIGHT : string := "spfx-label-highlight".
Definition MEGA_LABEL : string := "spfx-mega-label".

Record Styled : Type := {
  element : Element;
  inlineStyle : list (string * string)
}.

Definition elements (p : list Styled) : list Element := element <$> p.

(** [e.style.name = value] *)
Definition setStyle (name value : string) (s : Styled) : Styled :=
  {| element := element s; inlineStyle := storeAttribute (inlineStyle s) name value |}.

(** A change to the class list of a styled element. *)
Definition onElement (f : Element -> Element) (s : Styled) : Styled :=
  {| element := f (element s); inlineStyle := inlineStyle s |}.

(** The callback of [sections.forEach], lines 212-230. *)
Definition styleSection (section : Styled) : Styled :=
  if classList_contains MEGA_LABEL (element section)
  then setStyle "cursor" "default"
         (setStyle "pointerEvents" "none"
            (setStyle "fontWeight" "600"
               (setStyle "color" "#d13438"
                  (onElement (classList_add MEGA_LABEL) section))))
  else section.

(** [Array.from(item.classList).some(cls => cls.startsWith('itemLinkMenuHeading'))] *)
Definition isLabel (item : Element) : bool :=
  existsb (startsWith "itemLinkMenuHeading") (classList item).

(** The callback of [items.forEach], lines 233-245. *)
Definition highlightLabel (item : Element) : Element :=
  if negb (isLabel item) then item
  else if classList_contains LABEL_HIGHLIGHT item then item
  else classList_add LABEL_HIGHLIGHT item.

Definition hasClass (t : string) (ns : list Element) (i : nat) : bool :=
  match ns !! i with
  | Some e => classList_contains t e
  | None => false
  end.

(** [i] is a descendant of [root]. *)
Definition within (ns : list Element) (root i : nat) : bool :=
  existsb (Nat.eqb root) (ancestors ns i).

(** [i] has an ancestor of class [ms-MegaMenu-gridLayout]. *)
Definition inGrid (ns : list Element) (i : nat) : bool :=
  existsb (hasClass "ms-MegaMenu-gridLayout" ns) (ancestors ns i).

(** [.ms-Menu-section[aria-label]] *)
Definition isSection (e : Element) : bool :=
  classList_contains "ms-Menu-section" e
  && match getAttribute e "aria-label" with
     | Some _ => true
     | None => false
     end.

Definition isSectionAt (ns : list Element) (i : nat) : bool :=
  match ns !! i with
  | Some e => isSection e
  | None => false
  end.

(** [callout.querySelectorAll('.ms-MegaMenu-gridLayout a')] *)
Definition gridItems (ns : list Element) (callout : nat) : list nat :=
  filter (fun i => within ns callout i && matchesAt ns anchor i && inGrid ns i)
         (seq 0 (length ns)).

(** [callout.querySelectorAll('.ms-MegaMenu-gridLayout .ms-Menu-section[aria-label]')] *)
Definition gridSections (ns : list Element) (callout : nat) : list nat :=
  filter (fun i => within ns callout i && isSectionAt ns i && inGrid ns i)
         (seq 0 (length ns)).

(** [list.forEach(node => f(node))], as a change to the store. *)
Definition alterAll {A : Type} (f : A -> A) (l : list nat) (xs : list A) : list A :=
  fold_left (fun (acc : list A) (i : nat) => alter f i acc) l xs.

(** [processCallout(callout)], lines 202-246: both lists are taken before
    either loop runs. *)
Definition processCallout (callout : nat) (p : list Styled) : list Styled :=
  let items := gridItems (elements p) callout in
  let sections := gridSections (elements p) callout in
  alterAll (onElement highlightLabel) items (alterAll styleSection sections p).

(** An added node: an element of the page, or a text or comment node. *)
Inductive Node : Type :=
| ElementNode (i : nat)
| OtherNode.

(** The body of [addedNodes.forEach], lines 250-257. *)
Definition onAdded (p : list Styled) (node : Node) : list Styled :=
  match node with
  | ElementNode i =>
      if hasClass "ms-Callout" (elements p) i then processCallout i p else p
  | OtherNode => p
  end.

(** The callback of the observer, lines 248-259, over the [addedNodes] of
    each mutation record. *)
Definition onMutations (mutations : list (list Node)) (p : list Styled) : list Styled :=
  fold_left (fun (acc : list Styled) (addedNodes : list Node) =>
               fold_left onAdded addedNodes acc)
            mutations p.

(** Auxiliary definitions of the proofs about the watcher. *)

(** The inline style [styleSection] leaves on a labelled section. *)
Definition labelStyle (ds : list (string * string)) : list (string * string) :=
  storeAttribute
    (storeAttribute
       (storeAttribute (storeAttribute ds "color" "#d13438") "fontWeight" "600")
       "pointerEvents" "none")
    "cursor" "default".

(** What [processCallout] does to node [i] of the page [p]. *)
Definition calloutChange (callout : nat) (p : list Styled) (i : nat) (s : Styled) : Styled :=
  (if bool_decide (i ∈ gridItems (elements p) callout)
   then onElement highlightLabel else id)
    ((if bool_decide (i ∈ gridSections (elements p) callout)
      then styleSection else id) s).

(** Two stores that differ by label highlights only. *)
Definition labelledOnly (ns ns' : list Element) : Prop :=
  length ns' = length ns /\
  forall j, ns' !! j = ns !! j \/
            exists e, ns !! j = Some e /\ ns' !! j = Some (highlightLabel e).

(** What the watcher leaves of an element: everything but the label
    highlight, and the inline style of an element without [MEGA_LABEL]. *)
Definition kept (s s' : Styled) : Prop :=
  tagName (element s') = tagName (element s) /\
  attributes (element s') = attributes (element s) /\
  parentNode (element s') = parentNode (element s) /\
  (forall t, t <> LABEL_HIGHLIGHT ->
             classList_contains t (element s') = classList_contains t (element s)) /\
  (classList_contains MEGA_LABEL (element s) = false -> inlineStyle s' = inlineStyle s).

(** A sample callout. *)
Definition plain (tag : string) (attrs : list (string * string))
           (classes : list string) (parent : option nat) : Styled :=
  {| element := Sample.element tag attrs classes parent; inlineStyle := [] |}.

(** A callout with a grid of two sections, one of them labelled, and two
    links, and with a link outside the grid. *)
Definition menu : list Styled :=
  [ plain "body" [] [] None;
    plain "div" [] ["ms-Callout"] (Some 0%nat);
    plain "div" [] ["ms-MegaMenu-gridLayout"] (Some 1%nat);
    plain "div" [("aria-label", "Teams")] ["ms-Menu-section"] (Some 2%nat);
    plain "a" [] ["itemLinkMenuHeading-71"] (Some 3%nat);
    plain "a" [] ["itemLink-80"] (Some 3%nat);
    plain "a" [] ["itemLinkMenuHeading-71"] (Some 1%nat);
    plain "div" [("aria-label", "Sites")] ["ms-Menu-section"; MEGA_LABEL] (Some 2%nat) ].

End MegaMenu.

(* ================================================================== *)
(** * Properties *)

(** ** Strings *)
Section StringFacts.

Lemma startsWith_spec (p s : string) :
  startsWith p s = true <-> exists r, s = p +:+ r.
Proof.
  revert s; induction p as [|a p IH]; intros s; simpl.
  - split; [intros _; now exists s | reflexivity].
  - destruct s as [|b s].
    + split; [discriminate | intros [r Hr]; discriminate].
    + destruct (Ascii.eqb_spec a b) as [->|Hab].
      * rewrite IH. split; intros [r Hr]; exists r; congruence.
      * split; [discriminate | intros [r Hr]; congruence].
Qed.

Lemma startsWith_occursAt (p s : string) :
  startsWith p s = true <-> occursAt p s 0.
Proof.
  rewrite startsWith_spec. split.
  - intros [r ->]. now exists "", r.
  - intros (pre & post & -> & Hlen). destruct pre; [|discriminate]. now exists post.
Qed.

Lemma occursAt_cons (p : string) (c : ascii) (s : string) (i : nat) :
  occursAt p (String c s) (S i) <-> occursAt p s i.
Proof.
  split.
  - intros (pre & post & Heq & Hlen). destruct pre as [|c' pre]; [discriminate|].
    simpl in Heq, Hlen. exists pre, post. split; congruence.
  - intros (pre & post & -> & Hlen). exists (String c pre), post. simpl. split; congruence.
Qed.

Lemma occurs_cons (p : string) (c : ascii) (s : string) :
  occurs p (String c s) <-> startsWith p (String c s) = true \/ occurs p s.
Proof.
  split.
  - intros [[|i] Hi]; [left; now apply startsWith_occursAt|].
    right. exists i. now apply occursAt_cons in Hi.
  - intros [H|[i Hi]]; [exists 0%nat; now apply startsWith_occursAt|].
    exists (S i). now apply occursAt_cons.
Qed.

(** [indexOf] finds an occurrence exactly when there is one. *)
Lemma indexOf_nonneg_iff (p s : string) : (-1 <? indexOf p s) = true <-> occurs p s.
Proof.
  induction s as [|c s IH].
  - simpl. destruct (startsWith p "") eqn:E.
    + split; [intros _; exists 0%nat; now apply startsWith_occursAt | reflexivity].
    + split; [discriminate|]. intros [i (pre & post & Heq & Hlen)].
      destruct pre; [|discriminate]. simpl in Heq.
      assert (startsWith p "" = true) by (apply startsWith_spec; now exists post).
      congruence.
  - rewrite occurs_cons. cbn [indexOf]. destruct (startsWith p (String c s)) eqn:E.
    + split; [now left | reflexivity].
    + destruct (indexOf p s <? 0) eqn:Eneg.
      * split; [discriminate|]. intros [?|Hocc]; [discriminate|].
        apply IH in Hocc. lia.
      * split; [intros _; right; apply IH; lia | lia].
Qed.

(** [indexOf] returns the least index at which the pattern occurs. *)
Lemma indexOf_first (p s : string) (n : nat) :
  indexOf p s = Z.of_nat n ->
  occursAt p s n /\ forall i, occursAt p s i -> (n <= i)%nat.
Proof.
  revert n. induction s as [|c s IH]; intros n; cbn [indexOf].
  - destruct (startsWith p "") eqn:E; [|lia].
    intros Hn. assert (n = 0%nat) as -> by lia.
    split; [now apply startsWith_occursAt | lia].
  - destruct (startsWith p (String c s)) eqn:E.
    + intros Hn. assert (n = 0%nat) as -> by lia.
      split; [now apply startsWith_occursAt | lia].
    + destruct (indexOf p s <? 0) eqn:Eneg; [lia|].
      intros Hn. destruct n as [|n]; [lia|].
      destruct (IH n) as [Hocc Hmin]; [lia|].
      split; [now apply occursAt_cons|].
      intros [|i] Hi.
      * apply startsWith_occursAt in Hi. congruence.
      * apply occursAt_cons, Hmin in Hi. lia.
Qed.

Lemma split_from_skip (sep x post : string) :
  split_from sep (String.length x) (x +:+ post) = split_from sep O post.
Proof. induction x as [|c x IH]; simpl; [reflexivity | exact IH]. Qed.

(** Without an occurrence of the separator there is one piece. *)
Lemma split_from_absent (sep s : string) :
  ~ occurs sep s -> split_from sep O s = [s].
Proof.
  induction s as [|c s IH]; intros Hno; [reflexivity|].
  cbn [split_from]. rewrite occurs_cons in Hno.
  destruct (startsWith sep (String c s)); [tauto|].
  rewrite IH by tauto. reflexivity.
Qed.

(** The first piece ends where the separator first occurs. *)
Lemma split_from_first (sep pre post : string) :
  sep <> "" ->
  (forall i, occursAt sep (pre +:+ sep +:+ post) i -> (String.length pre <= i)%nat) ->
  split_from sep O (pre +:+ sep +:+ post) = pre :: split_from sep O post.
Proof.
  intros Hsep. induction pre as [|c pre IH]; intros Hmin.
  - destruct sep as [|a sep]; [congruence|]. simpl.
    rewrite Ascii.eqb_refl.
    assert (startsWith sep (sep +:+ post) = true) as ->
        by (apply startsWith_spec; now exists post).
    now rewrite split_from_skip.
  - change (String c pre +:+ sep +:+ post) with (String c (pre +:+ sep +:+ post)) in *.
    cbn [split_from].
    destruct (startsWith sep (String c (pre +:+ sep +:+ post))) eqn:E.
    + apply startsWith_occursAt, Hmin in E. simpl in E. lia.
    + rewrite IH; [reflexivity|].
      intros i Hi. apply (occursAt_cons sep c) in Hi. apply Hmin in Hi. simpl in Hi. lia.
Qed.

(** The first piece of any split: all of [s], or what precedes a separator. *)
Lemma split_from_head (sep s : string) :
  exists m rest, split_from sep O s = m :: rest /\
                 (s = m \/ exists r, s = m +:+ sep +:+ r).
Proof.
  induction s as [|c s (m & rest & Heq & Hm)].
  - exists "", []. split; [reflexivity | now left].
  - cbn [split_from]. destruct (startsWith sep (String c s)) eqn:E.
    + apply startsWith_spec in E as [r Hr].
      exists "", (split_from sep (Nat.pred (String.length sep)) s).
      split; [reflexivity | right; now exists r].
    + rewrite Heq. exists (String c m), rest. split; [reflexivity|].
      destruct Hm as [->|[r ->]]; [now left | right; now exists r].
Qed.

Lemma split_slash_head (m : string) : split "/" m !! 0%nat = Some (untilSlash m).
Proof.
  unfold split. induction m as [|c m IH]; [reflexivity|].
  cbn [split_from startsWith untilSlash]. unfold slash.
  rewrite (Ascii.eqb_sym c). destruct (Ascii.eqb "/" c); [reflexivity|].
  destruct (split_from "/" 0 m) as [|piece rest]; [discriminate|].
  simpl in *. congruence.
Qed.

Lemma untilSlash_append_slash (m r : string) :
  untilSlash (m +:+ String slash r) = untilSlash m.
Proof.
  induction m as [|c m IH]; simpl.
  - now rewrite ?Ascii.eqb_refl.
  - destruct (Ascii.eqb c slash); [reflexivity | now rewrite IH].
Qed.

End StringFacts.

(** ** Site-name extraction *)

Example extract_doc_example :
  _extractSiteName "/sites/mysite/pages" = "mysite".
Proof. reflexivity. Qed.

Lemma extractSiteName_absent (u : string) :
  ~ occurs "/sites/" u -> _extractSiteName u = "".
Proof.
  intros Hno. unfold _extractSiteName, split.
  now rewrite split_from_absent.
Qed.

Lemma extractSiteName_first (pre post : string) :
  (forall i, occursAt "/sites/" (pre +:+ "/sites/" +:+ post) i -> (String.length pre <= i)%nat) ->
  _extractSiteName (pre +:+ "/sites/" +:+ post) = untilSlash post.
Proof.
  intros Hmin. unfold _extractSiteName. unfold split at 1.
  rewrite split_from_first by (assumption || discriminate).
  destruct (split_from_head "/sites/" post) as (m & rest & -> & Hm).
  cbn [lookup list_lookup]. rewrite split_slash_head.
  destruct Hm as [->|[r ->]].
  - destruct m; reflexivity.
  - change ("/sites/" +:+ r) with (String slash ("sites/" +:+ r)).
    rewrite untilSlash_append_slash. destruct m; reflexivity.
Qed.

(** C1, as amended: [_extractSiteName] looks for the literal [/sites/] as it
    is written (it is its callers that lower-case the URL).  Without an
    occurrence it returns the empty string; otherwise the URL splits at a
    first occurrence, and the result is what follows it up to, and not
    including, the next slash, whatever path follows.  The two examples of
    the specification hold. *)
Theorem extractSiteName_first_segment :
  (forall u : string, ~ occurs "/sites/" u -> _extractSiteName u = "") /\
  (forall pre post : string,
      (forall i, occursAt "/sites/" (pre +:+ "/sites/" +:+ post) i ->
                 (String.length pre <= i)%nat) ->
      _extractSiteName (pre +:+ "/sites/" +:+ post) = untilSlash post) /\
  (forall u : string,
      occurs "/sites/" u ->
      exists pre post : string,
        u = pre +:+ "/sites/" +:+ post /\
        (forall i, occursAt "/sites/" u i -> (String.length pre <= i)%nat) /\
        _extractSiteName u = untilSlash post) /\
  _extractSiteName "https://contoso.com/sites/int-team/pages/x.aspx" = "int-team" /\
  _extractSiteName "https://contoso.com/teamsite" = "".
Proof.
  split; [exact extractSiteName_absent|].
  split; [exact extractSiteName_first|].
  split; [|split; reflexivity].
  intros u Hocc. apply indexOf_nonneg_iff in Hocc.
  destruct (indexOf_first "/sites/" u (Z.to_nat (indexOf "/sites/" u)))
    as [(pre & post & -> & Hlen) Hmin]; [lia|].
  exists pre, post. rewrite Hlen. split; [reflexivity|]. split; [exact Hmin|].
  apply extractSiteName_first. now rewrite Hlen.
Qed.

Lemma extractSiteName_first_segment_witness :
  _extractSiteName "https://contoso.com/about" = "" /\
  _extractSiteName ("https://contoso.com" +:+ "/sites/" +:+ "hr/sites/x?web=1")
  = untilSlash "hr/sites/x?web=1".
Proof.
  destruct extractSiteName_first_segment as (Habsent & Hfirst & _ & _).
  split.
  - apply Habsent. intros Hocc. apply indexOf_nonneg_iff in Hocc.
    vm_compute in Hocc. discriminate.
  - apply Hfirst.
    apply (indexOf_first "/sites/"
             ("https://contoso.com" +:+ "/sites/" +:+ "hr/sites/x?web=1") 19).
    reflexivity.
Defined.

(** C1, as stated, fails: with the marker in upper case the extractor
    returns the empty string, not the segment that follows the marker. *)
Lemma extractSiteName_is_case_sensitive :
  _extractSiteName "https://contoso.com/Sites/int-team/pages/x.aspx" = "" /\
  siteNameIgnoringCase "https://contoso.com/Sites/int-team/pages/x.aspx" = "int-team" /\
  ~ (forall u : string, _extractSiteName u = siteNameIgnoringCase u).
Proof.
  split; [reflexivity|]. split; [reflexivity|].
  intros H. specialize (H "https://contoso.com/Sites/int-team/pages/x.aspx").
  vm_compute in H. discriminate.
Qed.

(** The callers lower-case the URL first, which makes the marker match in
    any case. *)
Example extractSiteName_after_toLowerCase :
  _extractSiteName (toLowerCase "https://contoso.com/Sites/Int-Team/pages/x.aspx")
  = "int-team".
Proof. reflexivity. Qed.

(** A query string that follows the site segment without a slash is part
    of what the extractor returns. *)
Example extractSiteName_keeps_query :
  _extractSiteName "https://contoso.com/sites/int?web=1" = "int?web=1".
Proof. reflexivity. Qed.

(** ** One link *)
Section LinkFacts.

Lemma isToken_app (l1 l2 : list string) (t : string) :
  isToken (l1 ++ l2) t = isToken l1 t || isToken l2 t.
Proof. unfold isToken. apply existsb_app. Qed.

Lemma isToken_filter (keep : string -> bool) (l : list string) (t : string) :
  isToken (filter keep l) t = isToken l t && keep t.
Proof.
  unfold isToken. induction l as [|x l IH]; [reflexivity|].
  rewrite filter_cons. destruct (keep x) eqn:E; simpl; rewrite IH;
    destruct (String.eqb_spec t x) as [->|_]; simpl; rewrite ?E;
    auto using andb_false_r, andb_true_r.
Qed.

Lemma filter_unmarked_idem (l : list string) :
  filter (fun t => negb (isMarker t)) (filter (fun t => negb (isMarker t)) l)
  = filter (fun t => negb (isMarker t)) l.
Proof.
  induction l as [|x l IH]; [reflexivity|].
  rewrite filter_cons. destruct (decide (negb (isMarker x))) as [Hk|Hk]; [|exact IH].
  rewrite filter_cons. destruct (decide (negb (isMarker x))); [|contradiction].
  now rewrite IH.
Qed.

Lemma filter_unmarked_marker (s : string) (e : Element) :
  filter (fun t => negb (isMarker t)) (markerFor s e) = [].
Proof.
  unfold markerFor.
  destruct (truthy (linkSiteName e) && String.eqb (linkSiteName e) s);
    [|destruct (includes "/sites/" (hrefOf e))]; reflexivity.
Qed.

(** What a pass does to a link: the markers go, the one that applies is
    appended, and nothing else changes. *)
Lemma highlightLink_spec (s : string) (e : Element) :
  highlightLink s e
  = withClassList (filter (fun t => negb (isMarker t)) (classList e) ++ markerFor s e) e.
Proof.
  unfold highlightLink, markerFor, linkSiteName, hrefOf, includes.
  set (href := match getAttribute e "href" with
               | Some h => if truthy h then h else ""
               | None => ""
               end).
  set (cl := filter (fun t => negb (isMarker t)) (classList e)).
  assert (Hrem : classList_remove [CURRENT_SITE; OTHER_SITE] e = withClassList cl e)
    by reflexivity.
  rewrite Hrem.
  assert (Hadd : forall m, isMarker m = true ->
                  classList_add m (withClassList cl e) = withClassList (cl ++ [m]) e).
  { intros m Hm. unfold classList_add, classList_contains. cbn [classList withClassList].
    unfold cl. rewrite isToken_filter, Hm, andb_false_r. reflexivity. }
  destruct (truthy (_extractSiteName (toLowerCase href))
            && String.eqb (_extractSiteName (toLowerCase href)) s).
  - now apply Hadd.
  - destruct (-1 <? indexOf "/sites/" href).
    + now apply Hadd.
    + now rewrite app_nil_r.
Qed.

Lemma highlightLink_idem (s : string) (e : Element) :
  highlightLink s (highlightLink s e) = highlightLink s e.
Proof.
  rewrite !highlightLink_spec.
  set (cl := filter (fun t => negb (isMarker t)) (classList e)).
  assert (Hm : markerFor s (withClassList (cl ++ markerFor s e) e) = markerFor s e)
    by reflexivity.
  rewrite Hm. unfold withClassList at 1 2.
  cbn [classList tagName attributes styleRules parentNode withClassList].
  unfold withClassList. f_equal.
  rewrite filter_app. unfold cl.
  now rewrite filter_unmarked_idem, filter_unmarked_marker, app_nil_r.
Qed.

End LinkFacts.

(** ** The pass *)
Section PassFacts.

Lemma setNodes_same (w : World) : setNodes (nodes (document w)) w = w.
Proof. destruct w as [? ? [] ? ? ? ? ? ? ?]. reflexivity. Qed.

(** The loop of a pass never leaves through a [catch]. *)
Lemma forEach_highlight (s : string) (handler : JsError -> Js unit)
      (links : list nat) (w : World) :
  forEach links (fun link => tryCatch (modifyElement link (highlightLink s)) handler) w
  = Normal tt (setNodes (highlightAll s links (nodes (document w))) w).
Proof.
  revert w. induction links as [|i links IH]; intros w.
  - cbn. now rewrite setNodes_same.
  - cbn [forEach]. unfold mbind, Js_bind. cbn [tryCatch modifyElement modifyNodes modify].
    unfold tryCatch at 1. cbn. rewrite IH. reflexivity.
Qed.

Lemma applyHighlighting_run (w : World) :
  _applyHighlighting w = Normal tt (afterPass w).
Proof.
  unfold _applyHighlighting, afterPass, currentSiteOf.
  unfold mbind, Js_bind, modify, gets. cbn beta iota.
  unfold tryCatch at 1.
  change (context (with_passes (S (passes w)) w)) with (context w).
  destruct (absoluteUrl (context w)) as [u|]; [|reflexivity].
  destruct (truthy (_extractSiteName (toLowerCase (stripTrailingSlash u)))); cbn [negb];
    [|reflexivity].
  now rewrite forEach_highlight.
Qed.

Lemma afterPass_document (w : World) :
  document (afterPass w) = highlightDocument (absoluteUrl (context w)) (document w).
Proof.
  unfold afterPass, highlightDocument.
  destruct (absoluteUrl (context w)) as [u|]; [|reflexivity].
  destruct (truthy (currentSiteOf u)); reflexivity.
Qed.

Lemma afterPass_context (w : World) : context (afterPass w) = context w.
Proof.
  unfold afterPass. destruct (absoluteUrl (context w)) as [u|]; [|reflexivity].
  destruct (truthy (currentSiteOf u)); reflexivity.
Qed.

(** A link is rewritten once, however often it is listed. *)
Lemma highlightAll_lookup (s : string) (links : list nat) (ns : list Element) (i : nat) :
  highlightAll s links ns !! i
  = (if bool_decide (i ∈ links) then highlightLink s else id) <$> ns !! i.
Proof.
  revert ns. induction links as [|j links IH]; intros ns.
  - cbn. now destruct (ns !! i).
  - change (highlightAll s (j :: links) ns)
      with (highlightAll s links (alter (highlightLink s) j ns)).
    rewrite IH. destruct (decide (i = j)) as [->|Hne].
    + rewrite list_lookup_alter_eq.
      rewrite (bool_decide_eq_true_2 (j ∈ j :: links)) by apply list_elem_of_here.
      destruct (ns !! j) as [e|]; [|reflexivity]. cbn.
      case_bool_decide; [now rewrite highlightLink_idem | reflexivity].
    + rewrite list_lookup_alter_ne by congruence.
      destruct (ns !! i) as [e|]; [|reflexivity]. cbn.
      f_equal. destruct (decide (i ∈ links)) as [Hin|Hout].
      * rewrite (bool_decide_eq_true_2 (i ∈ links)) by exact Hin.
        rewrite (bool_decide_eq_true_2 (i ∈ j :: links)); [reflexivity|].
        now apply list_elem_of_further.
      * rewrite (bool_decide_eq_false_2 (i ∈ links)) by exact Hout.
        rewrite (bool_decide_eq_false_2 (i ∈ j :: links)); [reflexivity|].
        intros [?|?]%elem_of_cons; [congruence | contradiction].
Qed.

Lemma highlightAll_length (s : string) (links : list nat) (ns : list Element) :
  length (highlightAll s links ns) = length ns.
Proof.
  revert ns. induction links as [|j links IH]; intros ns; [reflexivity|].
  change (highlightAll s (j :: links) ns)
    with (highlightAll s links (alter (highlightLink s) j ns)).
  now rewrite IH, length_alter.
Qed.

End PassFacts.

(** ** The selection of links does not depend on the markers *)
Section SelectionFacts.

Lemma filter_bool_ext {A : Type} (p q : A -> bool) (l : list A) :
  (forall x, p x = q x) -> filter (fun x => p x) l = filter (fun x => q x) l.
Proof.
  intros Hpq. induction l as [|x l IH]; [reflexivity|].
  rewrite !filter_cons, IH, (Hpq x). reflexivity.
Qed.

Lemma isMarker_inv (t : string) :
  isMarker t = true -> t = CURRENT_SITE \/ t = OTHER_SITE.
Proof.
  unfold isMarker, isToken. cbn [existsb].
  destruct (String.eqb_spec t CURRENT_SITE); [now left|].
  destruct (String.eqb_spec t OTHER_SITE); [now right | discriminate].
Qed.

Lemma existsb_unmarked (p : string -> bool) (cl : list string) :
  p CURRENT_SITE = false -> p OTHER_SITE = false ->
  existsb p (filter (fun t => negb (isMarker t)) cl) = existsb p cl.
Proof.
  intros Hc Ho. induction cl as [|x cl IH]; [reflexivity|].
  destruct (isMarker x) eqn:E.
  - rewrite filter_cons_False by (rewrite E; exact id).
    cbn [existsb]. rewrite IH.
    destruct (isMarker_inv x E) as [->| ->]; [now rewrite Hc | now rewrite Ho].
  - rewrite filter_cons_True by (rewrite E; exact I).
    cbn [existsb]. now rewrite IH.
Qed.

Lemma testAttribute_highlightLink (s : string) (e : Element) (t : AttrTest) :
  markerBlind t = true -> testAttribute (highlightLink s e) t = testAttribute e t.
Proof.
  rewrite highlightLink_spec. destruct t as [name value|name value]; [reflexivity|].
  cbn [markerBlind testAttribute]. destruct (String.eqb name "class"); [|reflexivity].
  intros [Hc Ho]%andb_prop. apply negb_true_iff in Hc, Ho.
  cbn [classList withClassList]. rewrite existsb_app, existsb_unmarked by assumption.
  unfold markerFor.
  destruct (truthy (linkSiteName e) && String.eqb (linkSiteName e) s);
    [|destruct (includes "/sites/" (hrefOf e))]; cbn [existsb];
    rewrite ?Hc, ?Ho, ?orb_false_r; reflexivity.
Qed.

Lemma matchesCompound_highlightLink (s : string) (c : Compound) (e : Element) :
  compoundBlind c = true -> matchesCompound c (highlightLink s e) = matchesCompound c e.
Proof.
  unfold compoundBlind, matchesCompound. intros Hb. f_equal.
  - rewrite highlightLink_spec. reflexivity.
  - induction (attrTests c) as [|t ts IH]; [reflexivity|].
    cbn [forallb] in *. apply andb_prop in Hb as [Ht Hts].
    now rewrite testAttribute_highlightLink, IH.
Qed.

Variables (s : string) (links : list nat) (ns : list Element).

Lemma highlightAll_parent (i : nat) :
  highlightAll s links ns !! i ≫= parentNode = ns !! i ≫= parentNode.
Proof.
  rewrite highlightAll_lookup. destruct (ns !! i) as [e|]; [|reflexivity]. cbn.
  case_bool_decide; [|reflexivity]. now rewrite highlightLink_spec.
Qed.

Lemma highlightAll_ancestorsFrom (fuel i : nat) :
  ancestorsFrom (highlightAll s links ns) fuel i = ancestorsFrom ns fuel i.
Proof.
  revert i. induction fuel as [|fuel IH]; intros i; [reflexivity|].
  cbn [ancestorsFrom]. rewrite highlightAll_parent.
  destruct (ns !! i ≫= parentNode); [now rewrite IH | reflexivity].
Qed.

Lemma highlightAll_ancestors (i : nat) :
  ancestors (highlightAll s links ns) i = ancestors ns i.
Proof.
  unfold ancestors. now rewrite highlightAll_length, highlightAll_ancestorsFrom.
Qed.

Lemma highlightAll_matchesAt (c : Compound) (i : nat) :
  compoundBlind c = true -> matchesAt (highlightAll s links ns) c i = matchesAt ns c i.
Proof.
  intros Hb. unfold matchesAt. rewrite highlightAll_lookup.
  destruct (ns !! i) as [e|]; [|reflexivity]. cbn.
  case_bool_decide; [now apply matchesCompound_highlightLink | reflexivity].
Qed.

Lemma highlightAll_matchesSelector (sel : Selector) (i : nat) :
  selectorBlind sel = true ->
  matchesSelector (highlightAll s links ns) i sel = matchesSelector ns i sel.
Proof.
  unfold selectorBlind, matchesSelector. intros [Ha Hs]%andb_prop.
  rewrite highlightAll_matchesAt, highlightAll_ancestors by assumption. f_equal.
  induction (ancestors ns i) as [|j js IH]; [reflexivity|].
  cbn [existsb]. now rewrite highlightAll_matchesAt, IH.
Qed.

(** A pass selects the same links after a pass as before it. *)
Lemma highlightAll_querySelectorAll (d : Document) (sels : list Selector) :
  nodes d = ns ->
  forallb selectorBlind sels = true ->
  querySelectorAll (with_nodes (highlightAll s links ns) d) sels
  = querySelectorAll d sels.
Proof.
  intros Hd Hb. unfold querySelectorAll, isConnected.
  cbn [nodes documentElement with_nodes]. rewrite highlightAll_length, Hd.
  apply filter_bool_ext. intros i. rewrite highlightAll_ancestors. f_equal.
  induction sels as [|sel sels IH]; [reflexivity|].
  cbn [forallb existsb] in *. apply andb_prop in Hb as [Hsel Hsels].
  now rewrite highlightAll_matchesSelector, IH.
Qed.

End SelectionFacts.

Lemma NAV_SELECTORS_blind : forallb selectorBlind NAV_SELECTORS = true.
Proof. vm_compute. reflexivity. Qed.

(** ** Highlighting *)

Lemma highlightAll_idem (s : string) (links : list nat) (ns : list Element) :
  highlightAll s links (highlightAll s links ns) = highlightAll s links ns.
Proof.
  apply list_eq. intros i. rewrite !highlightAll_lookup.
  destruct (ns !! i) as [e|]; [|reflexivity]. cbn.
  case_bool_decide; [now rewrite highlightLink_idem | reflexivity].
Qed.

Lemma highlightDocument_idem (url : option string) (d : Document) :
  highlightDocument url (highlightDocument url d) = highlightDocument url d.
Proof.
  unfold highlightDocument. destruct url as [u|]; [|reflexivity].
  destruct (truthy (currentSiteOf u)) eqn:E; rewrite ?E; [|reflexivity].
  rewrite highlightAll_querySelectorAll by (reflexivity || apply NAV_SELECTORS_blind).
  cbn [nodes with_nodes]. rewrite highlightAll_idem. reflexivity.
Qed.

Lemma truthy_nonempty (s : string) : truthy s = true <-> s <> "".
Proof. destruct s; cbn; split; congruence. Qed.

(** C2: after a pass for a non-empty current site, a candidate link carries
    the current-site marker exactly when the site extracted from its
    (lower-cased) [href] is non-empty and equal to the current site;
    failing that, it carries the other-site marker exactly when its [href]
    contains [/sites/]; it never carries both. *)
Theorem pass_classifies_link (w : World) (u : string) (i : nat) (link : Element) :
  absoluteUrl (context w) = Some u ->
  currentSiteOf u <> "" ->
  i ∈ querySelectorAll (document w) NAV_SELECTORS ->
  nodes (document w) !! i = Some link ->
  let site := _extractSiteName (toLowerCase (hrefOf link)) in
  exists link',
    nodes (document (run _applyHighlighting w)) !! i = Some link' /\
    (classList_contains CURRENT_SITE link' = true <->
       site <> "" /\ site = currentSiteOf u) /\
    (classList_contains OTHER_SITE link' = true <->
       ~ (site <> "" /\ site = currentSiteOf u) /\ occurs "/sites/" (hrefOf link)) /\
    ~ (classList_contains CURRENT_SITE link' = true /\
       classList_contains OTHER_SITE link' = true).
Proof.
  intros Hu Hs Hi Hlink site. exists (highlightLink (currentSiteOf u) link).
  assert (Hlook : nodes (document (run _applyHighlighting w)) !! i
                  = Some (highlightLink (currentSiteOf u) link)).
  { unfold run. rewrite applyHighlighting_run. cbn [final].
    rewrite afterPass_document, Hu. unfold highlightDocument.
    apply truthy_nonempty in Hs. rewrite Hs. cbn [nodes with_nodes].
    rewrite highlightAll_lookup, Hlink, bool_decide_eq_true_2 by assumption.
    reflexivity. }
  split; [exact Hlook|].
  rewrite highlightLink_spec. unfold classList_contains.
  cbn [classList withClassList]. rewrite !isToken_app, !isToken_filter.
  change (isMarker CURRENT_SITE) with true. change (isMarker OTHER_SITE) with true.
  cbn [negb]. rewrite !andb_false_r. cbn [orb].
  unfold markerFor. fold site. change (linkSiteName link) with site.
  pose proof (truthy_nonempty site) as Ht.
  pose proof (String.eqb_eq site (currentSiteOf u)) as He.
  pose proof (indexOf_nonneg_iff "/sites/" (hrefOf link)) as Ho.
  fold (includes "/sites/" (hrefOf link)) in Ho.
  destruct (truthy site); destruct (String.eqb site (currentSiteOf u));
    destruct (includes "/sites/" (hrefOf link)); cbn;
    repeat split; try (intros; discriminate); try tauto;
    intuition (try discriminate; try congruence).
Qed.

Lemma pass_classifies_link_witness :
  exists link',
    nodes (document (run _applyHighlighting Sample.onSite)) !! 4%nat = Some link' /\
    classList link' = ["link"; CURRENT_SITE].
Proof.
  destruct (pass_classifies_link Sample.onSite "https://contoso.com/sites/INT/" 4
              (Sample.element "a" [("href", "https://contoso.com/sites/int/home")]
                              ["link"; OTHER_SITE] (Some 3%nat)))
    as (link' & Hlook & _).
  - reflexivity.
  - vm_compute. discriminate.
  - apply list_elem_of_In. vm_compute. auto.
  - reflexivity.
  - exists link'. split; [exact Hlook|].
    vm_compute in Hlook. injection Hlook as <-. reflexivity.
Defined.

(** X3: a pass touches nothing but the class lists of the links it
    selects, and of those only the two marker classes: every element keeps
    its tag, its attributes, its parent and its other classes, and an
    element that is not selected stays as it is. *)
Lemma pass_frame (w : World) (u : string) (i : nat) (e : Element) :
  absoluteUrl (context w) = Some u ->
  nodes (document w) !! i = Some e ->
  exists e',
    nodes (document (run _applyHighlighting w)) !! i = Some e' /\
    tagName e' = tagName e /\ attributes e' = attributes e /\
    parentNode e' = parentNode e /\
    (forall t, isMarker t = false ->
               classList_contains t e' = classList_contains t e) /\
    (i ∉ querySelectorAll (document w) NAV_SELECTORS -> e' = e).
Proof.
  intros Hu He. unfold run. rewrite applyHighlighting_run. cbn [final].
  rewrite afterPass_document, Hu. unfold highlightDocument.
  destruct (truthy (currentSiteOf u)).
  - cbn [nodes with_nodes]. rewrite highlightAll_lookup, He. cbn.
    eexists. split; [reflexivity|]. case_bool_decide as Hin.
    + rewrite highlightLink_spec. repeat split; [|contradiction].
      intros t Ht. unfold classList_contains. cbn [classList withClassList].
      change (isMarker t = false) in Ht.
      rewrite isToken_app, isToken_filter, Ht, andb_true_r.
      unfold markerFor.
      destruct (truthy (linkSiteName e) && String.eqb (linkSiteName e) (currentSiteOf u));
        [|destruct (includes "/sites/" (hrefOf e))]; unfold isToken; cbn [existsb];
        rewrite ?orb_false_r; try reflexivity.
      * destruct (String.eqb_spec t CURRENT_SITE) as [->|_]; [discriminate|].
        now rewrite orb_false_r.
      * destruct (String.eqb_spec t OTHER_SITE) as [->|_]; [discriminate|].
        now rewrite orb_false_r.
    + now repeat split.
  - exists e. now repeat split.
Qed.

(** The example of the specification: on site [int], the link to
    [/sites/int/] ends with the current-site marker only and the link to
    [/sites/other/] with the other-site marker only; a link without site
    segment loses the marker it had, and so does not get one; the link to
    [/Sites/Other] stays unmarked, since the second test reads the [href]
    as it is written. *)
Example pass_on_sample_page :
  classList <$> nodes (document (run _applyHighlighting Sample.onSite))
  = [ []; []; []; ["ms-HubNav"];
      ["link"; CURRENT_SITE]; [OTHER_SITE]; []; [] ].
Proof. reflexivity. Qed.

(** C3: a second pass on the document a pass leaves changes nothing: the
    class list of every element, markers included, is what the first pass
    made it. *)
Theorem applyHighlighting_idempotent (w : World) :
  document (run _applyHighlighting (run _applyHighlighting w))
  = document (run _applyHighlighting w).
Proof.
  unfold run. rewrite !applyHighlighting_run. cbn [final].
  rewrite !afterPass_document, afterPass_context.
  apply highlightDocument_idem.
Qed.

(** C8: when no site identifier can be extracted from the page URL, the
    pass returns before it looks at the document: no element changes, no
    marker is removed and none is added. *)
Theorem applyHighlighting_without_site (w : World) (u : string) :
  absoluteUrl (context w) = Some u ->
  currentSiteOf u = "" ->
  _applyHighlighting w = Normal tt (with_passes (S (passes w)) w) /\
  document (run _applyHighlighting w) = document w.
Proof.
  intros Hu Hs. unfold run. rewrite applyHighlighting_run.
  unfold afterPass. rewrite Hu, Hs. split; reflexivity.
Qed.

Lemma applyHighlighting_without_site_witness :
  document (run _applyHighlighting Sample.offSite) = Sample.page.
Proof.
  apply (applyHighlighting_without_site Sample.offSite "https://contoso.com/");
    reflexivity.
Defined.

(** ** Configuration loading *)
Section ConfigFacts.

Variable defaults : INavConfig.

Lemma mergeConfig_run (json : JsValue) (w : World) :
  mergeConfig defaults json w
  = if isNullish json
    then Throw (TypeError "Cannot read properties of null or undefined") w
    else Normal (mergedConfig defaults json) w.
Proof. destruct json; reflexivity. Qed.

Lemma loadConfig_run (w : World) :
  _loadConfig defaults w = Normal tt (afterLoad defaults w).
Proof.
  unfold _loadConfig, afterLoad.
  unfold tryCatch at 1. unfold mbind, Js_bind, gets. cbn beta iota.
  fold (configUrlOf (context w)).
  destruct (spHttpClient_get (context w) (configUrlOf (context w)))
    as [e|[|] [e|json]]; try reflexivity.
  unfold tryCatch, settle, mret, Js_ret. rewrite mergeConfig_run.
  destruct (isNullish json); reflexivity.
Qed.

Lemma afterLoad_config_cases (w : World) :
  _config (this (afterLoad defaults w)) = _config (this w) \/
  exists json, _config (this (afterLoad defaults w)) = mergedConfig defaults json.
Proof.
  unfold afterLoad.
  destruct (spHttpClient_get (context w) (configUrlOf (context w)))
    as [e|[|] [e|json]]; try (now left).
  destruct (isNullish json); [now left | right; now exists json].
Qed.

End ConfigFacts.

(** C5: when the request succeeds and its body parses, each of the four
    fields of the stored configuration is the field of the JSON if that is
    truthy and the built-in default otherwise.  (For the body [null], which
    has no fields, the stored configuration is left as it is: the defaults,
    on the load that [onInit] makes.) *)
Theorem loadConfig_merges_per_field
        (defaults : INavConfig) (w : World) (json : JsValue) :
  spHttpClient_get (context w) (configUrlOf (context w)) = HttpResponse true (inr json) ->
  (isNullish json = true -> _config (this w) = defaults) ->
  let c := _config (this (run (_loadConfig defaults) w)) in
  currentSiteColor c
    = mergedField json "currentSiteColor" (currentSiteColor defaults) /\
  currentSiteFontWeight c
    = mergedField json "currentSiteFontWeight" (currentSiteFontWeight defaults) /\
  otherSiteColor c
    = mergedField json "otherSiteColor" (otherSiteColor defaults) /\
  otherSiteFontWeight c
    = mergedField json "otherSiteFontWeight" (otherSiteFontWeight defaults).
Proof.
  intros Hget Hnull. unfold run. rewrite loadConfig_run. cbn [final].
  unfold afterLoad. rewrite Hget.
  destruct (isNullish json) eqn:E.
  - cbn. rewrite (Hnull eq_refl). destruct json; try discriminate; repeat split.
  - repeat split.
Qed.

Lemma loadConfig_merges_per_field_witness :
  _config (this (run (_loadConfig Sample.defaults) Sample.onSite))
  = {| currentSiteColor := JString "green";
       currentSiteFontWeight := currentSiteFontWeight Sample.defaults;
       otherSiteColor := otherSiteColor Sample.defaults;
       otherSiteFontWeight := otherSiteFontWeight Sample.defaults |}.
Proof.
  destruct (loadConfig_merges_per_field Sample.defaults Sample.onSite Sample.override)
    as (Ha & Hb & Hc & Hd).
  - reflexivity.
  - discriminate.
  - destruct (_config (this (run (_loadConfig Sample.defaults) Sample.onSite))).
    cbn in Ha, Hb, Hc, Hd. now subst.
Defined.

(** An override that sets [currentSiteColor] only. *)
Corollary loadConfig_single_override
          (defaults : INavConfig) (w : World) (color : JsValue) :
  spHttpClient_get (context w) (configUrlOf (context w))
  = HttpResponse true (inr (JObject [("currentSiteColor", color)])) ->
  toBoolean color = true ->
  _config (this (run (_loadConfig defaults) w))
  = {| currentSiteColor := color;
       currentSiteFontWeight := currentSiteFontWeight defaults;
       otherSiteColor := otherSiteColor defaults;
       otherSiteFontWeight := otherSiteFontWeight defaults |}.
Proof.
  intros Hget Hcolor. unfold run. rewrite loadConfig_run. cbn [final].
  unfold afterLoad. rewrite Hget.
  change (isNullish (JObject [("currentSiteColor", color)])) with false.
  cbn [logged with_log with_this with_config this _config].
  unfold mergedConfig, mergedField.
  change (jsonField (JObject [("currentSiteColor", color)]) "currentSiteColor") with color.
  change (jsonField (JObject [("currentSiteColor", color)]) "currentSiteFontWeight")
    with JUndefined.
  change (jsonField (JObject [("currentSiteColor", color)]) "otherSiteColor")
    with JUndefined.
  change (jsonField (JObject [("currentSiteColor", color)]) "otherSiteFontWeight")
    with JUndefined.
  now rewrite Hcolor.
Qed.

(** C6: when the request is rejected, or the response is not [ok], or its
    body does not parse, [_loadConfig] returns normally and the instance,
    its configuration included, is what it was: only the log has grown.
    In every case the configuration afterwards is either the one before or
    a complete merge. *)
Theorem loadConfig_failure_keeps_config (defaults : INavConfig) (w : World) :
  (forall e, spHttpClient_get (context w) (configUrlOf (context w)) = HttpRejected e ->
     _loadConfig defaults w
     = Normal tt (logged Error "Failed to load config" (Some e) w)) /\
  (forall json,
     spHttpClient_get (context w) (configUrlOf (context w)) = HttpResponse false json ->
     _loadConfig defaults w
     = Normal tt (logged Warn "Config file not found, using defaults" None w)) /\
  (forall e,
     spHttpClient_get (context w) (configUrlOf (context w)) = HttpResponse true (inl e) ->
     _loadConfig defaults w
     = Normal tt (logged Error "Failed to parse config JSON" (Some e) w)) /\
  (_config (this (run (_loadConfig defaults) w)) = _config (this w) \/
   exists json, _config (this (run (_loadConfig defaults) w)) = mergedConfig defaults json).
Proof.
  rewrite loadConfig_run. unfold run. rewrite loadConfig_run. cbn [final].
  repeat split.
  - intros e He. unfold afterLoad. now rewrite He.
  - intros json He. unfold afterLoad. now rewrite He.
  - intros e He. unfold afterLoad. now rewrite He.
  - apply afterLoad_config_cases.
Qed.

Lemma loadConfig_failure_keeps_config_witness :
  this (run (_loadConfig Sample.defaults) Sample.offSite) = newInstance Sample.defaults.
Proof.
  destruct (loadConfig_failure_keeps_config Sample.defaults Sample.offSite)
    as (_ & Hnotok & _).
  unfold run. rewrite (Hnotok (inl (SyntaxError ""))); reflexivity.
Defined.

(** ** Style injection *)
Section StyleFacts.

Lemma alter_last {A : Type} (f : A -> A) (l : list A) (x : A) :
  alter f (length l) (l ++ [x]) = l ++ [f x].
Proof.
  induction l as [|y l IH]; [reflexivity|].
  cbn [length app]. change (alter f (S (length l)) (y :: (l ++ [x])))
    with (y :: alter f (length l) (l ++ [x])).
  now rewrite IH.
Qed.

(** The body of [_injectStyles] once the previous element is removed. *)
Lemma injectStyles_fresh (w : World) :
  (el ← createElement "style";
   modify (fun w => with_this (with_styleElement (Some el) (this w)) w) ;;
   setAttribute el "data-hub-nav-customizer" "true" ;;
   c ← gets (fun w => _config (this w));
   setStyleRules el c ;;
   h ← gets (fun w => head (document w));
   match h with
   | Some hd => appendChild hd el
   | None => throw (TypeError "Cannot read properties of null (reading 'appendChild')")
   end) w
  = let w1 := with_this (with_styleElement (Some (length (nodes (document w)))) (this w)) w in
    match head (document w) with
    | Some hd =>
        Normal tt (setNodes (nodes (document w) ++ [styleNode (_config (this w)) (Some hd)]) w1)
    | None =>
        Throw (TypeError "Cannot read properties of null (reading 'appendChild')")
              (setNodes (nodes (document w) ++ [styleNode (_config (this w)) None]) w1)
    end.
Proof.
  destruct w as [[se cfg ob tt'] ctx [ns root hd bd] nh obs tms tc lg ps un].
  unfold createElement, setAttribute, setStyleRules, appendChild, modifyElement,
    modifyNodes.
  unfold mbind, Js_bind, gets, modify, mret, Js_ret, throw.
  cbn -[alter]. rewrite !alter_last.
  destruct hd as [hd|]; cbn -[alter]; [rewrite alter_last|]; reflexivity.
Qed.

Lemma injectStyles_run (w : World) :
  _injectStyles w = Normal tt (afterInject w).
Proof.
  unfold _injectStyles, afterInject, tryCatch.
  unfold mbind at 1 2, Js_bind at 1 2, gets at 1. cbn beta iota.
  destruct (_styleElement (this w)) as [old|].
  - unfold removeNode, modifyElement, modifyNodes, modify. cbn beta iota.
    rewrite injectStyles_fresh. cbn -[alter].
    destruct (head (document w)); reflexivity.
  - unfold mret, Js_ret. rewrite injectStyles_fresh. cbn -[alter].
    destruct (head (document w)); reflexivity.
Qed.

End StyleFacts.

Lemma filter_seq_none (p : nat -> bool) (n : nat) :
  (forall i, (i < n)%nat -> p i = false) -> filter (fun i => p i) (seq 0 n) = [].
Proof.
  intros Hp. apply elem_of_nil_inv. intros i [Hi Hin]%list_elem_of_filter.
  apply elem_of_seq in Hin. rewrite Hp in Hi by lia. exact Hi.
Qed.

(** One injection leaves exactly the new node, provided every injected
    node present before it was the one the instance held. *)
Lemma injectStyles_step (w : World) (hd : nat) :
  head (document w) = Some hd ->
  styleInvariant w ->
  let w' := run _injectStyles w in
  exists el,
    injectedStyles (document w') = [el] /\
    _styleElement (this w') = Some el /\
    head (document w') = Some hd.
Proof.
  intros Hhd Hinv. unfold run. rewrite injectStyles_run. cbn [final].
  unfold afterInject. rewrite Hhd.
  set (ns := match _styleElement (this w) with
             | Some old => alter (withParent None) old (nodes (document w))
             | None => nodes (document w)
             end).
  exists (length ns). split; [|split; [reflexivity | exact Hhd]].
  unfold injectedStyles. cbn [document setNodes with_document nodes with_nodes].
  rewrite length_app. cbn [length]. rewrite Nat.add_1_r, seq_S, filter_app.
  cbn [Nat.add]. rewrite filter_seq_none.
  - rewrite filter_cons_True; [reflexivity|].
    unfold isInjectedAt. cbn [nodes with_nodes head].
    rewrite lookup_app_r, Nat.sub_diag by lia. cbn [lookup list_lookup].
    unfold isInjectedStyle, isChildOf, styleNode. cbn. rewrite Hhd.
    cbn. now rewrite Nat.eqb_refl.
  - intros i Hi. unfold isInjectedAt. cbn [nodes with_nodes head].
    rewrite lookup_app_l by exact Hi.
    destruct (ns !! i) as [e|] eqn:Hlook; [|reflexivity].
    destruct (isInjectedStyle e && isChildOf (head (document w)) e) eqn:Hinj;
      [|exact Hinj].
    exfalso. unfold ns in Hlook, Hi.
    destruct (_styleElement (this w)) as [old|] eqn:Hold.
    + rewrite length_alter in Hi. destruct (decide (old = i)) as [->|Hne].
      * rewrite list_lookup_alter_eq in Hlook.
        destruct (nodes (document w) !! i) as [e0|]; [|discriminate].
        injection Hlook as <-. apply andb_prop in Hinj as [_ Hchild].
        rewrite Hhd in Hchild. discriminate.
      * rewrite list_lookup_alter_ne in Hlook by exact Hne.
        assert (Hin : i ∈ injectedStyles (document w)).
        { apply list_elem_of_filter. split; [|apply elem_of_seq; lia].
          unfold isInjectedAt. rewrite Hlook, Hinj. exact I. }
        apply Hinv in Hin. congruence.
    + assert (Hin : i ∈ injectedStyles (document w)).
      { apply list_elem_of_filter. split; [|apply elem_of_seq; lia].
        unfold isInjectedAt. rewrite Hlook, Hinj. exact I. }
      apply Hinv in Hin. congruence.
Qed.

(** C7: on a page with a [head], when every injected style node present is
    the one the instance holds (as when nothing has been injected yet),
    after every call of [_injectStyles] in a sequence of calls exactly one
    injected style node exists, and it is the one the instance holds: each
    call removes the previous node before it appends the new one. *)
Theorem injectStyles_singleton (w : World) (hd n : nat) :
  head (document w) = Some hd ->
  styleInvariant w ->
  let w' := Nat.iter (S n) (run _injectStyles) w in
  exists el,
    injectedStyles (document w') = [el] /\ _styleElement (this w') = Some el.
Proof.
  intros Hhd Hinv.
  assert (Hiter : forall k, exists el,
             injectedStyles (document (Nat.iter (S k) (run _injectStyles) w)) = [el] /\
             _styleElement (this (Nat.iter (S k) (run _injectStyles) w)) = Some el /\
             head (document (Nat.iter (S k) (run _injectStyles) w)) = Some hd).
  { induction k as [|k (el & Hone & Hel & Hhead)].
    - cbn [Nat.iter nat_rect]. now apply injectStyles_step.
    - change (Nat.iter (S (S k)) (run _injectStyles) w)
        with (run _injectStyles (Nat.iter (S k) (run _injectStyles) w)).
      apply injectStyles_step; [exact Hhead|].
      intros i Hi. rewrite Hone in Hi. apply list_elem_of_singleton in Hi. congruence. }
  destruct (Hiter n) as (el & Hone & Hel & _). now exists el.
Qed.

Lemma injectStyles_singleton_witness :
  injectedStyles (document (Nat.iter 3 (run _injectStyles) Sample.onSite)) = [10%nat].
Proof.
  destruct (injectStyles_singleton Sample.onSite 1 2) as (el & Hone & Hel).
  - reflexivity.
  - intros i Hi. vm_compute in Hi. inversion Hi.
  - rewrite Hone. vm_compute in Hel. congruence.
Defined.

(** ** The mutation watcher *)
Section WatcherFacts.

Lemma insert_last {A : Type} (l : list A) (x y : A) :
  <[length l := y]> (l ++ [x]) = l ++ [y].
Proof.
  induction l as [|z l IH]; [reflexivity|].
  cbn [length app]. change (<[S (length l) := y]> (z :: (l ++ [x])))
    with (z :: <[length l := y]> (l ++ [x])).
  now rewrite IH.
Qed.

Lemma observeDOM_run (w : World) : _observeDOM w = Normal tt (afterObserve w).
Proof.
  unfold _observeDOM, afterObserve, tryCatch.
  unfold mbind at 1, Js_bind at 1, gets at 1. cbn beta iota.
  destruct (_observer (this w)) as [o|]; [reflexivity|].
  destruct w as [[se cfg ob tt'] ctx [ns root hd bd] nh obs tms tc lg ps un].
  unfold newMutationObserver, observe.
  unfold mbind, Js_bind, gets, modify, mret, Js_ret, throw.
  cbn -[insert]. destruct bd as [target|]; cbn -[insert]; [|reflexivity].
  now rewrite insert_last.
Qed.

Lemma afterObserve_holds (w : World) : is_Some (_observer (this (afterObserve w))).
Proof.
  unfold afterObserve. destruct (_observer (this w)) as [o|] eqn:E.
  - rewrite E. now exists o.
  - destruct (body (document w)); now eexists.
Qed.



Lemma observerCallback_run (w : World) :
  observerCallback w = Normal tt (afterMutation w).
Proof.
  unfold observerCallback, afterMutation, tryCatch.
  unfold mbind at 1, Js_bind at 1, gets at 1. cbn beta iota.
  destruct (handleTruthy (_throttleTimer (this w))); reflexivity.
Qed.

(** The timer callback clears the field whatever the pass did. *)
Lemma throttleTimeout_run (pass : Js unit) (w : World) :
  throttleTimeout pass w
  = Normal tt (clearThrottle
                 match pass w with
                 | Normal _ w1 => w1
                 | Throw e w1 => logged Error "Observer callback failed" (Some e) w1
                 end).
Proof.
  unfold throttleTimeout, tryFinally, tryCatch.
  destruct (pass w) as [[] w1|e w1]; reflexivity.
Qed.

Lemma mutations_while_pending (l : list Observer) (w : World) :
  handleTruthy (_throttleTimer (this w)) = true ->
  fold_left (fun (w' : World) (_ : Observer) => invoke observerCallback w') l w = w.
Proof.
  intros Hp. induction l as [|o l IH]; [reflexivity|].
  cbn [fold_left]. unfold invoke at 2. rewrite observerCallback_run.
  unfold afterMutation. rewrite Hp. exact IH.
Qed.

Lemma dispatch_pending (w : World) :
  handleTruthy (_throttleTimer (this w)) = true -> dispatch MutationBatch w = w.
Proof. intros Hp. cbn [dispatch]. now apply mutations_while_pending. Qed.

Lemma dispatchAll_pending (n : nat) (w : World) :
  handleTruthy (_throttleTimer (this w)) = true ->
  dispatchAll (replicate n MutationBatch) w = w.
Proof.
  intros Hp. induction n as [|n IH]; [reflexivity|].
  cbn [replicate]. unfold dispatchAll in *. cbn [fold_left].
  now rewrite dispatch_pending.
Qed.

Lemma find_fresh (h : nat) (l : list Timer) (t : Timer) :
  (forall t', t' ∈ l -> handle t' <> h) -> handle t = h ->
  find (hasHandle h) (l ++ [t]) = Some t /\
  filter (fun t' => negb (hasHandle h t')) (l ++ [t]) = l.
Proof.
  intros Hfresh Ht. induction l as [|x l IH].
  - cbn [app find]. unfold hasHandle at 1. rewrite Ht, Nat.eqb_refl. split; [reflexivity|].
    rewrite filter_cons_False; [reflexivity|].
    unfold hasHandle. rewrite Ht, Nat.eqb_refl. exact id.
  - assert (Hx : hasHandle h x = false).
    { unfold hasHandle. apply Nat.eqb_neq, Hfresh, list_elem_of_here. }
    destruct IH as [IHfind IHfilter].
    { intros t' Hin. apply Hfresh. now apply list_elem_of_further. }
    cbn [app find]. rewrite Hx. split; [exact IHfind|].
    rewrite filter_cons_True by (rewrite Hx; exact I). now rewrite IHfilter.
Qed.

End WatcherFacts.

Lemma afterPass_frame (w : World) :
  this (afterPass w) = this w /\
  timers (afterPass w) = timers w /\
  timerCount (afterPass w) = timerCount w /\
  observers (afterPass w) = observers w /\
  navigatedHandlers (afterPass w) = navigatedHandlers w /\
  uncaught (afterPass w) = uncaught w /\
  passes (afterPass w) = S (passes w).
Proof.
  unfold afterPass. destruct (absoluteUrl (context w)) as [u|]; [|now repeat split].
  destruct (truthy (currentSiteOf u)); now repeat split.
Qed.

(** ** The invariant of the throttle *)
Section ThrottleInvariant.

Lemma filter_bool_comm {A : Type} (p q : A -> bool) (l : list A) :
  filter (fun x => p x) (filter (fun x => q x) l)
  = filter (fun x => q x) (filter (fun x => p x) l).
Proof.
  induction l as [|x l IH]; [reflexivity|].
  destruct (p x) eqn:Ep; destruct (q x) eqn:Eq;
    repeat first [ rewrite (filter_cons_True (fun x => q x)) by (rewrite Eq; exact I)
                 | rewrite (filter_cons_False (fun x => q x)) by (rewrite Eq; exact id)
                 | rewrite (filter_cons_True (fun x => p x)) by (rewrite Ep; exact I)
                 | rewrite (filter_cons_False (fun x => p x)) by (rewrite Ep; exact id) ];
    now rewrite IH.
Qed.

Lemma NoDup_handles_filter (p : Timer -> bool) (l : list Timer) :
  NoDup (handle <$> l) -> NoDup (handle <$> filter (fun t => p t) l).
Proof.
  induction l as [|t l IH]; [trivial|].
  rewrite fmap_cons, NoDup_cons. intros [Hnotin Hnd].
  destruct (p t) eqn:E.
  - rewrite filter_cons_True by (rewrite E; exact I).
    rewrite fmap_cons, NoDup_cons. split; [|now apply IH].
    intros (t' & Heq & [_ Hin]%list_elem_of_filter)%list_elem_of_fmap.
    apply Hnotin, list_elem_of_fmap. now exists t'.
  - rewrite filter_cons_False by (rewrite E; exact id). now apply IH.
Qed.

Lemma same_handle_same_timer (l : list Timer) (t1 t2 : Timer) :
  NoDup (handle <$> l) -> t1 ∈ l -> t2 ∈ l -> handle t1 = handle t2 -> t1 = t2.
Proof.
  induction l as [|t l IH]; [intros _ H; inversion H|].
  rewrite fmap_cons, NoDup_cons. intros [Hnotin Hnd] H1 H2 Heq.
  apply elem_of_cons in H1 as [->|H1]; apply elem_of_cons in H2 as [->|H2].
  - reflexivity.
  - exfalso. apply Hnotin. rewrite Heq. now apply list_elem_of_fmap_2.
  - exfalso. apply Hnotin. rewrite <- Heq. now apply list_elem_of_fmap_2.
  - now apply IH.
Qed.

Lemma navigatedHandler_run (w : World) :
  navigatedHandler w = Normal tt (afterNavigated w).
Proof. reflexivity. Qed.

Lemma throttleInvariant_held (w : World) (h : nat) :
  throttleInvariant w -> _throttleTimer (this w) = Some h ->
  throttleTimer h ∈ timers w /\ (1 <= h)%nat.
Proof.
  intros (Hrange & _ & Hfilter) Hh. rewrite Hh in Hfilter.
  assert (Hin : throttleTimer h ∈ filter (fun t => isThrottleTimer t) (timers w))
    by (rewrite Hfilter; apply list_elem_of_here).
  apply list_elem_of_filter in Hin as [_ Hin]. split; [exact Hin|].
  apply Hrange in Hin. cbn in Hin. lia.
Qed.

Lemma throttleInvariant_mutation (w : World) :
  throttleInvariant w -> throttleInvariant (afterMutation w).
Proof.
  intros Hinv. unfold afterMutation.
  destruct (handleTruthy (_throttleTimer (this w))) eqn:Htruthy; [exact Hinv|].
  destruct (_throttleTimer (this w)) as [h|] eqn:Hheld.
  { destruct (throttleInvariant_held w h Hinv Hheld) as [_ Hpos].
    cbn in Htruthy. apply negb_false_iff, Nat.eqb_eq in Htruthy. lia. }
  destruct Hinv as (Hrange & Hnd & Hfilter). rewrite Hheld in Hfilter.
  split; [|split]; cbn [timers timerCount this with_this with_timers with_timerCount
                         _throttleTimer with_throttleTimer].
  - intros t [Hin| ->%list_elem_of_singleton]%elem_of_app.
    + apply Hrange in Hin. lia.
    + cbn. lia.
  - rewrite fmap_app. apply NoDup_app. split; [exact Hnd|]. split; [|apply NoDup_singleton].
    intros x (t & -> & Hin)%list_elem_of_fmap Hx%list_elem_of_singleton.
    apply Hrange in Hin. cbn in Hx. lia.
  - rewrite filter_app, Hfilter. reflexivity.
Qed.

Lemma throttleInvariant_navigated (w : World) :
  throttleInvariant w -> throttleInvariant (afterNavigated w).
Proof.
  intros (Hrange & Hnd & Hfilter).
  split; [|split]; cbn [afterNavigated timers timerCount this with_timers with_timerCount].
  - intros t [Hin| ->%list_elem_of_singleton]%elem_of_app.
    + apply Hrange in Hin. lia.
    + cbn. lia.
  - rewrite fmap_app. apply NoDup_app. split; [exact Hnd|]. split; [|apply NoDup_singleton].
    intros x (t & -> & Hin)%list_elem_of_fmap Hx%list_elem_of_singleton.
    apply Hrange in Hin. cbn in Hx. lia.
  - rewrite filter_app, Hfilter. cbn. now rewrite app_nil_r.
Qed.

Lemma throttleInvariant_pass (w : World) :
  throttleInvariant w -> throttleInvariant (afterPass w).
Proof.
  destruct (afterPass_frame w) as (Hthis & Htimers & Hcount & _).
  unfold throttleInvariant. now rewrite Hthis, Htimers, Hcount.
Qed.

Lemma throttleInvariant_fire (w : World) (h : nat) :
  throttleInvariant w -> throttleInvariant (dispatch (TimerFires h) w).
Proof.
  intros Hinv. cbn [dispatch].
  destruct (find (hasHandle h) (timers w)) as [t|] eqn:Hfind; [|exact Hinv].
  apply find_some in Hfind as [Hin Hh]. apply list_elem_of_In in Hin.
  apply Nat.eqb_eq in Hh.
  pose proof Hinv as (Hrange & Hnd & Hfilter).
  set (rest := filter (fun t' => negb (hasHandle h t')) (timers w)).
  assert (Hrest_range : forall t', t' ∈ rest -> (1 <= handle t' <= timerCount w)%nat).
  { intros t' [_ Hin']%list_elem_of_filter. now apply Hrange. }
  assert (Hrest_nd : NoDup (handle <$> rest)) by now apply NoDup_handles_filter.
  assert (Hrest_filter : filter (fun t' => isThrottleTimer t') rest
            = filter (fun t' => negb (hasHandle h t'))
                (match _throttleTimer (this w) with
                 | Some h' => [throttleTimer h']
                 | None => []
                 end)).
  { unfold rest. now rewrite filter_bool_comm, Hfilter. }
  destruct (task t) eqn:Htask; cbn [runTask]; unfold invoke.
  - (* a pass after navigation *)
    rewrite applyHighlighting_run. apply throttleInvariant_pass.
    split; [exact Hrest_range|]. split; [exact Hrest_nd|].
    cbn [timers this with_timers]. rewrite Hrest_filter.
    destruct (_throttleTimer (this w)) as [h'|] eqn:Hheld; [|reflexivity].
    destruct (throttleInvariant_held w h' Hinv Hheld) as [Hin' _].
    rewrite filter_cons_True; [reflexivity|].
    unfold hasHandle. cbn [handle throttleTimer].
    destruct (Nat.eqb_spec h' h) as [->|_]; [|exact I].
    assert (t = throttleTimer h) as -> by now apply (same_handle_same_timer (timers w)).
    discriminate.
  - (* the throttled pass *)
    rewrite throttleTimeout_run, applyHighlighting_run.
    assert (Hheld : _throttleTimer (this w) = Some h).
    { assert (Ht : t ∈ filter (fun t' => isThrottleTimer t') (timers w)).
      { apply list_elem_of_filter. split; [|exact Hin].
        unfold isThrottleTimer. rewrite Htask. exact I. }
      rewrite Hfilter in Ht. destruct (_throttleTimer (this w)) as [h'|].
      - apply list_elem_of_singleton in Ht. subst t. cbn in Hh. now subst h'.
      - inversion Ht. }
    rewrite Hheld in Hrest_filter.
    rewrite filter_cons_False in Hrest_filter
      by (unfold hasHandle; cbn; rewrite Nat.eqb_refl; exact id).
    destruct (afterPass_frame (with_timers rest w)) as (_ & Htimers & Hcount & _).
    unfold throttleInvariant.
    cbn [clearThrottle timers timerCount this with_this _throttleTimer with_throttleTimer].
    rewrite Htimers, Hcount. split; [exact Hrest_range|]. split; [exact Hrest_nd|].
    exact Hrest_filter.
Qed.

(** Every event preserves the invariant. *)
Lemma throttleInvariant_dispatch (ev : Event) (w : World) :
  throttleInvariant w -> throttleInvariant (dispatch ev w).
Proof.
  destruct ev as [|h|].
  - cbn [dispatch]. generalize (filter (fun o => isAttached o) (observers w)).
    intros l. revert w. induction l as [|o l IH]; intros w Hinv; [exact Hinv|].
    cbn [fold_left]. apply IH. unfold invoke. rewrite observerCallback_run.
    now apply throttleInvariant_mutation.
  - apply throttleInvariant_fire.
  - cbn [dispatch]. generalize (navigatedHandlers w) at 1. intros k Hinv.
    induction k as [|k IH]; [exact Hinv|].
    cbn [Nat.iter nat_rect]. unfold invoke at 1. rewrite navigatedHandler_run.
    now apply throttleInvariant_navigated.
Qed.

Lemma throttleInvariant_dispatchAll (evs : list Event) (w : World) :
  throttleInvariant w -> throttleInvariant (dispatchAll evs w).
Proof.
  revert w. induction evs as [|ev evs IH]; intros w Hinv; [exact Hinv|].
  unfold dispatchAll. cbn [fold_left]. apply IH.
  now apply throttleInvariant_dispatch.
Qed.

(** No callback lets an exception escape into the page. *)
Lemma dispatch_uncaught (ev : Event) (w : World) :
  uncaught (dispatch ev w) = uncaught w.
Proof.
  destruct ev as [|h|]; cbn [dispatch].
  - generalize (filter (fun o => isAttached o) (observers w)). intros l.
    revert w. induction l as [|o l IH]; intros w; [reflexivity|].
    cbn [fold_left]. rewrite IH. unfold invoke. rewrite observerCallback_run.
    unfold afterMutation. now destruct (handleTruthy (_throttleTimer (this w))).
  - destruct (find (hasHandle h) (timers w)) as [t|]; [|reflexivity].
    destruct (afterPass_frame
                (with_timers (filter (fun t' => negb (hasHandle h t')) (timers w)) w))
      as (_ & _ & _ & _ & _ & Hunc & _).
    destruct (task t); cbn [runTask]; unfold invoke.
    + now rewrite applyHighlighting_run, Hunc.
    + rewrite throttleTimeout_run, applyHighlighting_run.
      cbn [clearThrottle uncaught with_this]. now rewrite Hunc.
  - generalize (navigatedHandlers w) at 1. intros k.
    induction k as [|k IH]; [reflexivity|].
    cbn [Nat.iter nat_rect]. unfold invoke at 1. rewrite navigatedHandler_run.
    exact IH.
Qed.

Lemma throttleInvariant_one_pending (w : World) :
  throttleInvariant w ->
  (length (filter (fun t => isThrottleTimer t) (timers w)) <= 1)%nat.
Proof.
  intros (_ & _ & ->). destruct (_throttleTimer (this w)); cbn; lia.
Qed.

End ThrottleInvariant.

(** C4: the watcher is idle when [_throttleTimer] is [null] and scheduled
    when it holds a timer handle, and at most one throttle timer is ever
    pending.  From the idle state, any number of mutation batches schedules
    one timer and runs no pass; batches that arrive while a timer is
    pending change nothing; when the timer fires, one pass runs and the
    field is [null] again, as it is after the timer callback for any pass,
    one that throws included. *)
Theorem throttle_coalesces (w : World) (o : Observer) (os : list Observer) (n : nat) :
  throttleInvariant w ->
  filter (fun o' => isAttached o') (observers w) = o :: os ->
  _throttleTimer (this w) = None ->
  let h := S (timerCount w) in
  let scheduled := dispatchAll (replicate (S n) MutationBatch) w in
  let fired := dispatch (TimerFires h) scheduled in
  scheduled = dispatch MutationBatch w /\
  _throttleTimer (this scheduled) = Some h /\
  timers scheduled = timers w ++ [throttleTimer h] /\
  passes scheduled = passes w /\
  (forall w0, handleTruthy (_throttleTimer (this w0)) = true ->
              dispatch MutationBatch w0 = w0) /\
  passes fired = S (passes w) /\
  document fired = highlightDocument (absoluteUrl (context w)) (document w) /\
  _throttleTimer (this fired) = None /\
  timers fired = timers w /\
  uncaught fired = uncaught w /\
  (forall evs : list Event,
      (length (filter (fun t => isThrottleTimer t) (timers (dispatchAll evs w))) <= 1)%nat) /\
  (forall (pass : Js unit) (w0 : World),
      exists w1, throttleTimeout pass w0 = Normal tt w1 /\
                 _throttleTimer (this w1) = None).
Proof.
  intros Hinv Hobs Hidle h scheduled fired.
  assert (Hone : dispatch MutationBatch w = afterMutation w).
  { cbn [dispatch]. rewrite Hobs. cbn [fold_left]. unfold invoke at 2.
    rewrite observerCallback_run. apply mutations_while_pending.
    unfold afterMutation. rewrite Hidle. reflexivity. }
  assert (Hsched : scheduled = dispatch MutationBatch w).
  { unfold scheduled. cbn [replicate]. unfold dispatchAll. cbn [fold_left].
    fold (dispatchAll (replicate n MutationBatch) (dispatch MutationBatch w)).
    apply dispatchAll_pending. rewrite Hone. unfold afterMutation.
    rewrite Hidle. reflexivity. }
  assert (Hafter : scheduled
            = with_this (with_throttleTimer (Some h) (this w))
                (with_timerCount h (with_timers (timers w ++ [throttleTimer h]) w))).
  { rewrite Hsched, Hone. unfold afterMutation. rewrite Hidle. reflexivity. }
  destruct (find_fresh h (timers w) (throttleTimer h)) as [Hfind Hfilter];
    [|reflexivity|].
  { intros t Hin. destruct Hinv as (Hrange & _). apply Hrange in Hin. unfold h. lia. }
  assert (Hfired : fired = clearThrottle (afterPass (with_timers (timers w) scheduled))).
  { unfold fired. cbn [dispatch]. rewrite Hafter.
    cbn [timers with_this with_timerCount with_timers].
    rewrite Hfind, Hfilter. cbn [task throttleTimer runTask]. unfold invoke.
    rewrite throttleTimeout_run, applyHighlighting_run. reflexivity. }
  destruct (afterPass_frame (with_timers (timers w) scheduled))
    as (Hthis & Htimers & _ & _ & _ & Hunc & Hpasses).
  split; [exact Hsched|]. split; [now rewrite Hafter|]. split; [now rewrite Hafter|].
  split; [now rewrite Hafter|]. split; [exact dispatch_pending|].
  split; [rewrite Hfired; cbn [clearThrottle passes with_this]; rewrite Hpasses, Hafter;
          reflexivity|].
  split; [rewrite Hfired; cbn [clearThrottle document with_this];
          rewrite afterPass_document, Hafter; reflexivity|].
  split; [now rewrite Hfired|].
  split; [rewrite Hfired; cbn [clearThrottle timers with_this]; now rewrite Htimers|].
  split; [rewrite Hfired; cbn [clearThrottle uncaught with_this]; rewrite Hunc, Hafter;
          reflexivity|].
  split; [intros evs; now apply throttleInvariant_one_pending,
                                throttleInvariant_dispatchAll|].
  intros pass w0. rewrite throttleTimeout_run. eexists. split; reflexivity.
Qed.

(** ** Startup *)
Section StartupFacts.

Variable defaults : INavConfig.

Lemma afterLoad_frame (w : World) :
  context (afterLoad defaults w) = context w /\
  observers (afterLoad defaults w) = observers w /\
  _observer (this (afterLoad defaults w)) = _observer (this w).
Proof.
  unfold afterLoad.
  destruct (spHttpClient_get (context w) (configUrlOf (context w)))
    as [e|[|] [e|json]]; try (now repeat split).
  destruct (isNullish json); now repeat split.
Qed.

Lemma afterInject_frame (w : World) :
  context (afterInject w) = context w /\
  observers (afterInject w) = observers w /\
  _observer (this (afterInject w)) = _observer (this w).
Proof.
  unfold afterInject. destruct (head (document w)); now repeat split.
Qed.

Lemma startupSteps_eq (w : World) :
  startupSteps defaults w
  = afterPass (afterInject (afterLoad defaults (logged Info "Initialized" None w))).
Proof.
  unfold startupSteps, run.
  now rewrite applyHighlighting_run, injectStyles_run, loadConfig_run.
Qed.

Lemma startupSteps_frame (w : World) :
  context (startupSteps defaults w) = context w /\
  observers (startupSteps defaults w) = observers w /\
  _observer (this (startupSteps defaults w)) = _observer (this w).
Proof.
  rewrite startupSteps_eq.
  destruct (afterPass_frame
              (afterInject (afterLoad defaults (logged Info "Initialized" None w))))
    as (Hthis & _ & _ & Hobs & _).
  rewrite afterPass_context, Hthis, Hobs.
  destruct (afterInject_frame (afterLoad defaults (logged Info "Initialized" None w)))
    as (-> & -> & ->).
  destruct (afterLoad_frame (logged Info "Initialized" None w)) as (-> & -> & ->).
  now repeat split.
Qed.

(** [onInit] as the sequence of its steps. *)
Lemma onInit_run (w : World) :
  onInit defaults w
  = Normal tt
      (if navigatedEvent_present (context w)
       then run _observeDOM (run navigatedEvent_add (startupSteps defaults w))
       else run (Log_error "Initialization failed"
                           (TypeError "Cannot read properties of undefined (reading 'add')"))
                (startupSteps defaults w)).
Proof.
  destruct (startupSteps_frame w) as (Hctx & _ & _).
  assert (Hadd : navigatedEvent_add (startupSteps defaults w)
                 = if navigatedEvent_present (context w)
                   then Normal tt (with_navigatedHandlers
                                     (S (navigatedHandlers (startupSteps defaults w)))
                                     (startupSteps defaults w))
                   else Throw (TypeError "Cannot read properties of undefined (reading 'add')")
                              (startupSteps defaults w)).
  { unfold navigatedEvent_add, mbind, Js_bind, gets. rewrite Hctx.
    now destruct (navigatedEvent_present (context w)). }
  unfold run at 2. rewrite Hadd. rewrite startupSteps_eq in *.
  set (w4 := afterPass (afterInject (afterLoad defaults (logged Info "Initialized" None w))))
    in *.
  unfold onInit.
  unfold mbind at 1, Js_bind at 1. unfold tryCatch at 1.
  unfold mbind at 1 2 3 4 5, Js_bind at 1 2 3 4 5.
  change (Log_info "Initialized" w) with (Normal tt (logged Info "Initialized" None w)).
  cbn beta iota. rewrite loadConfig_run. cbn beta iota.
  rewrite injectStyles_run. cbn beta iota.
  rewrite applyHighlighting_run. cbn beta iota.
  fold w4. rewrite Hadd.
  destruct (navigatedEvent_present (context w)); [|reflexivity].
  unfold run. cbn [final]. now rewrite observeDOM_run.
Qed.

Lemma afterLoad_timers (w : World) :
  timers (afterLoad defaults w) = timers w /\
  timerCount (afterLoad defaults w) = timerCount w /\
  _throttleTimer (this (afterLoad defaults w)) = _throttleTimer (this w).
Proof.
  unfold afterLoad.
  destruct (spHttpClient_get (context w) (configUrlOf (context w)))
    as [e|[|] [e|json]]; try (now repeat split).
  destruct (isNullish json); now repeat split.
Qed.

Lemma afterInject_timers (w : World) :
  timers (afterInject w) = timers w /\
  timerCount (afterInject w) = timerCount w /\
  _throttleTimer (this (afterInject w)) = _throttleTimer (this w).
Proof.
  unfold afterInject. destruct (head (document w)); now repeat split.
Qed.

Lemma afterObserve_timers (w : World) :
  timers (afterObserve w) = timers w /\
  timerCount (afterObserve w) = timerCount w /\
  _throttleTimer (this (afterObserve w)) = _throttleTimer (this w).
Proof.
  unfold afterObserve. destruct (_observer (this w)); [now repeat split|].
  destruct (body (document w)); now repeat split.
Qed.

(** Startup does not touch the timers. *)
Lemma throttleInvariant_onInit (w : World) :
  throttleInvariant w -> throttleInvariant (run (onInit defaults) w).
Proof.
  intros Hinv. unfold run. rewrite onInit_run. cbn [final].
  assert (Hsteps : throttleInvariant (startupSteps defaults w)).
  { rewrite startupSteps_eq. apply throttleInvariant_pass.
    set (w1 := logged Info "Initialized" None w).
    destruct (afterInject_timers (afterLoad defaults w1)) as (Ht & Hc & Hh).
    destruct (afterLoad_timers w1) as (Ht' & Hc' & Hh').
    unfold throttleInvariant. rewrite Ht, Hc, Hh, Ht', Hc', Hh'. exact Hinv. }
  destruct (navigatedEvent_present (context w)) eqn:E; [|exact Hsteps].
  unfold run. rewrite observeDOM_run. cbn [final].
  set (w5 := final (navigatedEvent_add (startupSteps defaults w))).
  assert (H5 : throttleInvariant w5).
  { unfold w5, navigatedEvent_add, mbind, Js_bind, gets.
    destruct (navigatedEvent_present (context (startupSteps defaults w))); exact Hsteps. }
  destruct (afterObserve_timers w5) as (Ht & Hc & Hh).
  unfold throttleInvariant. rewrite Ht, Hc, Hh. exact H5.
Qed.

(** From a start without timers, at most one throttle timer is pending
    after startup and any sequence of events. *)
Lemma throttle_at_most_one_pending (w : World) (evs : list Event) :
  timers w = [] -> _throttleTimer (this w) = None ->
  (length (filter (fun t => isThrottleTimer t)
                  (timers (dispatchAll evs (run (onInit defaults) w)))) <= 1)%nat.
Proof.
  intros Ht Hh. apply throttleInvariant_one_pending, throttleInvariant_dispatchAll,
    throttleInvariant_onInit.
  unfold throttleInvariant. rewrite Ht, Hh.
  split; [intros t Hin; inversion Hin|]. split; [constructor | reflexivity].
Qed.

End StartupFacts.



Lemma onInit_frame (defaults : INavConfig) (w : World) :
  context (run (onInit defaults) w) = context w /\
  (navigatedEvent_present (context w) = true ->
   is_Some (_observer (this (run (onInit defaults) w)))) /\
  (navigatedEvent_present (context w) = false ->
   observers (run (onInit defaults) w) = observers w /\
   _observer (this (run (onInit defaults) w)) = _observer (this w)) /\
  (is_Some (_observer (this w)) ->
   observers (run (onInit defaults) w) = observers w).
Proof.
  destruct (startupSteps_frame defaults w) as (Hctx & Hobs & Hheld).
  unfold run at 1 2 3 4 5. rewrite onInit_run. cbn [final].
  destruct (navigatedEvent_present (context w)).
  - unfold run. rewrite observeDOM_run. cbn [final].
    set (w5 := final (navigatedEvent_add (startupSteps defaults w))).
    assert (H5 : context w5 = context w /\ observers w5 = observers w /\
                 _observer (this w5) = _observer (this w)).
    { unfold w5, navigatedEvent_add, mbind, Js_bind, gets.
      destruct (navigatedEvent_present (context (startupSteps defaults w)));
        cbn; now rewrite Hctx, Hobs, Hheld. }
    destruct H5 as (H5c & H5o & H5h).
    split; [|split; [|split]].
    + unfold afterObserve. destruct (_observer (this w5)); [exact H5c|].
      destruct (body (document w5)); exact H5c.
    + intros _. apply afterObserve_holds.
    + discriminate.
    + intros [o Ho]. unfold afterObserve. rewrite H5h, Ho. exact H5o.
  - split; [exact Hctx|]. split; [discriminate|]. split; [now split|].
    intros _. exact Hobs.
Qed.

Lemma throttle_coalesces_witness :
  passes (dispatch (TimerFires 1)
            (dispatchAll (replicate 3 MutationBatch) Sample.watching))
  = S (passes Sample.watching).
Proof.
  destruct (throttle_coalesces Sample.watching
              {| observed := Some 2%nat; childList := true; subtree := true |} [] 2)
    as (_ & _ & _ & _ & _ & Hfired & _).
  - split; [intros t Hin; inversion Hin|]. split; [constructor | reflexivity].
  - reflexivity.
  - reflexivity.
  - exact Hfired.
Defined.

(** ** The life of an instance *)
Section Lifecycle.

Lemma onDispose_run (w : World) : onDispose w = Normal tt (afterDispose w).
Proof.
  destruct w as [[se cfg ob tm] ctx [ns root hd bd] nh obs tms tc lg ps un].
  destruct ob as [ob|]; destruct se as [se|]; destruct tm as [[|h]|]; reflexivity.
Qed.

Lemma highlightLink_injected (s : string) (e : Element) (parent : option nat) :
  isInjectedStyle (highlightLink s e) && isChildOf parent (highlightLink s e)
  = isInjectedStyle e && isChildOf parent e.
Proof. now rewrite highlightLink_spec. Qed.

(** A pass does not change which style nodes are injected. *)
Lemma highlightDocument_injected (url : option string) (d : Document) :
  injectedStyles (highlightDocument url d) = injectedStyles d.
Proof.
  unfold highlightDocument. destruct url as [u|]; [|reflexivity].
  destruct (truthy (currentSiteOf u)); [|reflexivity].
  unfold injectedStyles. cbn [nodes with_nodes]. rewrite highlightAll_length.
  apply filter_bool_ext. intros i. unfold isInjectedAt.
  cbn [nodes with_nodes head]. rewrite highlightAll_lookup.
  destruct (nodes d !! i) as [e|]; [|reflexivity]. cbn [fmap option_fmap option_map].
  case_bool_decide; [apply highlightLink_injected | reflexivity].
Qed.

Lemma injectedStyles_no_head (d : Document) : head d = None -> injectedStyles d = [].
Proof.
  intros Hhd. unfold injectedStyles. apply filter_seq_none. intros i _.
  unfold isInjectedAt. rewrite Hhd. destruct (nodes d !! i) as [e|]; [|reflexivity].
  unfold isChildOf. apply andb_false_r.
Qed.

Lemma throttle_frame (w w' : World) :
  timers w' = timers w -> timerCount w' = timerCount w ->
  _throttleTimer (this w') = _throttleTimer (this w) ->
  throttleInvariant w -> throttleInvariant w'.
Proof. unfold throttleInvariant. now intros -> -> ->. Qed.

Lemma observer_frame (w w' : World) :
  observers w' = observers w -> _observer (this w') = _observer (this w) ->
  observerInvariant w -> observerInvariant w'.
Proof.
  unfold observerInvariant, attachedObservers, attachedAt. now intros -> ->.
Qed.

Lemma style_frame (w w' : World) :
  injectedStyles (document w') = injectedStyles (document w) ->
  _styleElement (this w') = _styleElement (this w) ->
  styleInvariant w -> styleInvariant w'.
Proof. unfold styleInvariant. now intros -> ->. Qed.

(** *** The observer *)

Lemma observerInvariant_observe (w : World) :
  observerInvariant w -> observerInvariant (afterObserve w).
Proof.
  intros Hinv. unfold afterObserve.
  destruct (_observer (this w)) as [o|] eqn:Hheld; [exact Hinv|].
  assert (Hold : forall i, (i < length (observers w))%nat -> attachedAt w i = false).
  { intros i Hi. destruct (attachedAt w i) eqn:E; [|reflexivity].
    assert (Hin : i ∈ attachedObservers w).
    { apply list_elem_of_filter. split; [now rewrite E | apply elem_of_seq; lia]. }
    apply Hinv in Hin. congruence. }
  assert (Hnew : forall (o : Observer) (w' : World),
             observers w' = observers w ++ [o] ->
             _observer (this w') = Some (length (observers w)) ->
             observerInvariant w').
  { intros o w' Hobs Hob i [Hat Hin]%list_elem_of_filter.
    apply elem_of_seq in Hin. rewrite Hobs, length_app in Hin. cbn in Hin.
    destruct (decide (i = length (observers w))) as [->|Hne]; [exact Hob|].
    exfalso. unfold attachedAt in Hat. rewrite Hobs, lookup_app_l in Hat by lia.
    specialize (Hold i). unfold attachedAt in Hold. rewrite Hold in Hat by lia.
    exact Hat. }
  destruct (body (document w)); eapply Hnew; reflexivity.
Qed.

Lemma observerInvariant_dispose (w : World) :
  observerInvariant w -> observerInvariant (disposeObserver w).
Proof.
  intros Hinv. unfold disposeObserver.
  destruct (_observer (this w)) as [ob|] eqn:Hheld; [|exact Hinv].
  intros i [Hat Hin]%list_elem_of_filter. exfalso.
  apply elem_of_seq in Hin. cbn [observers with_this with_observers] in Hin.
  rewrite length_alter in Hin.
  unfold attachedAt in Hat. cbn [observers with_this with_observers] in Hat.
  destruct (decide (ob = i)) as [->|Hne].
  - rewrite list_lookup_alter_eq in Hat.
    destruct (observers w !! i); exact Hat.
  - rewrite list_lookup_alter_ne in Hat by exact Hne.
    assert (Hin' : i ∈ attachedObservers w).
    { apply list_elem_of_filter. split; [exact Hat | apply elem_of_seq; lia]. }
    apply Hinv in Hin'. congruence.
Qed.

(** *** The style *)

Lemma styleInvariant_inject (w : World) :
  styleInvariant w -> styleInvariant (afterInject w).
Proof.
  intros Hinv. destruct (head (document w)) as [hd|] eqn:Hhd.
  - destruct (injectStyles_step w hd Hhd Hinv) as (el & Hone & Hel & _).
    unfold run in Hone, Hel. rewrite injectStyles_run in Hone, Hel. cbn [final] in *.
    intros i Hi. rewrite Hone in Hi. apply list_elem_of_singleton in Hi. congruence.
  - intros i Hi. rewrite injectedStyles_no_head in Hi; [inversion Hi|].
    unfold afterInject. rewrite Hhd. exact Hhd.
Qed.

Lemma styleInvariant_dispose (w : World) :
  styleInvariant w -> styleInvariant (disposeStyle w).
Proof.
  intros Hinv. unfold disposeStyle.
  destruct (_styleElement (this w)) as [el|] eqn:Hheld; [|exact Hinv].
  intros i [Hat Hin]%list_elem_of_filter. exfalso.
  apply elem_of_seq in Hin.
  cbn [document with_this setNodes with_document nodes with_nodes] in Hin.
  rewrite length_alter in Hin.
  unfold isInjectedAt in Hat.
  cbn [document with_this setNodes with_document nodes with_nodes head] in Hat.
  destruct (decide (el = i)) as [->|Hne].
  - rewrite list_lookup_alter_eq in Hat.
    destruct (nodes (document w) !! i) as [e|]; [|exact Hat]. cbn in Hat.
    unfold isChildOf in Hat. cbn in Hat.
    destruct (head (document w)); rewrite andb_false_r in Hat; exact Hat.
  - rewrite list_lookup_alter_ne in Hat by exact Hne.
    assert (Hin' : i ∈ injectedStyles (document w)).
    { apply list_elem_of_filter. split; [exact Hat | apply elem_of_seq; lia]. }
    apply Hinv in Hin'. congruence.
Qed.

(** *** The timer *)

Lemma throttleInvariant_dispose (w : World) :
  throttleInvariant w -> throttleInvariant (disposeTimer w).
Proof.
  intros Hinv. unfold disposeTimer.
  destruct (_throttleTimer (this w)) as [h|] eqn:Hheld; [|exact Hinv].
  destruct (handleTruthy (Some h)); [|exact Hinv].
  destruct Hinv as (Hrange & Hnd & Hfilter). rewrite Hheld in Hfilter.
  split; [|split];
    cbn [timers timerCount this with_this with_timers _throttleTimer with_throttleTimer].
  - intros t [_ Hin]%list_elem_of_filter. now apply Hrange.
  - now apply NoDup_handles_filter.
  - rewrite filter_bool_comm, Hfilter.
    rewrite filter_cons_False; [reflexivity|].
    unfold hasHandle. cbn. rewrite Nat.eqb_refl. exact id.
Qed.

(** *** Events *)

Lemma afterMutation_keeps (w : World) :
  observers (afterMutation w) = observers w /\
  document (afterMutation w) = document w /\
  _observer (this (afterMutation w)) = _observer (this w) /\
  _styleElement (this (afterMutation w)) = _styleElement (this w).
Proof.
  unfold afterMutation. now destruct (handleTruthy (_throttleTimer (this w))).
Qed.

Lemma afterPass_keeps (w : World) :
  observers (afterPass w) = observers w /\
  injectedStyles (document (afterPass w)) = injectedStyles (document w) /\
  _observer (this (afterPass w)) = _observer (this w) /\
  _styleElement (this (afterPass w)) = _styleElement (this w).
Proof.
  destruct (afterPass_frame w) as (-> & _ & _ & -> & _).
  rewrite afterPass_document, highlightDocument_injected. now repeat split.
Qed.

Lemma dispatch_keeps (ev : Event) (w : World) :
  observers (dispatch ev w) = observers w /\
  injectedStyles (document (dispatch ev w)) = injectedStyles (document w) /\
  _observer (this (dispatch ev w)) = _observer (this w) /\
  _styleElement (this (dispatch ev w)) = _styleElement (this w).
Proof.
  destruct ev as [|h|]; cbn [dispatch].
  - generalize (filter (fun o => isAttached o) (observers w)). intros l.
    revert w. induction l as [|o l IH]; intros w; [now repeat split|].
    cbn [fold_left]. unfold invoke at 2 4 6 8. rewrite observerCallback_run.
    destruct (IH (afterMutation w)) as (-> & -> & -> & ->).
    destruct (afterMutation_keeps w) as (-> & -> & -> & ->). now repeat split.
  - destruct (find (hasHandle h) (timers w)) as [t|]; [|now repeat split].
    destruct (afterPass_keeps
                (with_timers (filter (fun t' => negb (hasHandle h t')) (timers w)) w))
      as (Ho & Hs & Hob & Hst).
    destruct (task t); cbn [runTask]; unfold invoke.
    + rewrite applyHighlighting_run. now repeat split.
    + rewrite throttleTimeout_run, applyHighlighting_run. now repeat split.
  - generalize (navigatedHandlers w) at 1 2 3 4. intros k.
    induction k as [|k IH]; [now repeat split|].
    cbn [Nat.iter nat_rect]. unfold invoke at 1 3 5 7. rewrite navigatedHandler_run.
    exact IH.
Qed.

Lemma resourceInvariant_dispatch (ev : Event) (w : World) :
  resourceInvariant w -> resourceInvariant (dispatch ev w).
Proof.
  intros (Ht & Ho & Hs). destruct (dispatch_keeps ev w) as (Hobs & Hinj & Hob & Hst).
  split; [now apply throttleInvariant_dispatch|].
  split; [now apply (observer_frame w) | now apply (style_frame w)].
Qed.

(** *** Teardown *)

Lemma resourceInvariant_dispose (w : World) :
  resourceInvariant w -> resourceInvariant (run onDispose w).
Proof.
  intros (Ht & Ho & Hs). unfold run. rewrite onDispose_run. cbn [final].
  unfold afterDispose.
  assert (H1 : resourceInvariant (disposeObserver w)).
  { split; [|split; [now apply observerInvariant_dispose|]].
    - apply (throttle_frame w); [..|exact Ht];
        unfold disposeObserver; now destruct (_observer (this w)).
    - apply (style_frame w); [..|exact Hs];
        unfold disposeObserver; now destruct (_observer (this w)). }
  destruct H1 as (Ht1 & Ho1 & Hs1). set (w1 := disposeObserver w) in *.
  assert (H2 : resourceInvariant (disposeStyle w1)).
  { split; [|split; [|now apply styleInvariant_dispose]].
    - apply (throttle_frame w1); [..|exact Ht1];
        unfold disposeStyle; now destruct (_styleElement (this w1)).
    - apply (observer_frame w1); [..|exact Ho1];
        unfold disposeStyle; now destruct (_styleElement (this w1)). }
  destruct H2 as (Ht2 & Ho2 & Hs2). set (w2 := disposeStyle w1) in *.
  split; [now apply throttleInvariant_dispose|]. split.
  - apply (observer_frame w2); [..|exact Ho2]; unfold disposeTimer;
      destruct (_throttleTimer (this w2)); try reflexivity;
      now destruct (handleTruthy _).
  - apply (style_frame w2); [..|exact Hs2]; unfold disposeTimer;
      destruct (_throttleTimer (this w2)); try reflexivity;
      now destruct (handleTruthy _).
Qed.

(** *** Startup *)

Lemma afterLoad_document (defaults : INavConfig) (w : World) :
  document (afterLoad defaults w) = document w /\
  _styleElement (this (afterLoad defaults w)) = _styleElement (this w).
Proof.
  unfold afterLoad.
  destruct (spHttpClient_get (context w) (configUrlOf (context w)))
    as [e|[|] [e|json]]; try (now split).
  destruct (isNullish json); now split.
Qed.

Lemma afterObserve_document (w : World) :
  document (afterObserve w) = document w /\
  _styleElement (this (afterObserve w)) = _styleElement (this w).
Proof.
  unfold afterObserve. destruct (_observer (this w)); [now split|].
  destruct (body (document w)); now split.
Qed.

Lemma resourceInvariant_onInit (defaults : INavConfig) (w : World) :
  resourceInvariant w -> resourceInvariant (run (onInit defaults) w).
Proof.
  intros (Ht & Ho & Hs). split; [now apply throttleInvariant_onInit|].
  destruct (startupSteps_frame defaults w) as (_ & Hobs & Hob).
  assert (Ho4 : observerInvariant (startupSteps defaults w))
    by now apply (observer_frame w).
  assert (Hs4 : styleInvariant (startupSteps defaults w)).
  { rewrite startupSteps_eq.
    set (w1 := logged Info "Initialized" None w).
    destruct (afterLoad_document defaults w1) as (Hd & Hst).
    destruct (afterPass_keeps (afterInject (afterLoad defaults w1))) as (_ & Hinj & _ & Hst').
    apply (style_frame (afterInject (afterLoad defaults w1))); [exact Hinj | exact Hst'|].
    apply styleInvariant_inject.
    apply (style_frame w); [now rewrite Hd | exact Hst | exact Hs]. }
  unfold run. rewrite onInit_run. cbn [final].
  destruct (navigatedEvent_present (context w)); [|now split].
  unfold run. rewrite observeDOM_run. cbn [final].
  set (w5 := final (navigatedEvent_add (startupSteps defaults w))).
  assert (H5 : observers w5 = observers (startupSteps defaults w) /\
               document w5 = document (startupSteps defaults w) /\
               this w5 = this (startupSteps defaults w)).
  { unfold w5, navigatedEvent_add, mbind, Js_bind, gets.
    now destruct (navigatedEvent_present (context (startupSteps defaults w))). }
  destruct H5 as (H5o & H5d & H5t).
  destruct (afterObserve_document w5) as (Hd & Hst).
  split.
  - apply observerInvariant_observe.
    apply (observer_frame (startupSteps defaults w));
      [exact H5o | now rewrite H5t | exact Ho4].
  - apply (style_frame (startupSteps defaults w));
      [now rewrite Hd, H5d | now rewrite Hst, H5t | exact Hs4].
Qed.

(** The invariant holds throughout the life of an instance. *)
Lemma resourceInvariant_performAll
      (defaults : INavConfig) (l : list Action) (w : World) :
  resourceInvariant w -> resourceInvariant (performAll defaults l w).
Proof.
  revert w. induction l as [|a l IH]; intros w Hinv; [exact Hinv|].
  unfold performAll. cbn [fold_left]. apply IH. destruct a as [| |ev]; cbn [perform].
  - now apply resourceInvariant_onInit.
  - now apply resourceInvariant_dispose.
  - now apply resourceInvariant_dispatch.
Qed.

Lemma resourceInvariant_fresh (w : World) :
  timers w = [] -> _throttleTimer (this w) = None ->
  observers w = [] -> injectedStyles (document w) = [] ->
  resourceInvariant w.
Proof.
  intros Ht Hh Ho Hs. split; [|split].
  - unfold throttleInvariant. rewrite Ht, Hh.
    split; [intros t Hin; inversion Hin|]. split; [constructor | reflexivity].
  - intros i Hi. unfold attachedObservers in Hi. rewrite Ho in Hi. inversion Hi.
  - intros i Hi. rewrite Hs in Hi. inversion Hi.
Qed.

Lemma at_most_one_named (l : list nat) (held : option nat) :
  NoDup l -> (forall i, i ∈ l -> held = Some i) -> (length l <= 1)%nat.
Proof.
  intros Hnd Hall. destruct l as [|a [|b l]]; cbn; [lia | lia |]. exfalso.
  assert (held = Some a) as Ha by (apply Hall; apply list_elem_of_here).
  assert (held = Some b) as Hb
      by (apply Hall; apply list_elem_of_further, list_elem_of_here).
  apply NoDup_cons in Hnd as [Hnotin _]. apply Hnotin.
  assert (a = b) as -> by congruence. apply list_elem_of_here.
Qed.

(** Under the invariant there is at most one of each resource. *)
Lemma resourceInvariant_singletons (w : World) :
  resourceInvariant w ->
  (length (filter (fun t => isThrottleTimer t) (timers w)) <= 1)%nat /\
  (length (attachedObservers w) <= 1)%nat /\
  (length (injectedStyles (document w)) <= 1)%nat.
Proof.
  intros (Ht & Ho & Hs). split; [now apply throttleInvariant_one_pending|]. split.
  - apply (at_most_one_named _ (_observer (this w))); [|exact Ho].
    apply NoDup_filter, NoDup_seq.
  - apply (at_most_one_named _ (_styleElement (this w))); [|exact Hs].
    apply NoDup_filter, NoDup_seq.
Qed.

(** X18: from a start without timers, observers and injected styles,
    whatever the host does (starting the customizer, disposing of it,
    delivering events, in any order and any number of times), at most one
    throttle timer is pending, at most one observer is attached and at
    most one injected style node exists. *)
Corollary lifecycle_singletons (defaults : INavConfig) (l : list Action) (w : World) :
  timers w = [] -> _throttleTimer (this w) = None ->
  observers w = [] -> injectedStyles (document w) = [] ->
  let w' := performAll defaults l w in
  (length (filter (fun t => isThrottleTimer t) (timers w')) <= 1)%nat /\
  (length (attachedObservers w') <= 1)%nat /\
  (length (injectedStyles (document w')) <= 1)%nat.
Proof.
  intros Ht Hh Ho Hs. apply resourceInvariant_singletons, resourceInvariant_performAll.
  now apply resourceInvariant_fresh.
Qed.

Example lifecycle_on_sample :
  let w := performAll Sample.defaults
             [Start; Host MutationBatch; Host Navigated; Start; Host MutationBatch;
              Host (TimerFires 1); Stop; Start; Host MutationBatch]
             Sample.onSite in
  attachedObservers w = [1%nat] /\ injectedStyles (document w) = [10%nat] /\
  handle <$> filter (fun t => isThrottleTimer t) (timers w) = [3%nat].
Proof. vm_compute. repeat split. Qed.

End Lifecycle.

(** ** The observer over the life of an instance *)
Section ObserverLife.

Variable defaults : INavConfig.





End ObserverLife.




(* ================================================================== *)
(** * Further properties *)

(** ** Site names and slashes *)
Section MoreStringFacts.

Lemma append_assoc (a b c : string) : (a +:+ b) +:+ c = a +:+ b +:+ c.
Proof. induction a as [|x a IH]; simpl; [reflexivity | now rewrite IH]. Qed.

Lemma length_append (a b : string) :
  String.length (a +:+ b) = (String.length a + String.length b)%nat.
Proof. induction a as [|x a IH]; simpl; [reflexivity | now rewrite IH]. Qed.

Lemma startsWith_app_l (p u x : string) :
  (String.length p <= String.length u)%nat ->
  startsWith p (u +:+ x) = startsWith p u.
Proof.
  revert u. induction p as [|a p IH]; intros u Hlen; [now destruct u|].
  destruct u as [|b u]; simpl in *; [lia|].
  destruct (Ascii.eqb a b); [apply IH; lia | reflexivity].
Qed.

(** An occurrence that ends inside [u] is an occurrence in [u]. *)
Lemma occursAt_app_l (p u x : string) (i : nat) :
  (i + String.length p <= String.length u)%nat ->
  occursAt p (u +:+ x) i -> occursAt p u i.
Proof.
  revert u. induction i as [|i IH]; intros u Hlen Hocc.
  - apply startsWith_occursAt. apply startsWith_occursAt in Hocc.
    now rewrite startsWith_app_l in Hocc by lia.
  - destruct u as [|c u]; simpl in Hlen; [lia|].
    change (String c u +:+ x) with (String c (u +:+ x)) in Hocc.
    apply occursAt_cons in Hocc. apply occursAt_cons. apply IH; [lia | exact Hocc].
Qed.

Lemma toLowerCase_append (a b : string) :
  toLowerCase (a +:+ b) = toLowerCase a +:+ toLowerCase b.
Proof. induction a as [|x a IH]; simpl; [reflexivity | now rewrite IH]. Qed.

(** [replace(/\/$/, '')] drops a final slash and nothing else. *)
Lemma stripTrailingSlash_cases (u : string) :
  stripTrailingSlash u = u \/ u = stripTrailingSlash u +:+ "/".
Proof.
  induction u as [|c u IH]; [now left|].
  destruct u as [|c' u].
  - cbn [stripTrailingSlash]. unfold slash. destruct (Ascii.eqb_spec c "/") as [->|_].
    + now right.
    + now left.
  - change (stripTrailingSlash (String c (String c' u)))
      with (String c (stripTrailingSlash (String c' u))).
    destruct IH as [->|IH]; [now left|]. right.
    change (String c (stripTrailingSlash (String c' u)) +:+ "/")
      with (String c (stripTrailingSlash (String c' u) +:+ "/")).
    now rewrite <- IH.
Qed.

Lemma indexOf_untilSlash (s : string) : indexOf "/" (untilSlash s) = -1.
Proof.
  induction s as [|c s IH]; [reflexivity|].
  cbn [untilSlash]. unfold slash. destruct (Ascii.eqb_spec c "/") as [->|Hc]; [reflexivity|].
  cbn [indexOf startsWith]. rewrite (Ascii.eqb_sym "/" c).
  destruct (Ascii.eqb_spec c "/"); [contradiction|]. now rewrite IH.
Qed.

End MoreStringFacts.

Lemma extractSiteName_cases (u : string) :
  _extractSiteName u = "" \/ exists m, _extractSiteName u = untilSlash m.
Proof.
  unfold _extractSiteName. destruct (split "/sites/" u !! 1%nat) as [m|]; [|now left].
  destruct (truthy m); [|now left]. rewrite split_slash_head. right. now exists m.
Qed.

(** X1: whatever the URL, the site name [_extractSiteName] returns is one
    path segment: it contains no slash, and so no [/sites/] marker. *)
Theorem extractSiteName_is_one_segment (u : string) :
  ~ occurs "/" (_extractSiteName u) /\ ~ occurs "/sites/" (_extractSiteName u).
Proof.
  assert (Hno : ~ occurs "/" (_extractSiteName u)).
  { intros Hocc. apply indexOf_nonneg_iff in Hocc.
    destruct (extractSiteName_cases u) as [E|[m E]]; rewrite E in Hocc.
    - vm_compute in Hocc. discriminate.
    - rewrite indexOf_untilSlash in Hocc. discriminate. }
  split; [exact Hno|].
  intros [i (pre & post & Heq & _)]. apply Hno.
  exists (String.length pre), pre, ("sites/" +:+ post). split; [|reflexivity].
  exact Heq.
Qed.

(** A slash appended to the URL does not change the site name. *)
Lemma extractSiteName_append_slash (u : string) :
  _extractSiteName (u +:+ "/") = _extractSiteName u.
Proof.
  destruct (-1 <? indexOf "/sites/" u) eqn:Hin.
  - destruct (indexOf_first "/sites/" u (Z.to_nat (indexOf "/sites/" u)))
      as [(pre & post & -> & Hlen) Hmin]; [lia|].
    rewrite <- Hlen in Hmin.
    rewrite extractSiteName_first by exact Hmin.
    rewrite !append_assoc.
    rewrite extractSiteName_first.
    + change "/" with (String slash ""). apply untilSlash_append_slash.
    + intros i Hi. destruct (decide (String.length pre <= i)%nat) as [|Hlt]; [assumption|].
      apply Hmin. rewrite <- !append_assoc in Hi. rewrite <- append_assoc.
      apply (occursAt_app_l _ _ "/"); [|exact Hi].
      rewrite !length_append. simpl. lia.
  - assert (Hno : ~ occurs "/sites/" u).
    { intros Hocc. apply indexOf_nonneg_iff in Hocc. congruence. }
    rewrite (extractSiteName_absent u Hno).
    destruct (-1 <? indexOf "/sites/" (u +:+ "/")) eqn:Hin'.
    + destruct (indexOf_first "/sites/" (u +:+ "/")
                  (Z.to_nat (indexOf "/sites/" (u +:+ "/"))))
        as [(pre & post & Heq & Hlen) Hmin]; [lia|].
      rewrite <- Hlen in Hmin. rewrite Heq in Hmin |- *.
      rewrite extractSiteName_first by exact Hmin.
      destruct post as [|c post]; [reflexivity|]. exfalso. apply Hno.
      exists (String.length pre). apply (occursAt_app_l _ _ "/").
      * apply (f_equal String.length) in Heq. rewrite !length_append in Heq.
        simpl in Heq. simpl. lia.
      * rewrite Heq. now exists pre, (String c post).
    + apply extractSiteName_absent. intros Hocc. apply indexOf_nonneg_iff in Hocc.
      congruence.
Qed.

(** X2: the current site of a pass is the site name of the lower-cased page
    URL: the slash that [replace(/\/$/, '')] removes (line 145) would not
    have changed what [_extractSiteName] returns, and a page URL with a
    trailing slash gives the same current site as the URL without it. *)
Theorem currentSite_ignores_trailing_slash (u : string) :
  currentSiteOf u = _extractSiteName (toLowerCase u) /\
  currentSiteOf (u +:+ "/") = currentSiteOf u.
Proof.
  assert (H : forall v, currentSiteOf v = _extractSiteName (toLowerCase v)).
  { intros v. unfold currentSiteOf.
    destruct (stripTrailingSlash_cases v) as [->|Hv]; [reflexivity|].
    rewrite Hv at 2. rewrite toLowerCase_append.
    change (toLowerCase "/") with "/". now rewrite extractSiteName_append_slash. }
  split; [apply H|].
  rewrite !H, toLowerCase_append. change (toLowerCase "/") with "/".
  apply extractSiteName_append_slash.
Qed.

(** ** What a pass touches *)
Section SelectedLinks.

Lemma NAV_SELECTORS_anchors (sel : Selector) :
  In sel NAV_SELECTORS -> typeSelector (subjectPart sel) = Some "a".
Proof.
  unfold NAV_SELECTORS. cbn [In].
  intros H. repeat (destruct H as [<-|H]; [reflexivity|]). contradiction.
Qed.

(** What [querySelectorAll] returns for [NAV_SELECTORS]: [a] elements that
    are in the document. *)
Lemma selected_is_anchor (d : Document) (i : nat) :
  i ∈ querySelectorAll d NAV_SELECTORS ->
  isConnected d i = true /\ exists e, nodes d !! i = Some e /\ tagName e = "a".
Proof.
  intros [Hsel _]%list_elem_of_filter.
  apply Is_true_true, andb_prop in Hsel as [Hconn Hex]. split; [exact Hconn|].
  apply existsb_exists in Hex as (sel & Hin & Hm).
  apply NAV_SELECTORS_anchors in Hin.
  unfold matchesSelector, matchesAt in Hm. apply andb_prop in Hm as [Hm _].
  destruct (nodes d !! i) as [e|]; [|discriminate]. exists e. split; [reflexivity|].
  unfold matchesCompound in Hm. rewrite Hin in Hm.
  apply andb_prop in Hm as [Hm _]. now apply String.eqb_eq.
Qed.

Lemma highlightDocument_other (url : option string) (d : Document) (i : nat) (e : Element) :
  nodes d !! i = Some e ->
  tagName e <> "a" \/ isConnected d i = false ->
  nodes (highlightDocument url d) !! i = Some e.
Proof.
  intros He Hnot. unfold highlightDocument.
  destruct url as [u|]; [|exact He].
  destruct (truthy (currentSiteOf u)); [|exact He].
  cbn [nodes with_nodes]. rewrite highlightAll_lookup, He.
  rewrite bool_decide_eq_false_2; [reflexivity|].
  intros (Hconn & e' & He' & Htag)%selected_is_anchor.
  rewrite He in He'. injection He' as <-.
  destruct Hnot as [Hnot|Hnot]; congruence.
Qed.

End SelectedLinks.

(** X4: a pass changes no element other than [a] elements that are in the
    document: an element of another tag, or one outside the document tree,
    is after the pass what it was before, whatever the page URL. *)
Theorem pass_touches_connected_anchors_only (w : World) (i : nat) (e : Element) :
  nodes (document w) !! i = Some e ->
  tagName e <> "a" \/ isConnected (document w) i = false ->
  nodes (document (run _applyHighlighting w)) !! i = Some e.
Proof.
  intros He Hnot. unfold run. rewrite applyHighlighting_run. cbn [final].
  rewrite afterPass_document. now apply highlightDocument_other.
Qed.

Lemma pass_touches_connected_anchors_only_witness :
  nodes (document (run _applyHighlighting Sample.onSite)) !! 3%nat
  = Some (Sample.element "div" [] ["ms-HubNav"] (Some 2%nat)).
Proof.
  apply pass_touches_connected_anchors_only; [reflexivity|].
  left. discriminate.
Defined.

Lemma pass_frame_witness :
  exists e',
    nodes (document (run _applyHighlighting Sample.onSite)) !! 4%nat = Some e' /\
    attributes e' = [("href", "https://contoso.com/sites/int/home")] /\
    classList_contains "link" e' = true.
Proof.
  destruct (pass_frame Sample.onSite "https://contoso.com/sites/INT/" 4
              (Sample.element "a" [("href", "https://contoso.com/sites/int/home")]
                              ["link"; OTHER_SITE] (Some 3%nat)))
    as (e' & Hlook & _ & Hattrs & _ & Hclasses & _); [reflexivity | reflexivity|].
  exists e'. split; [exact Hlook|]. split; [exact Hattrs|].
  rewrite Hclasses; reflexivity.
Defined.

(** ** A pass after the page has navigated *)
Section Renavigation.

Lemma filter_unmarked_app_marker (s : string) (e : Element) (cl : list string) :
  filter (fun t => negb (isMarker t))
         (filter (fun t => negb (isMarker t)) cl ++ markerFor s e)
  = filter (fun t => negb (isMarker t)) cl.
Proof.
  now rewrite filter_app, filter_unmarked_idem, filter_unmarked_marker, app_nil_r.
Qed.

(** The markers of an earlier pass do not show in the result of a later one. *)
Lemma highlightLink_absorbs (s1 s2 : string) (e : Element) :
  highlightLink s2 (highlightLink s1 e) = highlightLink s2 e.
Proof.
  rewrite !highlightLink_spec.
  set (cl := filter (fun t => negb (isMarker t)) (classList e)).
  assert (Hm : markerFor s2 (withClassList (cl ++ markerFor s1 e) e) = markerFor s2 e)
    by reflexivity.
  rewrite Hm. unfold withClassList at 1 2.
  cbn [classList tagName attributes styleRules parentNode withClassList].
  unfold withClassList. f_equal. unfold cl. now rewrite filter_unmarked_app_marker.
Qed.

Lemma highlightAll_absorbs (s1 s2 : string) (links : list nat) (ns : list Element) :
  highlightAll s2 links (highlightAll s1 links ns) = highlightAll s2 links ns.
Proof.
  apply list_eq. intros i. rewrite !highlightAll_lookup.
  destruct (ns !! i) as [e|]; [|reflexivity]. cbn.
  case_bool_decide; [now rewrite highlightLink_absorbs | reflexivity].
Qed.

Lemma highlightDocument_absorbs (url : option string) (u : string) (d : Document) :
  currentSiteOf u <> "" ->
  highlightDocument (Some u) (highlightDocument url d) = highlightDocument (Some u) d.
Proof.
  intros Hs%truthy_nonempty. unfold highlightDocument at 2.
  destruct url as [u1|]; [|reflexivity].
  destruct (truthy (currentSiteOf u1)); [|reflexivity].
  unfold highlightDocument. rewrite Hs.
  rewrite highlightAll_querySelectorAll by (reflexivity || apply NAV_SELECTORS_blind).
  cbn [nodes with_nodes]. now rewrite highlightAll_absorbs.
Qed.

End Renavigation.

(** X5: when the page has moved to a URL with a site name, the pass for the
    new URL leaves the document that it would have left had the earlier
    pass not run: nothing of the markers of the earlier pass remains. *)
Theorem pass_after_navigation_replaces_markers (w : World) (u : string) :
  currentSiteOf u <> "" ->
  document (run _applyHighlighting (with_absoluteUrl (Some u) (run _applyHighlighting w)))
  = document (run _applyHighlighting (with_absoluteUrl (Some u) w)).
Proof.
  intros Hs. unfold run. rewrite !applyHighlighting_run. cbn [final].
  rewrite !afterPass_document.
  cbn [context with_absoluteUrl absoluteUrl document].
  rewrite afterPass_document. now apply highlightDocument_absorbs.
Qed.

Lemma pass_after_navigation_replaces_markers_witness :
  classList <$> nodes (document
    (run _applyHighlighting
       (with_absoluteUrl (Some "https://contoso.com/sites/other")
          (run _applyHighlighting Sample.onSite))))
  = [ []; []; []; ["ms-HubNav"]; ["link"; OTHER_SITE]; [CURRENT_SITE]; [];
      [CURRENT_SITE] ].
Proof.
  rewrite (pass_after_navigation_replaces_markers
             Sample.onSite "https://contoso.com/sites/other").
  - reflexivity.
  - vm_compute. discriminate.
Defined.

(** ** What the steps and the events leave alone *)
Section MoreFrames.

Variable defaults : INavConfig.

Lemma afterInject_config (w : World) :
  _config (this (afterInject w)) = _config (this w) /\
  navigatedHandlers (afterInject w) = navigatedHandlers w /\
  passes (afterInject w) = passes w /\
  uncaught (afterInject w) = uncaught w.
Proof. unfold afterInject. destruct (head (document w)); now repeat split. Qed.

Lemma afterObserve_config (w : World) :
  _config (this (afterObserve w)) = _config (this w) /\
  navigatedHandlers (afterObserve w) = navigatedHandlers w /\
  passes (afterObserve w) = passes w /\
  uncaught (afterObserve w) = uncaught w.
Proof.
  unfold afterObserve. destruct (_observer (this w)); [now repeat split|].
  destruct (body (document w)); now repeat split.
Qed.

Lemma afterLoad_handlers (w : World) :
  navigatedHandlers (afterLoad defaults w) = navigatedHandlers w /\
  passes (afterLoad defaults w) = passes w /\
  uncaught (afterLoad defaults w) = uncaught w.
Proof.
  unfold afterLoad.
  destruct (spHttpClient_get (context w) (configUrlOf (context w)))
    as [e|[|] [e|json]]; try (now repeat split).
  destruct (isNullish json); now repeat split.
Qed.

(** The state [onInit] leaves, over the state its first four steps leave. *)
Lemma onInit_after_steps (w : World) :
  let w4 := startupSteps defaults w in
  let w' := run (onInit defaults) w in
  document w' = document w4 /\ _config (this w') = _config (this w4) /\
  _styleElement (this w') = _styleElement (this w4) /\
  passes w' = passes w4 /\ uncaught w' = uncaught w4 /\
  navigatedHandlers w'
  = (if navigatedEvent_present (context w) then S (navigatedHandlers w4)
     else navigatedHandlers w4).
Proof.
  intros w4 w'. unfold w', run. rewrite onInit_run. cbn [final].
  destruct (startupSteps_frame defaults w) as (Hctx & _ & _). fold w4 in Hctx.
  destruct (navigatedEvent_present (context w)) eqn:E; [|now repeat split].
  unfold run. rewrite observeDOM_run. cbn [final]. fold w4.
  assert (Hadd : final (navigatedEvent_add w4)
                 = with_navigatedHandlers (S (navigatedHandlers w4)) w4).
  { unfold navigatedEvent_add, mbind, Js_bind, gets. now rewrite Hctx, E. }
  rewrite Hadd.
  destruct (afterObserve_document (with_navigatedHandlers (S (navigatedHandlers w4)) w4))
    as (-> & ->).
  destruct (afterObserve_config (with_navigatedHandlers (S (navigatedHandlers w4)) w4))
    as (-> & -> & -> & ->).
  now repeat split.
Qed.

(** The configuration after [onInit] is the one its [_loadConfig] leaves. *)
Lemma startupSteps_config (w : World) :
  _config (this (startupSteps defaults w))
  = _config (this (run (_loadConfig defaults) w)).
Proof.
  rewrite startupSteps_eq.
  destruct (afterPass_frame
              (afterInject (afterLoad defaults (logged Info "Initialized" None w))))
    as (-> & _).
  destruct (afterInject_config (afterLoad defaults (logged Info "Initialized" None w)))
    as (-> & _).
  unfold run. rewrite loadConfig_run. cbn [final]. unfold afterLoad.
  cbn [context logged with_log].
  destruct (spHttpClient_get (context w) (configUrlOf (context w)))
    as [e|[|] [e|json]]; try reflexivity.
  destruct (isNullish json); reflexivity.
Qed.

Lemma startupSteps_handlers (w : World) :
  navigatedHandlers (startupSteps defaults w) = navigatedHandlers w /\
  passes (startupSteps defaults w) = S (passes w) /\
  uncaught (startupSteps defaults w) = uncaught w.
Proof.
  rewrite startupSteps_eq.
  set (w1 := logged Info "Initialized" None w).
  destruct (afterPass_frame (afterInject (afterLoad defaults w1)))
    as (_ & _ & _ & _ & -> & -> & ->).
  destruct (afterInject_config (afterLoad defaults w1)) as (_ & -> & -> & ->).
  destruct (afterLoad_handlers w1) as (-> & -> & ->). now repeat split.
Qed.

Lemma onInit_handlers (w : World) :
  navigatedEvent_present (context w) = true ->
  navigatedHandlers (run (onInit defaults) w) = S (navigatedHandlers w) /\
  passes (run (onInit defaults) w) = S (passes w).
Proof.
  intros Hp. destruct (onInit_after_steps w) as (_ & _ & _ & -> & _ & ->).
  rewrite Hp. destruct (startupSteps_handlers w) as (-> & -> & _). now split.
Qed.

Lemma onInit_uncaught (w : World) :
  uncaught (run (onInit defaults) w) = uncaught w.
Proof.
  destruct (onInit_after_steps w) as (_ & _ & _ & _ & -> & _).
  now destruct (startupSteps_handlers w) as (_ & _ & ->).
Qed.

Lemma afterMutation_config (w : World) :
  _config (this (afterMutation w)) = _config (this w) /\
  passes (afterMutation w) = passes w.
Proof.
  unfold afterMutation. now destruct (handleTruthy (_throttleTimer (this w))).
Qed.

Lemma mutations_config (l : list Observer) (w : World) :
  let w' := fold_left (fun (w' : World) (_ : Observer) => invoke observerCallback w') l w in
  _config (this w') = _config (this w) /\ passes w' = passes w.
Proof.
  revert w. induction l as [|o l IH]; intros w; [now split|].
  cbn zeta in *. cbn [fold_left]. unfold invoke at 2 4. rewrite observerCallback_run.
  destruct (IH (afterMutation w)) as (-> & ->).
  destruct (afterMutation_config w) as (-> & ->). now split.
Qed.

(** What the handlers of one navigated event leave: one timer each. *)
Lemma navigated_iter (k : nat) (w : World) :
  let w' := Nat.iter k (invoke navigatedHandler) w in
  timers w' = timers w ++ (navigationTimer <$> seq (S (timerCount w)) k) /\
  timerCount w' = (timerCount w + k)%nat /\
  this w' = this w /\ document w' = document w /\ passes w' = passes w /\
  navigatedHandlers w' = navigatedHandlers w /\ observers w' = observers w /\
  log w' = log w.
Proof.
  induction k as [|k IH]; cbn zeta in *.
  - cbn. rewrite app_nil_r. repeat split; lia.
  - cbn [Nat.iter nat_rect].
    change (nat_rect (fun _ => World) w (fun _ => invoke navigatedHandler) k)
      with (Nat.iter k (invoke navigatedHandler) w).
    destruct IH as (Ht & Hc & Hthis & Hdoc & Hps & Hnh & Hobs & Hlog).
    set (w1 := Nat.iter k (invoke navigatedHandler) w) in *.
    unfold invoke. rewrite navigatedHandler_run. unfold afterNavigated.
    cbn [timers timerCount this document passes navigatedHandlers observers log
         with_timers with_timerCount].
    rewrite Ht, Hc, seq_S, fmap_app, app_assoc. cbn [fmap list_fmap].
    replace (S (timerCount w) + k)%nat with (S (timerCount w + k)) by lia.
    repeat split; try assumption. lia.
Qed.

(** What an event leaves of the configuration and of the count of passes. *)
Lemma dispatch_config (ev : Event) (w : World) :
  _config (this (dispatch ev w)) = _config (this w) /\
  (passes w <= passes (dispatch ev w) <= passes w + (if isTimerFires ev then 1 else 0))%nat.
Proof.
  destruct ev as [|h|]; cbn [dispatch isTimerFires].
  - destruct (mutations_config (filter (fun o => isAttached o) (observers w)) w)
      as (-> & ->). split; [reflexivity | lia].
  - destruct (find (hasHandle h) (timers w)) as [t|]; [|split; [reflexivity | lia]].
    destruct (afterPass_frame
                (with_timers (filter (fun t' => negb (hasHandle h t')) (timers w)) w))
      as (Hthis & _ & _ & _ & _ & _ & Hps).
    destruct (task t); cbn [runTask]; unfold invoke.
    + rewrite applyHighlighting_run, Hthis, Hps. cbn. split; [reflexivity | lia].
    + rewrite throttleTimeout_run, applyHighlighting_run.
      cbn [clearThrottle this passes with_this _config with_throttleTimer].
      rewrite Hthis, Hps. cbn. split; [reflexivity | lia].
  - destruct (navigated_iter (navigatedHandlers w) w) as (_ & _ & -> & _ & -> & _).
    split; [reflexivity | lia].
Qed.

Lemma afterDispose_config (w : World) :
  _config (this (afterDispose w)) = _config (this w) /\
  uncaught (afterDispose w) = uncaught w /\
  passes (afterDispose w) = passes w.
Proof.
  destruct w as [[se cfg ob tm] ctx [ns root hd bd] nh obs tms tc lg ps un].
  destruct ob, se, tm as [[|h]|]; now repeat split.
Qed.

End MoreFrames.

(** ** The configuration over the life of an instance *)
Section ConfigComplete.

Variable defaults : INavConfig.

Lemma mergedField_truthy (json : JsValue) (name : string) (fallback : JsValue) :
  toBoolean fallback = true -> toBoolean (mergedField json name fallback) = true.
Proof.
  intros Hf. unfold mergedField.
  destruct (toBoolean (jsonField json name)) eqn:E; [exact E | exact Hf].
Qed.

Lemma mergedConfig_complete (json : JsValue) :
  configComplete defaults = true -> configComplete (mergedConfig defaults json) = true.
Proof.
  unfold configComplete. intros [[[Ha Hb]%andb_prop Hc]%andb_prop Hd]%andb_prop.
  cbn [mergedConfig currentSiteColor currentSiteFontWeight otherSiteColor
       otherSiteFontWeight].
  now rewrite !mergedField_truthy.
Qed.

Lemma loadConfig_complete (w : World) :
  configComplete defaults = true ->
  configComplete (_config (this w)) = true ->
  configComplete (_config (this (run (_loadConfig defaults) w))) = true.
Proof.
  intros Hd Hw. unfold run. rewrite loadConfig_run. cbn [final].
  destruct (afterLoad_config_cases defaults w) as [->|[json ->]]; [exact Hw|].
  now apply mergedConfig_complete.
Qed.

End ConfigComplete.

(** X6: when none of the four built-in defaults is falsy, none of the four
    values of the stored configuration ever is, whatever the server sends
    and whatever the host does: [_loadConfig] replaces every falsy field of
    the JSON by its default, and nothing else writes the configuration. *)
Theorem config_stays_complete (defaults : INavConfig) (l : list Action) (w : World) :
  configComplete defaults = true ->
  configComplete (_config (this w)) = true ->
  configComplete (_config (this (performAll defaults l w))) = true.
Proof.
  intros Hd. revert w. induction l as [|a l IH]; intros w Hw; [exact Hw|].
  unfold performAll in *. cbn [fold_left]. apply IH.
  destruct a as [| |ev]; cbn [perform].
  - destruct (onInit_after_steps defaults w) as (_ & -> & _).
    rewrite startupSteps_config. now apply loadConfig_complete.
  - unfold run. rewrite onDispose_run. cbn [final].
    now destruct (afterDispose_config w) as (-> & _).
  - now destruct (dispatch_config ev w) as (-> & _).
Qed.

Lemma config_stays_complete_witness :
  configComplete
    (_config (this (performAll Sample.defaults
                      [Start; Host MutationBatch; Host (TimerFires 1); Stop; Start]
                      Sample.onSite))) = true.
Proof.
  apply config_stays_complete; reflexivity.
Defined.

(** ** The style element *)

(** X7: on a page with a [head], after [onInit] the instance holds a style
    element that is a child of the [head], carries the attribute
    [data-hub-nav-customizer="true"], and is built from the configuration
    the instance then has, which is the one [_loadConfig] left: the styles
    are injected after the configuration is loaded, and the pass that
    follows does not touch them. *)
Theorem onInit_style_carries_loaded_config (defaults : INavConfig) (w : World) (hd : nat) :
  head (document w) = Some hd ->
  let w' := run (onInit defaults) w in
  _config (this w') = _config (this (run (_loadConfig defaults) w)) /\
  exists el,
    _styleElement (this w') = Some el /\
    nodes (document w') !! el = Some (styleNode (_config (this w')) (Some hd)).
Proof.
  intros Hhd w'.
  destruct (onInit_after_steps defaults w) as (Hdoc & Hcfg & Hst & _).
  fold w' in Hdoc, Hcfg, Hst. rewrite Hdoc, Hcfg, Hst.
  split; [apply startupSteps_config|].
  rewrite startupSteps_eq.
  set (w2 := afterLoad defaults (logged Info "Initialized" None w)).
  assert (Hhd2 : head (document w2) = Some hd).
  { unfold w2. destruct (afterLoad_document defaults (logged Info "Initialized" None w))
      as (-> & _). exact Hhd. }
  destruct (afterPass_frame (afterInject w2)) as (-> & _).
  destruct (afterInject_config w2) as (Hcfg3 & _).
  set (ns := match _styleElement (this w2) with
             | Some old => alter (withParent None) old (nodes (document w2))
             | None => nodes (document w2)
             end).
  assert (Hel : _styleElement (this (afterInject w2)) = Some (length ns)).
  { unfold afterInject. rewrite Hhd2. reflexivity. }
  assert (Hnode : nodes (document (afterInject w2)) !! length ns
                  = Some (styleNode (_config (this w2)) (Some hd))).
  { unfold afterInject. rewrite Hhd2.
    cbn [document setNodes with_document nodes with_nodes]. fold ns.
    now rewrite lookup_app_r, Nat.sub_diag by lia. }
  exists (length ns). split; [exact Hel|]. rewrite Hcfg3.
  rewrite afterPass_document. apply highlightDocument_other; [exact Hnode|].
  left. discriminate.
Qed.

Lemma onInit_style_carries_loaded_config_witness :
  exists el,
    _styleElement (this Sample.watching) = Some el /\
    (nodes (document Sample.watching) !! el) ≫= styleRules
    = Some {| currentSiteColor := JString "green";
              currentSiteFontWeight := currentSiteFontWeight Sample.defaults;
              otherSiteColor := otherSiteColor Sample.defaults;
              otherSiteFontWeight := otherSiteFontWeight Sample.defaults |}.
Proof.
  destruct (onInit_style_carries_loaded_config Sample.defaults Sample.onSite 1)
    as (_ & el & Hel & Hnode); [reflexivity|].
  exists el. split; [exact Hel|].
  unfold Sample.watching. rewrite Hnode. reflexivity.
Defined.

(** X8: on a page without [head], [_injectStyles] returns normally and logs
    the error; no injected style node exists afterwards, and the instance
    holds the element it has built, which has no parent. *)
Theorem injectStyles_without_head (w : World) :
  head (document w) = None ->
  let w' := run _injectStyles w in
  _injectStyles w = Normal tt w' /\
  injectedStyles (document w') = [] /\
  (exists el, _styleElement (this w') = Some el /\
              nodes (document w') !! el = Some (styleNode (_config (this w)) None)) /\
  log w' = log w ++ [{| level := Error; message := "Failed to inject styles";
                        cause := Some (TypeError
                          "Cannot read properties of null (reading 'appendChild')") |}].
Proof.
  intros Hhd w'. unfold w', run. rewrite injectStyles_run. cbn [final].
  split; [reflexivity|]. split; [|split].
  - apply injectedStyles_no_head. unfold afterInject. rewrite Hhd. exact Hhd.
  - unfold afterInject. rewrite Hhd.
    set (ns := match _styleElement (this w) with
               | Some old => alter (withParent None) old (nodes (document w))
               | None => nodes (document w)
               end).
    exists (length ns). split; [reflexivity|].
    cbn [document logged with_log setNodes with_document nodes with_nodes].
    now rewrite lookup_app_r, Nat.sub_diag by lia.
  - unfold afterInject. rewrite Hhd. reflexivity.
Qed.

Lemma injectStyles_without_head_witness :
  injectedStyles (document (run _injectStyles Faulty.headless)) = [] /\
  _styleElement (this (run _injectStyles Faulty.headless)) = Some 8%nat.
Proof.
  destruct (injectStyles_without_head Faulty.headless) as (_ & Hnone & (el & Hel & _) & _);
    [reflexivity|].
  split; [exact Hnone|]. rewrite Hel. vm_compute in Hel. congruence.
Defined.

(** ** The observer *)

(** X9: when [document.body] does not exist at the first call, [_observeDOM]
    logs the error and attaches nothing, but leaves the instance holding
    the observer it created; so a later call is a no-op, also on a page
    that has got a [body] since: the attachment is not tried again. *)
Theorem observeDOM_failure_is_final (w : World) (b : nat) :
  body (document w) = None ->
  _observer (this w) = None ->
  let failed := run _observeDOM w in
  filter (fun o => isAttached o) (observers failed)
  = filter (fun o => isAttached o) (observers w) /\
  _observer (this failed) = Some (length (observers w)) /\
  log failed = log w ++ [{| level := Error; message := "Failed to setup DOM observer";
                           cause := Some (TypeError "parameter 1 is not of type 'Node'") |}] /\
  _observeDOM (with_body (Some b) failed) = Normal tt (with_body (Some b) failed).
Proof.
  intros Hb Ho failed. unfold failed, run. rewrite observeDOM_run. cbn [final].
  unfold afterObserve at 1 2 3 4. rewrite Ho, Hb.
  cbn [observers this log logged with_log with_observers with_this _observer with_observer].
  split; [|split; [reflexivity|split; [reflexivity|]]].
  - rewrite filter_app. rewrite filter_cons_False by exact id.
    now rewrite filter_nil, app_nil_r.
  - rewrite observeDOM_run. unfold afterObserve at 1.
    unfold with_body at 1. cbn [this with_document].
    unfold afterObserve. rewrite Ho, Hb. reflexivity.
Qed.

Lemma observeDOM_failure_is_final_witness :
  observers (run _observeDOM (with_body (Some 2%nat) (run _observeDOM Faulty.bodiless)))
  = [{| observed := None; childList := false; subtree := false |}].
Proof.
  destruct (observeDOM_failure_is_final Faulty.bodiless 2) as (_ & _ & _ & Hnoop);
    [reflexivity | reflexivity|].
  unfold run at 1. rewrite Hnoop. reflexivity.
Defined.

(** ** Disposal *)
Section Disposal.

Lemma afterDispose_again (w : World) : afterDispose (afterDispose w) = afterDispose w.
Proof.
  destruct w as [[se cfg ob tm] ctx [ns root hd bd] nh obs tms tc lg ps un].
  destruct ob as [ob|]; destruct se as [se|]; destruct tm as [[|h]|]; reflexivity.
Qed.

Lemma find_cleared (h : nat) (l : list Timer) :
  find (hasHandle h) (filter (fun t => negb (hasHandle h t)) l) = None.
Proof.
  induction l as [|t l IH]; [reflexivity|].
  destruct (hasHandle h t) eqn:E.
  - rewrite filter_cons_False by (rewrite E; exact id). exact IH.
  - rewrite filter_cons_True by (rewrite E; exact I). cbn [find]. now rewrite E.
Qed.

Lemma find_present (l : list Timer) (t : Timer) :
  NoDup (handle <$> l) -> t ∈ l -> find (hasHandle (handle t)) l = Some t.
Proof.
  intros Hnd Hin. destruct (find (hasHandle (handle t)) l) as [t'|] eqn:Hfind.
  - apply find_some in Hfind as [Hin' Hh]. apply list_elem_of_In in Hin'.
    apply Nat.eqb_eq in Hh. f_equal.
    now apply (same_handle_same_timer l).
  - apply list_elem_of_In in Hin. apply (find_none _ _ Hfind) in Hin.
    unfold hasHandle in Hin. now rewrite Nat.eqb_refl in Hin.
Qed.

(** When no index holds an attached observer, no observer is attached. *)
Lemma attached_none (w : World) :
  attachedObservers w = [] -> filter (fun o => isAttached o) (observers w) = [].
Proof.
  intros Hnone. apply elem_of_nil_inv. intros o [Hat Hin]%list_elem_of_filter.
  apply list_elem_of_lookup in Hin as [i Hi].
  assert (Hmem : i ∈ attachedObservers w).
  { apply list_elem_of_filter. split.
    - unfold attachedAt. now rewrite Hi.
    - apply elem_of_seq. apply lookup_lt_Some in Hi. lia. }
  rewrite Hnone in Hmem. inversion Hmem.
Qed.

Lemma afterDispose_this (w : World) :
  throttleInvariant w -> this (afterDispose w) = released (this w).
Proof.
  intros Hinv.
  assert (Htruthy : forall h, _throttleTimer (this w) = Some h -> handleTruthy (Some h) = true).
  { intros h Hh. destruct (throttleInvariant_held w h Hinv Hh) as [_ Hpos].
    cbn. apply negb_true_iff, Nat.eqb_neq. lia. }
  destruct w as [[se cfg ob tm] ctx [ns root hd bd] nh obs tms tc lg ps un].
  cbn [this _throttleTimer] in Htruthy.
  destruct tm as [h|].
  - specialize (Htruthy h eq_refl).
    unfold afterDispose, disposeTimer, disposeStyle, disposeObserver.
    destruct ob as [ob|]; destruct se as [se|];
      cbn [this _observer _styleElement _throttleTimer with_this with_observer
           with_styleElement with_throttleTimer with_observers setNodes with_document
           with_timers]; rewrite Htruthy; reflexivity.
  - destruct ob as [ob|]; destruct se as [se|]; reflexivity.
Qed.

(** The timers [onDispose] leaves: all of them, or all but the one the
    instance held. *)
Lemma afterDispose_timers (w : World) :
  timers (afterDispose w) = timers w \/
  exists h, _throttleTimer (this w) = Some (S h) /\
            timers (afterDispose w)
            = filter (fun t => negb (hasHandle (S h) t)) (timers w).
Proof.
  destruct w as [[se cfg ob tm] ctx [ns root hd bd] nh obs tms tc lg ps un].
  destruct tm as [[|h]|].
  - left. destruct ob, se; reflexivity.
  - right. exists h. split; [reflexivity|]. destruct ob, se; reflexivity.
  - left. destruct ob, se; reflexivity.
Qed.

(** What a disposed instance holds, and what is left of its resources. *)
Lemma afterDispose_released (w : World) :
  resourceInvariant w ->
  this (afterDispose w) = released (this w) /\
  attachedObservers (afterDispose w) = [] /\
  injectedStyles (document (afterDispose w)) = [] /\
  filter (fun t => isThrottleTimer t) (timers (afterDispose w)) = [].
Proof.
  intros Hinv. pose proof (resourceInvariant_dispose w Hinv) as (Ht & Ho & Hs).
  unfold run in Ht, Ho, Hs. rewrite onDispose_run in Ht, Ho, Hs. cbn [final] in *.
  assert (Hthis : this (afterDispose w) = released (this w))
    by (apply afterDispose_this; now destruct Hinv).
  split; [exact Hthis|]. split; [|split].
  - apply elem_of_nil_inv. intros i Hi. apply Ho in Hi. rewrite Hthis in Hi. discriminate.
  - apply elem_of_nil_inv. intros i Hi. apply Hs in Hi. rewrite Hthis in Hi. discriminate.
  - destruct Ht as (_ & _ & ->). now rewrite Hthis.
Qed.

End Disposal.

(** X10: when the resources of the instance are the ones its fields name
    (as they are throughout its life), after [onDispose] the three handles
    of the instance are [null], and no observer is attached, no injected
    style node is left in the [head], and no throttle timer is pending. *)
Theorem onDispose_releases_everything (w : World) :
  resourceInvariant w ->
  let w' := run onDispose w in
  this w' = released (this w) /\
  attachedObservers w' = [] /\
  injectedStyles (document w') = [] /\
  filter (fun t => isThrottleTimer t) (timers w') = [].
Proof.
  intros Hinv w'. unfold w', run. rewrite onDispose_run. cbn [final].
  now apply afterDispose_released.
Qed.

Lemma onDispose_releases_everything_witness :
  this (run onDispose Sample.watching) = released (this Sample.watching) /\
  attachedObservers (run onDispose Sample.watching) = [].
Proof.
  destruct (onDispose_releases_everything Sample.watching) as (Hthis & Hobs & _).
  - apply resourceInvariant_onInit, resourceInvariant_fresh; reflexivity.
  - split; [exact Hthis | exact Hobs].
Defined.

(** X11: [onDispose] always returns normally, and disposing of an instance
    twice leaves the state that disposing of it once leaves: the second
    call finds nothing to release and logs nothing. *)
Theorem onDispose_idempotent (w : World) :
  onDispose w = Normal tt (run onDispose w) /\
  run onDispose (run onDispose w) = run onDispose w.
Proof.
  unfold run. rewrite !onDispose_run. cbn [final]. split; [reflexivity|].
  apply afterDispose_again.
Qed.

(** X12: a disposed instance does not react to mutations: any number of
    mutation batches leaves the state as it is, schedules no timer and
    runs no pass; and the expiry of the throttle timer the instance held
    has no effect, since the timer was cleared. *)
Theorem disposed_instance_is_quiet (w : World) (n : nat) :
  resourceInvariant w ->
  let w' := run onDispose w in
  dispatchAll (replicate n MutationBatch) w' = w' /\
  (forall h, _throttleTimer (this w) = Some h -> dispatch (TimerFires h) w' = w').
Proof.
  intros Hinv w'. unfold w', run. rewrite onDispose_run. cbn [final].
  destruct (afterDispose_released w Hinv) as (Hthis & Hobs & _ & _). split.
  - apply attached_none in Hobs.
    induction n as [|n IH]; [reflexivity|].
    cbn [replicate]. unfold dispatchAll in *. cbn [fold_left].
    cbn [dispatch]. rewrite Hobs. exact IH.
  - intros h Hh. destruct Hinv as (Ht & _ & _).
    destruct (throttleInvariant_held w h Ht Hh) as [_ Hpos].
    cbn [dispatch].
    destruct (afterDispose_timers w) as [Hsame|(h' & Hh' & ->)].
    + exfalso. destruct w as [[se cfg ob tm] ctx [ns root hd bd] nh obs tms tc lg ps un].
      cbn [this _throttleTimer] in Hh. subst tm. destruct h as [|h]; [lia|].
      assert (Hin : throttleTimer (S h) ∈ tms).
      { now destruct (throttleInvariant_held _ (S h) Ht eq_refl). }
      assert (Hout : throttleTimer (S h) ∈ filter (fun t => negb (hasHandle (S h) t)) tms).
      { revert Hsame. destruct ob, se; cbn; intros ->; exact Hin. }
      apply list_elem_of_filter in Hout as [Hneq _].
      unfold hasHandle in Hneq. cbn in Hneq. now rewrite Nat.eqb_refl in Hneq.
    + assert (h = S h') as -> by congruence. now rewrite find_cleared.
Qed.

Lemma disposed_instance_is_quiet_witness :
  let w := dispatch MutationBatch Sample.watching in
  dispatchAll (replicate 2 MutationBatch) (run onDispose w) = run onDispose w /\
  dispatch (TimerFires 1) (run onDispose w) = run onDispose w.
Proof.
  destruct (disposed_instance_is_quiet (dispatch MutationBatch Sample.watching) 2)
    as (Hquiet & Hfire).
  - apply resourceInvariant_dispatch, resourceInvariant_onInit, resourceInvariant_fresh;
      reflexivity.
  - split; [exact Hquiet | apply Hfire; reflexivity].
Defined.

(** X13: [onDispose] clears the throttle timer only.  A timer that the
    handler of the navigated event has scheduled stays pending, and when it
    fires after the disposal it runs a pass. *)
Theorem onDispose_leaves_navigation_timers (w : World) (t : Timer) :
  throttleInvariant w ->
  t ∈ timers w ->
  task t = HighlightAfterNavigation ->
  let w' := run onDispose w in
  t ∈ timers w' /\
  passes (dispatch (TimerFires (handle t)) w') = S (passes w).
Proof.
  intros Hinv Hin Htask w'.
  pose proof Hinv as (_ & Hnd & Hfilter).
  assert (Hin' : t ∈ timers w').
  { unfold w', run. rewrite onDispose_run. cbn [final].
    destruct (afterDispose_timers w) as [->|(h & Hh & ->)]; [exact Hin|].
    apply list_elem_of_filter. split; [|exact Hin].
    unfold hasHandle. destruct (Nat.eqb_spec (handle t) (S h)) as [Heq|_]; [|exact I].
    exfalso. destruct (throttleInvariant_held w (S h) Hinv Hh) as [Hheld _].
    assert (t = throttleTimer (S h))
      by (apply (same_handle_same_timer (timers w)); assumption).
    subst t. discriminate. }
  split; [exact Hin'|].
  assert (Hnd' : NoDup (handle <$> timers w')).
  { unfold w', run. rewrite onDispose_run. cbn [final].
    destruct (afterDispose_timers w) as [->|(h & _ & ->)]; [exact Hnd|].
    now apply NoDup_handles_filter. }
  cbn [dispatch]. rewrite (find_present _ _ Hnd' Hin'), Htask. cbn [runTask].
  unfold invoke. rewrite applyHighlighting_run.
  destruct (afterPass_frame
              (with_timers (filter (fun t' => negb (hasHandle (handle t) t')) (timers w')) w'))
    as (_ & _ & _ & _ & _ & _ & ->).
  cbn [passes with_timers]. unfold w', run. rewrite onDispose_run. cbn [final].
  now destruct (afterDispose_config w) as (_ & _ & ->).
Qed.

Lemma onDispose_leaves_navigation_timers_witness :
  let w := dispatch Navigated Sample.watching in
  navigationTimer 1 ∈ timers (run onDispose w) /\
  passes (dispatch (TimerFires 1) (run onDispose w)) = S (passes w).
Proof.
  apply (onDispose_leaves_navigation_timers
           (dispatch Navigated Sample.watching) (navigationTimer 1)).
  - apply throttleInvariant_dispatch, throttleInvariant_onInit.
    split; [intros t Hin; inversion Hin|]. split; [constructor | reflexivity].
  - apply list_elem_of_In. vm_compute. auto.
  - reflexivity.
Defined.

(** ** The navigated event *)

(** X14: every [onInit] subscribes to the navigated event and runs one
    pass: nothing guards the subscription as [_observer] guards the
    observer, so on a page whose navigated event can be subscribed to,
    [k] calls of [onInit] add [k] handlers. *)
Theorem onInit_subscribes_every_time (defaults : INavConfig) (w : World) (k : nat) :
  navigatedEvent_present (context w) = true ->
  let w' := Nat.iter k (run (onInit defaults)) w in
  navigatedHandlers w' = (navigatedHandlers w + k)%nat /\
  passes w' = (passes w + k)%nat.
Proof.
  intros Hp. cbn zeta.
  assert (H : context (Nat.iter k (run (onInit defaults)) w) = context w /\
              navigatedHandlers (Nat.iter k (run (onInit defaults)) w)
              = (navigatedHandlers w + k)%nat /\
              passes (Nat.iter k (run (onInit defaults)) w) = (passes w + k)%nat).
  { induction k as [|k (Hctx & Hn & Hps)]; [repeat split; cbn; lia|].
    cbn [Nat.iter nat_rect].
    change (nat_rect (fun _ => World) w (fun _ => run (onInit defaults)) k)
      with (Nat.iter k (run (onInit defaults)) w).
    destruct (onInit_frame defaults (Nat.iter k (run (onInit defaults)) w)) as (-> & _).
    destruct (onInit_handlers defaults (Nat.iter k (run (onInit defaults)) w))
      as (-> & ->); [now rewrite Hctx|].
    split; [exact Hctx|]. split; lia. }
  destruct H as (_ & Hn & Hps). now split.
Qed.

Lemma onInit_subscribes_every_time_witness :
  navigatedHandlers (Nat.iter 3 (run (onInit Sample.defaults)) Sample.onSite) = 3%nat.
Proof.
  destruct (onInit_subscribes_every_time Sample.defaults Sample.onSite 3) as (Hn & _);
    [reflexivity|].
  exact Hn.
Defined.

(** X15: a navigated event runs no pass and changes neither the instance
    nor the document: each subscribed handler schedules one timer of 500
    ms with a fresh handle.  Navigations are not coalesced as mutations
    are: [n] events with [m] handlers leave [n * m] more timers pending. *)
Theorem navigation_schedules_one_pass_per_handler (w : World) (n : nat) :
  let w' := dispatch Navigated w in
  timers w' = timers w ++ (navigationTimer <$> seq (S (timerCount w)) (navigatedHandlers w)) /\
  this w' = this w /\ document w' = document w /\ passes w' = passes w /\
  length (timers (dispatchAll (replicate n Navigated) w))
  = (length (timers w) + n * navigatedHandlers w)%nat.
Proof.
  cbn zeta. cbn [dispatch].
  destruct (navigated_iter (navigatedHandlers w) w) as (Ht & _ & Hthis & Hdoc & Hps & _).
  split; [exact Ht|]. split; [exact Hthis|]. split; [exact Hdoc|]. split; [exact Hps|].
  clear Ht Hthis Hdoc Hps. revert w. induction n as [|n IH]; intros w; [cbn; lia|].
  cbn [replicate]. unfold dispatchAll in *. cbn [fold_left]. rewrite IH.
  cbn [dispatch].
  destruct (navigated_iter (navigatedHandlers w) w) as (-> & _ & _ & _ & _ & -> & _).
  rewrite length_app, length_fmap, length_seq. lia.
Qed.

(** ** Exceptions and passes *)

(** X16: [onDispose] always returns normally, and no exception of the
    customizer ever reaches the host page: whatever the host does, every
    callback it invokes returns normally. *)
Theorem no_exception_reaches_the_page (defaults : INavConfig) (l : list Action) (w : World) :
  (forall w0, onDispose w0 = Normal tt (run onDispose w0)) /\
  uncaught (performAll defaults l w) = uncaught w.
Proof.
  split; [intros w0; unfold run; now rewrite onDispose_run|].
  revert w. induction l as [|a l IH]; intros w; [reflexivity|].
  unfold performAll in *. cbn [fold_left]. rewrite IH.
  destruct a as [| |ev]; cbn [perform].
  - apply onInit_uncaught.
  - unfold run. rewrite onDispose_run. cbn [final]. apply afterDispose_config.
  - apply dispatch_uncaught.
Qed.

(** X17: passes run from timers only.  A mutation batch and a navigated
    event run no pass themselves, and over any sequence of events the
    number of passes grows by at most the number of timer expiries in it. *)
Theorem passes_run_only_when_timers_fire (evs : list Event) (w : World) :
  passes (dispatch MutationBatch w) = passes w /\
  passes (dispatch Navigated w) = passes w /\
  (passes w <= passes (dispatchAll evs w)
   <= passes w + length (filter (fun ev => isTimerFires ev) evs))%nat.
Proof.
  split; [|split].
  - destruct (dispatch_config MutationBatch w) as (_ & H). cbn [isTimerFires] in H. lia.
  - destruct (dispatch_config Navigated w) as (_ & H). cbn [isTimerFires] in H. lia.
  - revert w. induction evs as [|ev evs IH]; intros w; [cbn; lia|].
    unfold dispatchAll in *. cbn [fold_left].
    specialize (IH (dispatch ev w)). destruct (dispatch_config ev w) as (_ & Hev).
    destruct (isTimerFires ev) eqn:E.
    + rewrite filter_cons_True by (rewrite E; exact I). cbn [length]. lia.
    + rewrite filter_cons_False by (rewrite E; exact id). lia.
Qed.

Lemma lifecycle_singletons_witness :
  let w' := performAll Sample.defaults
              [Start; Host MutationBatch; Start; Host Navigated; Stop; Start]
              Sample.onSite in
  (length (filter (fun t => isThrottleTimer t) (timers w')) <= 1)%nat /\
  (length (attachedObservers w') <= 1)%nat /\
  (length (injectedStyles (document w')) <= 1)%nat.
Proof.
  apply (lifecycle_singletons Sample.defaults
           [Start; Host MutationBatch; Start; Host Navigated; Stop; Start] Sample.onSite);
    reflexivity.
Defined.

(** ** The mega-menu labels *)
Section MegaMenuFacts.

Import MegaMenu.

Lemma lookupAttribute_store (ds : list (string * string)) (n v : string) :
  lookupAttribute (storeAttribute ds n v) n = Some v.
Proof.
  induction ds as [|[k x] ds IH]; cbn [storeAttribute lookupAttribute].
  - now rewrite String.eqb_refl.
  - destruct (String.eqb k n) eqn:E; cbn [lookupAttribute]; rewrite E; [reflexivity | exact IH].
Qed.

Lemma lookupAttribute_store_ne (ds : list (string * string)) (n m v : string) :
  m <> n -> lookupAttribute (storeAttribute ds n v) m = lookupAttribute ds m.
Proof.
  intros Hne. induction ds as [|[k x] ds IH]; cbn [storeAttribute lookupAttribute].
  - destruct (String.eqb_spec n m); [congruence | reflexivity].
  - destruct (String.eqb_spec k n) as [->|Hk]; cbn [lookupAttribute].
    + destruct (String.eqb_spec n m); [congruence | reflexivity].
    + now rewrite IH.
Qed.

(** Storing the value an attribute has changes nothing. *)
Lemma storeAttribute_same (ds : list (string * string)) (n v : string) :
  lookupAttribute ds n = Some v -> storeAttribute ds n v = ds.
Proof.
  induction ds as [|[k x] ds IH]; cbn [storeAttribute lookupAttribute]; [discriminate|].
  destruct (String.eqb k n); [congruence|]. intros H. now rewrite IH.
Qed.

Lemma labelStyle_idem (ds : list (string * string)) :
  labelStyle (labelStyle ds) = labelStyle ds.
Proof.
  unfold labelStyle at 1.
  rewrite (storeAttribute_same (labelStyle ds) "color" "#d13438").
  2:{ unfold labelStyle. rewrite !lookupAttribute_store_ne by discriminate.
      apply lookupAttribute_store. }
  rewrite (storeAttribute_same (labelStyle ds) "fontWeight" "600").
  2:{ unfold labelStyle. rewrite !lookupAttribute_store_ne by discriminate.
      apply lookupAttribute_store. }
  rewrite (storeAttribute_same (labelStyle ds) "pointerEvents" "none").
  2:{ unfold labelStyle. rewrite !lookupAttribute_store_ne by discriminate.
      apply lookupAttribute_store. }
  apply storeAttribute_same. unfold labelStyle. apply lookupAttribute_store.
Qed.

(** The guard of the branch tests for the class the branch adds: the class
    list of a section never changes. *)
Lemma styleSection_spec (s : Styled) :
  styleSection s
  = if classList_contains MEGA_LABEL (element s)
    then {| element := element s; inlineStyle := labelStyle (inlineStyle s) |}
    else s.
Proof.
  unfold styleSection. destruct (classList_contains MEGA_LABEL (element s)) eqn:E;
    [|reflexivity].
  unfold setStyle, onElement, classList_add. cbn [element inlineStyle]. now rewrite E.
Qed.

Lemma styleSection_idem (s : Styled) : styleSection (styleSection s) = styleSection s.
Proof.
  rewrite (styleSection_spec s).
  destruct (classList_contains MEGA_LABEL (element s)) eqn:E.
  - rewrite styleSection_spec. cbn [element inlineStyle]. now rewrite E, labelStyle_idem.
  - rewrite styleSection_spec. now rewrite E.
Qed.

Lemma highlightLabel_cases (e : Element) :
  highlightLabel e
  = if isLabel e && negb (classList_contains LABEL_HIGHLIGHT e)
    then withClassList (classList e ++ [LABEL_HIGHLIGHT]) e
    else e.
Proof.
  unfold highlightLabel, classList_add.
  destruct (isLabel e); [|reflexivity].
  destruct (classList_contains LABEL_HIGHLIGHT e); reflexivity.
Qed.

Lemma highlightLabel_contains (e : Element) (t : string) :
  classList_contains t (highlightLabel e)
  = classList_contains t e || (isLabel e && String.eqb t LABEL_HIGHLIGHT).
Proof.
  rewrite highlightLabel_cases.
  destruct (isLabel e); cbn [andb]; [|now rewrite orb_false_r].
  destruct (classList_contains LABEL_HIGHLIGHT e) eqn:E; cbn [negb].
  - destruct (String.eqb_spec t LABEL_HIGHLIGHT) as [->|_];
      [now rewrite E | now rewrite orb_false_r].
  - unfold classList_contains. cbn [classList withClassList].
    rewrite isToken_app. unfold isToken at 2. cbn [existsb]. now rewrite orb_false_r.
Qed.

Lemma highlightLabel_isLabel (e : Element) : isLabel (highlightLabel e) = isLabel e.
Proof.
  rewrite highlightLabel_cases.
  destruct (isLabel e && negb (classList_contains LABEL_HIGHLIGHT e)); [|reflexivity].
  unfold isLabel. cbn [classList withClassList]. rewrite existsb_app.
  cbn. now rewrite orb_false_r.
Qed.

Lemma highlightLabel_idem (e : Element) : highlightLabel (highlightLabel e) = highlightLabel e.
Proof.
  rewrite (highlightLabel_cases (highlightLabel e)).
  rewrite highlightLabel_isLabel, highlightLabel_contains.
  destruct (isLabel e) eqn:E; cbn [andb]; [|reflexivity].
  change (String.eqb LABEL_HIGHLIGHT LABEL_HIGHLIGHT) with true.
  now rewrite orb_true_r.
Qed.

Lemma highlightLabel_shape (e : Element) :
  tagName (highlightLabel e) = tagName e /\
  attributes (highlightLabel e) = attributes e /\
  parentNode (highlightLabel e) = parentNode e /\
  styleRules (highlightLabel e) = styleRules e.
Proof.
  rewrite highlightLabel_cases.
  destruct (isLabel e && negb (classList_contains LABEL_HIGHLIGHT e)); now repeat split.
Qed.

Lemma onElement_highlightLabel_idem (s : Styled) :
  onElement highlightLabel (onElement highlightLabel s) = onElement highlightLabel s.
Proof. unfold onElement. cbn [element inlineStyle]. now rewrite highlightLabel_idem. Qed.

(** The two loops act on different parts of an element. *)
Lemma styleSection_highlightLabel (s : Styled) :
  styleSection (onElement highlightLabel s) = onElement highlightLabel (styleSection s).
Proof.
  rewrite !styleSection_spec. cbn [element onElement].
  rewrite highlightLabel_contains.
  change (String.eqb MEGA_LABEL LABEL_HIGHLIGHT) with false.
  rewrite andb_false_r, orb_false_r.
  destruct (classList_contains MEGA_LABEL (element s)); reflexivity.
Qed.

(** A node is rewritten once, however often it is listed. *)
Lemma alterAll_lookup {A : Type} (f : A -> A) (l : list nat) (xs : list A) (i : nat) :
  (forall x, f (f x) = f x) ->
  alterAll f l xs !! i = (if bool_decide (i ∈ l) then f else id) <$> xs !! i.
Proof.
  intros Hf. revert xs. induction l as [|j l IH]; intros xs.
  - cbn. now destruct (xs !! i).
  - change (alterAll f (j :: l) xs) with (alterAll f l (alter f j xs)).
    rewrite IH. destruct (decide (i = j)) as [->|Hne].
    + rewrite list_lookup_alter_eq.
      rewrite (bool_decide_eq_true_2 (j ∈ j :: l)) by apply list_elem_of_here.
      destruct (xs !! j) as [x|]; [|reflexivity]. cbn.
      case_bool_decide; [now rewrite Hf | reflexivity].
    + rewrite list_lookup_alter_ne by congruence.
      destruct (xs !! i) as [x|]; [|reflexivity]. cbn.
      f_equal. destruct (decide (i ∈ l)) as [Hin|Hout].
      * rewrite (bool_decide_eq_true_2 (i ∈ l)) by exact Hin.
        rewrite (bool_decide_eq_true_2 (i ∈ j :: l)); [reflexivity|].
        now apply list_elem_of_further.
      * rewrite (bool_decide_eq_false_2 (i ∈ l)) by exact Hout.
        rewrite (bool_decide_eq_false_2 (i ∈ j :: l)); [reflexivity|].
        intros [?|?]%elem_of_cons; [congruence | contradiction].
Qed.

Lemma alterAll_length {A : Type} (f : A -> A) (l : list nat) (xs : list A) :
  length (alterAll f l xs) = length xs.
Proof.
  revert xs. induction l as [|j l IH]; intros xs; [reflexivity|].
  change (alterAll f (j :: l) xs) with (alterAll f l (alter f j xs)).
  now rewrite IH, length_alter.
Qed.

(** [processCallout], node by node. *)
Lemma processCallout_lookup (callout : nat) (p : list Styled) (i : nat) :
  processCallout callout p !! i = calloutChange callout p i <$> p !! i.
Proof.
  unfold processCallout, calloutChange. cbn zeta.
  rewrite alterAll_lookup by apply onElement_highlightLabel_idem.
  rewrite alterAll_lookup by apply styleSection_idem.
  now destruct (p !! i).
Qed.

Lemma calloutChange_element (callout : nat) (p : list Styled) (i : nat) (s : Styled) :
  element (calloutChange callout p i s) = element s \/
  element (calloutChange callout p i s) = highlightLabel (element s).
Proof.
  unfold calloutChange.
  assert (Hsec : element ((if bool_decide (i ∈ gridSections (elements p) callout)
                           then styleSection else id) s) = element s).
  { case_bool_decide; [|reflexivity]. rewrite styleSection_spec.
    now destruct (classList_contains MEGA_LABEL (element s)). }
  destruct (bool_decide (i ∈ gridItems (elements p) callout)); [right | left];
    cbn [onElement element id]; now rewrite Hsec.
Qed.

End MegaMenuFacts.

(** *** The selections do not depend on the label highlight *)
Section MegaMenuSelection.

Import MegaMenu.

Lemma ancestorsFrom_parents (ns ns' : list Element) (fuel i : nat) :
  (forall j, ns' !! j ≫= parentNode = ns !! j ≫= parentNode) ->
  ancestorsFrom ns' fuel i = ancestorsFrom ns fuel i.
Proof.
  intros Hp. revert i. induction fuel as [|fuel IH]; intros i; [reflexivity|].
  cbn [ancestorsFrom]. rewrite Hp.
  destruct (ns !! i ≫= parentNode); [now rewrite IH | reflexivity].
Qed.

Lemma processCallout_labelledOnly (callout : nat) (p : list Styled) :
  labelledOnly (elements p) (elements (processCallout callout p)).
Proof.
  split.
  - unfold elements, processCallout. cbn zeta.
    now rewrite !length_fmap, !alterAll_length.
  - intros j. unfold elements. rewrite !list_lookup_fmap, processCallout_lookup.
    destruct (p !! j) as [s|]; [|now left]. cbn.
    destruct (calloutChange_element callout p j s) as [->| ->]; [now left|].
    right. now exists (element s).
Qed.

Variables ns ns' : list Element.
Hypothesis Hsim : labelledOnly ns ns'.

Lemma labelledOnly_ancestors (i : nat) : ancestors ns' i = ancestors ns i.
Proof.
  destruct Hsim as [Hlen Hj]. unfold ancestors. rewrite Hlen.
  apply ancestorsFrom_parents. intros j.
  destruct (Hj j) as [->|(e & -> & ->)]; [reflexivity|]. cbn.
  now destruct (highlightLabel_shape e) as (_ & _ & -> & _).
Qed.

Lemma labelledOnly_hasClass (t : string) (i : nat) :
  t <> LABEL_HIGHLIGHT -> hasClass t ns' i = hasClass t ns i.
Proof.
  intros Ht. destruct Hsim as [_ Hj]. unfold hasClass.
  destruct (Hj i) as [->|(e & -> & ->)]; [reflexivity|].
  rewrite highlightLabel_contains.
  destruct (String.eqb_spec t LABEL_HIGHLIGHT); [contradiction|].
  now rewrite andb_false_r, orb_false_r.
Qed.

Lemma labelledOnly_within (root i : nat) : within ns' root i = within ns root i.
Proof. unfold within. now rewrite labelledOnly_ancestors. Qed.

Lemma labelledOnly_inGrid (i : nat) : inGrid ns' i = inGrid ns i.
Proof.
  unfold inGrid. rewrite labelledOnly_ancestors.
  induction (ancestors ns i) as [|j js IH]; [reflexivity|].
  cbn [existsb]. now rewrite labelledOnly_hasClass, IH by discriminate.
Qed.

Lemma labelledOnly_anchor (i : nat) : matchesAt ns' anchor i = matchesAt ns anchor i.
Proof.
  destruct Hsim as [_ Hj]. unfold matchesAt.
  destruct (Hj i) as [->|(e & -> & ->)]; [reflexivity|].
  unfold matchesCompound. cbn [typeSelector attrTests anchor forallb].
  now destruct (highlightLabel_shape e) as (-> & _).
Qed.

Lemma labelledOnly_isSectionAt (i : nat) : isSectionAt ns' i = isSectionAt ns i.
Proof.
  destruct Hsim as [_ Hj]. unfold isSectionAt.
  destruct (Hj i) as [->|(e & -> & ->)]; [reflexivity|].
  unfold isSection, getAttribute. rewrite highlightLabel_contains.
  change (String.eqb "ms-Menu-section" LABEL_HIGHLIGHT) with false.
  rewrite andb_false_r, orb_false_r.
  now destruct (highlightLabel_shape e) as (_ & -> & _).
Qed.

Lemma labelledOnly_gridItems (callout : nat) :
  gridItems ns' callout = gridItems ns callout.
Proof.
  unfold gridItems. destruct Hsim as [-> _]. apply filter_bool_ext. intros i.
  now rewrite labelledOnly_within, labelledOnly_anchor, labelledOnly_inGrid.
Qed.

Lemma labelledOnly_gridSections (callout : nat) :
  gridSections ns' callout = gridSections ns callout.
Proof.
  unfold gridSections. destruct Hsim as [-> _]. apply filter_bool_ext. intros i.
  now rewrite labelledOnly_within, labelledOnly_isSectionAt, labelledOnly_inGrid.
Qed.

End MegaMenuSelection.

Section MegaMenuChanges.

Import MegaMenu.

(** What [processCallout] makes of one node. *)
Lemma calloutChange_frame (callout : nat) (p : list Styled) (i : nat) (s : Styled) :
  p !! i = Some s ->
  let s' := calloutChange callout p i s in
  tagName (element s') = tagName (element s) /\
  attributes (element s') = attributes (element s) /\
  parentNode (element s') = parentNode (element s) /\
  (forall t, t <> LABEL_HIGHLIGHT ->
             classList_contains t (element s') = classList_contains t (element s)) /\
  (classList_contains LABEL_HIGHLIGHT (element s') = true ->
   classList_contains LABEL_HIGHLIGHT (element s) = true \/
   isLabel (element s) = true /\ tagName (element s) = "a") /\
  (classList_contains MEGA_LABEL (element s) = false ->
   inlineStyle s' = inlineStyle s) /\
  (within (elements p) callout i = false -> s' = s).
Proof.
  intros Hs. cbn zeta.
  assert (Hin : forall (q : nat -> bool) (l : list nat),
             l = filter (fun j => q j) (seq 0 (length (elements p))) ->
             i ∈ l -> q i = true).
  { intros q l -> [Hq _]%list_elem_of_filter. now apply Is_true_true. }
  unfold calloutChange.
  destruct (bool_decide (i ∈ gridSections (elements p) callout)) eqn:Hsec;
    destruct (bool_decide (i ∈ gridItems (elements p) callout)) eqn:Hitem;
    cbn [id]; rewrite ?styleSection_spec.
  all: try apply bool_decide_eq_true_1 in Hsec.
  all: try apply bool_decide_eq_true_1 in Hitem.
  all: try (apply (Hin _ _ eq_refl) in Hsec;
            apply andb_prop in Hsec as [[Hsw _]%andb_prop _]).
  all: try (apply (Hin _ _ eq_refl) in Hitem;
            apply andb_prop in Hitem as [[Hiw Hia]%andb_prop _];
            unfold matchesAt, elements in Hia; rewrite list_lookup_fmap, Hs in Hia;
            cbn in Hia; apply andb_prop in Hia as [Hia%String.eqb_eq _]).
  all: destruct (classList_contains MEGA_LABEL (element s)) eqn:Hmega;
    cbn [onElement element inlineStyle];
    try (destruct (highlightLabel_shape (element s)) as (Htag & Hattr & Hpar & _));
    repeat split; try assumption; try reflexivity; try congruence;
    try (intros t Ht; rewrite highlightLabel_contains;
         destruct (String.eqb_spec t LABEL_HIGHLIGHT); [contradiction|];
         now rewrite andb_false_r, orb_false_r);
    try (rewrite highlightLabel_contains; intros [?|[? _]%andb_prop]%orb_prop;
         [now left | now right]);
    try (intros; now left);
    try (destruct s; reflexivity).
Qed.

Lemma kept_refl (s : Styled) : kept s s.
Proof. now repeat split. Qed.

Lemma kept_trans (s1 s2 s3 : Styled) : kept s1 s2 -> kept s2 s3 -> kept s1 s3.
Proof.
  intros (Ht & Ha & Hp & Hc & Hi) (Ht' & Ha' & Hp' & Hc' & Hi').
  split; [congruence|]. split; [congruence|]. split; [congruence|]. split.
  - intros t Hne. now rewrite Hc', Hc.
  - intros Hm. rewrite Hi', Hi; [reflexivity | exact Hm|].
    now rewrite Hc by discriminate.
Qed.

Lemma processCallout_kept (callout : nat) (p : list Styled) (i : nat) (s : Styled) :
  p !! i = Some s -> exists s', processCallout callout p !! i = Some s' /\ kept s s'.
Proof.
  intros Hs. destruct (calloutChange_frame callout p i s Hs)
    as (Ht & Ha & Hp & Hc & _ & Hi & _).
  exists (calloutChange callout p i s).
  split; [now rewrite processCallout_lookup, Hs|]. now repeat split.
Qed.

Lemma onAdded_kept (node : Node) (p : list Styled) (i : nat) (s : Styled) :
  p !! i = Some s -> exists s', onAdded p node !! i = Some s' /\ kept s s'.
Proof.
  intros Hs. destruct node as [c|]; cbn [onAdded].
  - destruct (hasClass "ms-Callout" (elements p) c).
    + now apply processCallout_kept.
    + exists s. split; [exact Hs | apply kept_refl].
  - exists s. split; [exact Hs | apply kept_refl].
Qed.

Lemma addedNodes_kept (added : list Node) (p : list Styled) (i : nat) (s : Styled) :
  p !! i = Some s -> exists s', fold_left onAdded added p !! i = Some s' /\ kept s s'.
Proof.
  revert p s. induction added as [|node added IH]; intros p s Hs.
  - exists s. split; [exact Hs | apply kept_refl].
  - cbn [fold_left]. destruct (onAdded_kept node p i s Hs) as (s1 & H1 & Hk1).
    destruct (IH _ _ H1) as (s2 & H2 & Hk2). exists s2. split; [exact H2|].
    now apply (kept_trans s s1 s2).
Qed.

End MegaMenuChanges.

Section MegaMenuTheorems.

Import MegaMenu.

(** X19: [processCallout] is idempotent: processing a callout that has been
    processed changes nothing, neither a class list nor an inline style. *)
Theorem processCallout_idempotent (callout : nat) (p : list Styled) :
  processCallout callout (processCallout callout p) = processCallout callout p.
Proof.
  apply list_eq. intros i. rewrite (processCallout_lookup callout (processCallout _ _)).
  unfold calloutChange at 1.
  rewrite (labelledOnly_gridItems _ _ (processCallout_labelledOnly callout p)).
  rewrite (labelledOnly_gridSections _ _ (processCallout_labelledOnly callout p)).
  rewrite processCallout_lookup. destruct (p !! i) as [s|]; [|reflexivity].
  cbn [fmap option_fmap option_map]. f_equal. unfold calloutChange.
  destruct (bool_decide (i ∈ gridItems (elements p) callout));
    destruct (bool_decide (i ∈ gridSections (elements p) callout)); cbn [id].
  - now rewrite styleSection_highlightLabel, styleSection_idem,
      onElement_highlightLabel_idem.
  - apply onElement_highlightLabel_idem.
  - apply styleSection_idem.
  - reflexivity.
Qed.

(** X20: what [processCallout] can change of an element: never its tag, its
    attributes or its parent, and no class but [spfx-label-highlight],
    which it gives to [a] elements with a class that starts with
    [itemLinkMenuHeading] only; it sets no inline style on an element that
    does not already carry [spfx-mega-label]; and it leaves every element
    that is not a descendant of the callout as it is. *)
Theorem processCallout_frame (callout : nat) (p : list Styled) (i : nat) (s : Styled) :
  p !! i = Some s ->
  exists s',
    processCallout callout p !! i = Some s' /\
    tagName (element s') = tagName (element s) /\
    attributes (element s') = attributes (element s) /\
    parentNode (element s') = parentNode (element s) /\
    (forall t, t <> LABEL_HIGHLIGHT ->
               classList_contains t (element s') = classList_contains t (element s)) /\
    (classList_contains LABEL_HIGHLIGHT (element s') = true ->
     classList_contains LABEL_HIGHLIGHT (element s) = true \/
     isLabel (element s) = true /\ tagName (element s) = "a") /\
    (classList_contains MEGA_LABEL (element s) = false ->
     inlineStyle s' = inlineStyle s) /\
    (within (elements p) callout i = false -> s' = s).
Proof.
  intros Hs. exists (calloutChange callout p i s).
  split; [now rewrite processCallout_lookup, Hs|].
  now apply calloutChange_frame.
Qed.

Lemma processCallout_frame_witness :
  exists s',
    processCallout 1 menu !! 3%nat = Some s' /\
    classList_contains "ms-Menu-section" (element s') = true /\
    inlineStyle s' = [].
Proof.
  destruct (processCallout_frame 1 menu 3
              (plain "div" [("aria-label", "Teams")] ["ms-Menu-section"] (Some 2%nat)))
    as (s' & Hlook & _ & _ & _ & Hclasses & _ & Hstyle & _); [reflexivity|].
  exists s'. split; [exact Hlook|]. split.
  - rewrite Hclasses; [reflexivity | discriminate].
  - now rewrite Hstyle.
Defined.

(** X21: whatever mutation records the watcher is handed, it never gives an
    element the class [spfx-mega-label], and it sets no inline style on an
    element that does not carry that class when the records arrive: the
    branch of lines 215-222 tests for the class it adds.  Of an element,
    the watcher changes no tag, attribute or parent, and no class other
    than [spfx-label-highlight]. *)
Theorem watcher_never_labels_a_section
        (mutations : list (list Node)) (p : list Styled) (i : nat) (s : Styled) :
  p !! i = Some s ->
  exists s',
    onMutations mutations p !! i = Some s' /\
    tagName (element s') = tagName (element s) /\
    attributes (element s') = attributes (element s) /\
    parentNode (element s') = parentNode (element s) /\
    (forall t, t <> LABEL_HIGHLIGHT ->
               classList_contains t (element s') = classList_contains t (element s)) /\
    (classList_contains MEGA_LABEL (element s) = false ->
     classList_contains MEGA_LABEL (element s') = false /\
     inlineStyle s' = inlineStyle s).
Proof.
  intros Hs.
  assert (H : exists s', onMutations mutations p !! i = Some s' /\ kept s s').
  { unfold onMutations. revert p s Hs.
    induction mutations as [|added mutations IH]; intros p s Hs.
    - exists s. split; [exact Hs | apply kept_refl].
    - cbn [fold_left]. destruct (addedNodes_kept added p i s Hs) as (s1 & H1 & Hk1).
      destruct (IH _ _ H1) as (s2 & H2 & Hk2). exists s2. split; [exact H2|].
      now apply (kept_trans s s1 s2). }
  destruct H as (s' & Hlook & Ht & Ha & Hp & Hc & Hi).
  exists s'. split; [exact Hlook|]. split; [exact Ht|]. split; [exact Ha|].
  split; [exact Hp|]. split; [exact Hc|].
  intros Hm. split; [now rewrite Hc by discriminate | now apply Hi].
Qed.

Lemma watcher_never_labels_a_section_witness :
  exists s',
    onMutations [[OtherNode; ElementNode 1]; [ElementNode 1]] menu !! 3%nat = Some s' /\
    classList (element s') = ["ms-Menu-section"] /\ inlineStyle s' = [].
Proof.
  destruct (watcher_never_labels_a_section
              [[OtherNode; ElementNode 1]; [ElementNode 1]] menu 3
              (plain "div" [("aria-label", "Teams")] ["ms-Menu-section"] (Some 2%nat)))
    as (s' & Hlook & _ & _ & _ & _ & Hstyle); [reflexivity|].
  exists s'. split; [exact Hlook|].
  destruct (Hstyle eq_refl) as [_ Hinline]. split; [|exact Hinline].
  vm_compute in Hlook. injection Hlook as <-. reflexivity.
Defined.

(** X22: the label highlight and the site markers do not interfere: a link
    carries the same classes whether the highlighting pass runs before the
    label callback or after it. *)
Theorem labels_and_markers_commute (site : string) (e : Element) (t : string) :
  classList_contains t (highlightLink site (highlightLabel e))
  = classList_contains t (highlightLabel (highlightLink site e)).
Proof.
  assert (Hlabel : isLabel (highlightLink site e) = isLabel e).
  { rewrite highlightLink_spec. unfold isLabel. cbn [classList withClassList].
    rewrite existsb_app, existsb_unmarked by reflexivity.
    unfold markerFor.
    destruct (truthy (linkSiteName e) && String.eqb (linkSiteName e) site);
      [|destruct (includes "/sites/" (hrefOf e))]; cbn; now rewrite orb_false_r. }
  assert (Hmarker : markerFor site (highlightLabel e) = markerFor site e).
  { unfold markerFor, linkSiteName, hrefOf, getAttribute.
    now destruct (highlightLabel_shape e) as (_ & -> & _). }
  rewrite highlightLabel_contains, Hlabel.
  rewrite !highlightLink_spec. unfold classList_contains at 1 2.
  cbn [classList withClassList]. rewrite !isToken_app, !isToken_filter, Hmarker.
  fold (classList_contains t (highlightLabel e)). fold (classList_contains t e).
  rewrite highlightLabel_contains.
  destruct (String.eqb_spec t LABEL_HIGHLIGHT) as [->|_].
  - change (isMarker LABEL_HIGHLIGHT) with false. cbn [negb].
    rewrite !andb_true_r.
    destruct (classList_contains LABEL_HIGHLIGHT e), (isLabel e),
      (isToken (markerFor site e) LABEL_HIGHLIGHT); reflexivity.
  - now rewrite !andb_false_r, !orb_false_r.
Qed.

(** The sample callout: the heading link inside the grid gets the label
    highlight, the one outside it does not; the labelled section gets the
    inline style, the other section nothing. *)
Example processCallout_on_menu :
  (fun s => (classList (element s), inlineStyle s)) <$> processCallout 1 menu
  = [ ([], []); (["ms-Callout"], []); (["ms-MegaMenu-gridLayout"], []);
      (["ms-Menu-section"], []);
      (["itemLinkMenuHeading-71"; LABEL_HIGHLIGHT], []);
      (["itemLink-80"], []);
      (["itemLinkMenuHeading-71"], []);
      (["ms-Menu-section"; MEGA_LABEL],
       [("color", "#d13438"); ("fontWeight", "600"); ("pointerEvents", "none");
        ("cursor", "default")]) ].
Proof. reflexivity. Qed.

End MegaMenuTheorems.
